(** * Gridifier: cell extraction, re-tiling and mesh repair

    A shallow embedding of [src/gridifier.ts] (the geometric pipeline) and of
    the grid-size parser of the command line ([parseGridSize]).

    Conventions of the embedding.
    - A JavaScript [number] that holds a length, a coordinate or a scale
      factor is an exact rational ([Q]); rounding error, NaN and the
      infinities are outside the model.  A division by zero therefore
      yields [0] (the value of [Qdiv]); every statement that goes through a
      division carries the hypothesis that the divisor is not zero.
    - A [THREE.BufferGeometry] is its position attribute (one [Vector3] per
      vertex) and its optional index.  The normal, uv and tangent
      attributes are not represented: nothing below reads them.
    - Mutation in place is written as a function that returns the new value
      of the mutated object; [clone()] is the identity.
    - The boolean engine (three-bvh-csg), vertex welding and buffer
      concatenation (BufferGeometryUtils) and [Math.sqrt] are collaborators
      of the program; they are section variables. *)

From Stdlib Require Import QArith Qround ZArith Lia Bool Permutation Ascii.
From stdpp Require Import base gmap strings list pretty.

Local Open Scope Q_scope.

(** ** Numbers *)

Definition OVERLAP_THICKNESS : Q := 1 # 100.
Definition MERGE_VERTICES_TOLERANCE : Q := 1 # 1000.
Definition MIN_TRIANGLE_AREA : Q := 1 # 1000.

(** [a < b] on numbers, as a boolean. *)
Definition Qltb (a b : Q) : bool := negb (Qle_bool b a).

(** [Math.round]: the nearest integer, a tie going up. *)
Definition Math_round (q : Q) : Z := Qfloor (q + (1 # 2)).

(** The loop counter [j] read as a number. *)
Definition ofNat (n : nat) : Q := inject_Z (Z.of_nat n).

(** ** Outcomes of a call: a value, a thrown [Error], or a loop that did not
    finish within the fuel it was given. *)

Inductive outcome (A : Type) : Type :=
| Returned (a : A)
| Thrown (message : string)
| OutOfFuel.
Arguments Returned {A} a.
Arguments Thrown {A} message.
Arguments OutOfFuel {A}.

#[global] Instance outcome_ret : MRet outcome := fun A a => Returned a.
#[global] Instance outcome_bind : MBind outcome := fun A B k c =>
  match c with
  | Returned a => k a
  | Thrown e => Thrown e
  | OutOfFuel => OutOfFuel
  end.

(** ** Geometry primitives (three.js) *)

Module THREE.

Record Vector3 : Type := mkVector3 { vx : Q; vy : Q; vz : Q }.

Record Box3 : Type := mkBox3 { box_min : Vector3; box_max : Vector3 }.

Record BufferGeometry : Type := mkGeometry {
position : list Vector3;
index : option (list nat)
}.

(** [attributes.position.array.length]: three numbers per vertex. *)
Definition positionArrayLength (g : BufferGeometry) : nat :=
(3 * length (position g))%nat.

(** The running minimum and maximum of [Box3.setFromBufferAttribute]:
  [if (x < minX) minX = x; if (x > maxX) maxX = x]. *)
Definition lower (m x : Q) : Q := if Qltb x m then x else m.
Definition upper (m x : Q) : Q := if Qltb m x then x else m.

Definition expandByPoint (b : Box3) (p : Vector3) : Box3 :=
{| box_min := {| vx := lower (vx (box_min b)) (vx p);
                 vy := lower (vy (box_min b)) (vy p);
                 vz := lower (vz (box_min b)) (vz p) |};
   box_max := {| vx := upper (vx (box_max b)) (vx p);
                 vy := upper (vy (box_max b)) (vy p);
                 vz := upper (vz (box_max b)) (vz p) |} |}.

(** The box of a vertex list; [None] stands for the empty box that three.js
  writes as (+Infinity, -Infinity). *)
Definition setFromBufferAttribute (ps : list Vector3) : option Box3 :=
match ps with
| [] => None
| p :: rest => Some (fold_left expandByPoint rest (mkBox3 p p))
end.

(** [geometry.boundingBox] after [computeBoundingBox()].  Every three.js
  transform used below recomputes the cached box, and every function of
  the program that writes positions by hand re-trims afterwards, so the
  cache always equals the box of the current positions. *)
Definition boundingBox (g : BufferGeometry) : option Box3 :=
setFromBufferAttribute (position g).

Definition origin : Vector3 := mkVector3 0 0 0.

(** [geometry.boundingBox!.min] and [.max].  For a geometry without vertices
  the program reads [+Infinity] and [-Infinity] here; the model reads [0].
  A statement about the box of a geometry, or about a piece that is moved
  or stretched by the box of another, takes as a hypothesis that the
  geometry has vertices. *)
Definition bbMin (g : BufferGeometry) : Vector3 :=
match boundingBox g with Some b => box_min b | None => origin end.
Definition bbMax (g : BufferGeometry) : Vector3 :=
match boundingBox g with Some b => box_max b | None => origin end.

Definition mapPosition (f : Vector3 -> Vector3) (g : BufferGeometry) : BufferGeometry :=
{| position := map f (position g); index := index g |}.

Definition translate (g : BufferGeometry) (dx dy dz : Q) : BufferGeometry :=
mapPosition (fun p => mkVector3 (vx p + dx) (vy p + dy) (vz p + dz)) g.

Definition scale (g : BufferGeometry) (sx sy sz : Q) : BufferGeometry :=
mapPosition (fun p => mkVector3 (vx p * sx) (vy p * sy) (vz p * sz)) g.

(** Angles.  The program only ever passes a multiple of [Math.PI / 2]; an
  angle is the number of quarter turns, and the cosine and sine are the
  exact ones. *)
Definition Angle : Type := Z.
Definition quarterTurns (k : Z) : Angle := k.
Definition PI : Angle := quarterTurns 2.

Definition cosA (a : Angle) : Q :=
match (a mod 4)%Z with 0%Z => 1 | 2%Z => -(1) | _ => 0 end.
Definition sinA (a : Angle) : Q :=
match (a mod 4)%Z with 1%Z => 1 | 3%Z => -(1) | _ => 0 end.

Definition rotateZ (g : BufferGeometry) (a : Angle) : BufferGeometry :=
mapPosition (fun p => mkVector3 (vx p * cosA a - vy p * sinA a)
                                (vx p * sinA a + vy p * cosA a)
                                (vz p)) g.

Definition setIndex (g : BufferGeometry) (idx : list nat) : BufferGeometry :=
{| position := position g; index := Some idx |}.

End THREE.
Import THREE.

(** ** Helpers of the program built on the primitives *)

Definition trimBufferGeometryToOrigin (geometry : BufferGeometry) : BufferGeometry :=
  match setFromBufferAttribute (position geometry) with
  | Some bbox =>
      translate geometry (- vx (box_min bbox)) (- vy (box_min bbox)) (- vz (box_min bbox))
  | None => geometry
  end.

Definition rotateZWithTrim (geometry : BufferGeometry) (angle : Angle) : BufferGeometry :=
  trimBufferGeometryToOrigin (rotateZ geometry angle).

Inductive Axis : Type := AxisX | AxisY | AxisZ.

Definition flipGeometryWithTrim (geometry : BufferGeometry) (axis : Axis) : BufferGeometry :=
  let flipped :=
    mapPosition (fun p =>
      match axis with
      | AxisX => mkVector3 (- vx p) (vy p) (vz p)
      | AxisY => mkVector3 (vx p) (- vy p) (vz p)
      | AxisZ => mkVector3 (vx p) (vy p) (- vz p)
      end) geometry in
  (* geometry.setIndex(Array.from(geometry.index?.array || []).reverse()) *)
  let reindexed := setIndex flipped (rev (default [] (index flipped))) in
  trimBufferGeometryToOrigin reindexed.

(** With rational coordinates none of the checks of [validateGeometry] can
    fire (a NaN in the position array, a NaN radius of the bounding
    sphere), and the position attribute is always there.  The program
    gets a NaN from a division by zero or from the infinite box of a
    geometry without vertices; a statement that the program returns
    where it could meet one excludes both by hypothesis. *)
Definition validateGeometry (geometry : BufferGeometry) (context : string) : outcome unit :=
  Returned tt.

(** ** The data of the pipeline *)

Record Subparts : Type := mkSubparts {
  bottomCorner2W : BufferGeometry;
  topCorner2W : BufferGeometry;
  bottomCorner1WRightNear : BufferGeometry;
  bottomCorner1WLeftFar : BufferGeometry;
  topCorner1W : BufferGeometry;
  bottomCorner0W : BufferGeometry;
  sideTopEdges : BufferGeometry;
  sideBottomEdges : BufferGeometry;
  sideEdge2W : BufferGeometry;
  sideWall : BufferGeometry;
  bottomFloor : BufferGeometry;
  bottomEdge0W : BufferGeometry
}.

(** [Object.entries(parts)]: the subparts with their names, in the order
    of the fields. *)
Definition entries (parts : Subparts) : list (string * BufferGeometry) :=
  [ ("bottomCorner2W", bottomCorner2W parts); ("topCorner2W", topCorner2W parts);
    ("bottomCorner1WRightNear", bottomCorner1WRightNear parts);
    ("bottomCorner1WLeftFar", bottomCorner1WLeftFar parts);
    ("topCorner1W", topCorner1W parts); ("bottomCorner0W", bottomCorner0W parts);
    ("sideTopEdges", sideTopEdges parts); ("sideBottomEdges", sideBottomEdges parts);
    ("sideEdge2W", sideEdge2W parts); ("sideWall", sideWall parts);
    ("bottomFloor", bottomFloor parts); ("bottomEdge0W", bottomEdge0W parts) ].

(** [Object.entries(parts).forEach(([name, geometry]) =>
    validateGeometry(geometry, prefix + name))] *)
Definition validateAll (parts : Subparts) (prefix : string) : outcome unit :=
  foldl (fun acc entry => acc;; validateGeometry (snd entry) (prefix +:+ fst entry))
        (Returned tt) (entries parts).

Record GridResult : Type := mkGridResult {
  geometry : BufferGeometry;
  sizeX : Q;
  sizeY : Q;
  sizeZ : Q
}.

Record GridifierOptions : Type := mkOptions {
  inputGrids : Q * Q;
  inputCornerRadius : Q;
  height : Q;
  outputGrids : Q * Q;
  outputGridSize : option Q;
  dividerThickness : option Q;
  unionAll : option bool;
  debug : option bool
}.

(** The subpart a placed piece was cloned from.  The program's list holds
    bare geometries; the name is carried along so that pieces can be counted
    by kind. *)
Inductive PartName : Type :=
| BottomCorner2W | TopCorner2W | BottomCorner1WRightNear | BottomCorner1WLeftFar
| TopCorner1W | BottomCorner0W | SideTopEdges | SideBottomEdges | SideEdge2W
| SideWall | BottomFloor | BottomEdge0W.

#[global] Instance PartName_eq_dec : EqDecision PartName.
Proof. solve_decision. Defined.

Definition Placed : Type := PartName * BufferGeometry.

(** ** Grid reassembly: the placement loops of [reassemble] *)

Section Placement.

Variable subparts : Subparts.
Variable gridResult : GridResult.
Variables cornerCuttingRadius height rows cols : Q.

Definition containerSizeX : Q := sizeX gridResult * cols.
Definition containerSizeY : Q := sizeY gridResult * rows.
Definition containerSizeZ : Q := height.

(** One turn of [for (let i = 0; i < 4; i++)]. *)
Definition outerCorner (i : nat) : list Placed :=
  let bottomCorner2W := rotateZWithTrim (bottomCorner2W subparts) (quarterTurns (Z.of_nat i)) in
  let topCorner2W := rotateZWithTrim (topCorner2W subparts) (quarterTurns (Z.of_nat i)) in
  let topZposition := containerSizeZ - cornerCuttingRadius in
  let sideEdge2W :=
    scale (sideEdge2W subparts) 1 1
      ((containerSizeZ - 2 * cornerCuttingRadius) / vz (bbMax (sideEdge2W subparts))) in
  let sideEdge2W := rotateZWithTrim sideEdge2W (quarterTurns (Z.of_nat i)) in
  let sideEdge2WZposition := vz (bbMax bottomCorner2W) in
  let at_ (dx dy : Q) : list Placed :=
    [ (BottomCorner2W, translate bottomCorner2W dx dy 0);
      (TopCorner2W, translate topCorner2W dx dy topZposition);
      (SideEdge2W, translate sideEdge2W dx dy sideEdge2WZposition) ] in
  match i with
  | 0%nat => at_ 0 0
  | 1%nat => at_ (containerSizeX - cornerCuttingRadius) 0
  | 2%nat => at_ (containerSizeX - cornerCuttingRadius) (containerSizeY - cornerCuttingRadius)
  | 3%nat => at_ 0 (containerSizeY - cornerCuttingRadius)
  | _ => [ (BottomCorner2W, bottomCorner2W); (TopCorner2W, topCorner2W);
           (SideEdge2W, sideEdge2W) ]
  end.

Definition xIterations : Z := Math_round (containerSizeX / sizeX gridResult).
Definition yIterations : Z := Math_round (containerSizeY / sizeY gridResult).

(** One turn of the loop over the near and far edges. *)
Definition nearFarEdge (j : nat) : list Placed :=
  let sideBottomEdge := sideBottomEdges subparts in
  let sideBottomEdgeFar := rotateZWithTrim sideBottomEdge PI in
  let sideBottomEdge :=
    translate sideBottomEdge (ofNat j * sizeX gridResult + cornerCuttingRadius) 0 0 in
  let sideBottomEdgeFar :=
    translate sideBottomEdgeFar (ofNat j * sizeX gridResult + cornerCuttingRadius)
      (containerSizeY - cornerCuttingRadius) 0 in
  let corner1WNearLeft := bottomCorner1WRightNear subparts in
  let corner1WNearRight := flipGeometryWithTrim corner1WNearLeft AxisX in
  let corner1WFarLeft := rotateZWithTrim corner1WNearRight PI in
  let corner1WFarRight := rotateZWithTrim corner1WNearLeft PI in
  [ (SideBottomEdges, sideBottomEdge); (SideBottomEdges, sideBottomEdgeFar) ] ++
  (if (0 <? j)%nat then
     [ (BottomCorner1WRightNear,
        translate corner1WNearLeft (ofNat j * sizeX gridResult - cornerCuttingRadius) 0 0);
       (BottomCorner1WRightNear,
        translate corner1WNearRight (ofNat j * sizeX gridResult) 0 0);
       (BottomCorner1WRightNear,
        translate corner1WFarLeft (ofNat j * sizeX gridResult - cornerCuttingRadius)
          (containerSizeY - cornerCuttingRadius) 0);
       (BottomCorner1WRightNear,
        translate corner1WFarRight (ofNat j * sizeX gridResult)
          (containerSizeY - cornerCuttingRadius) 0) ]
   else []).

(** One turn of the loop over the left and right edges. *)
Definition leftRightEdge (j : nat) : list Placed :=
  let sideBottomLeftEdge := rotateZWithTrim (sideBottomEdges subparts) (quarterTurns (-1)) in
  let sideBottomRightEdge := rotateZWithTrim sideBottomLeftEdge PI in
  let sideBottomLeftEdge :=
    translate sideBottomLeftEdge 0 (ofNat j * sizeY gridResult + cornerCuttingRadius) 0 in
  let sideBottomRightEdge :=
    translate sideBottomRightEdge (containerSizeX - cornerCuttingRadius)
      (ofNat j * sizeY gridResult + cornerCuttingRadius) 0 in
  let cornerLeft1WNear := bottomCorner1WLeftFar subparts in
  let cornerLeft1WFar := flipGeometryWithTrim cornerLeft1WNear AxisY in
  let cornerRight1WNear := trimBufferGeometryToOrigin (rotateZ cornerLeft1WFar PI) in
  let cornerRight1WFar := trimBufferGeometryToOrigin (rotateZ cornerLeft1WNear PI) in
  [ (SideBottomEdges, sideBottomLeftEdge); (SideBottomEdges, sideBottomRightEdge) ] ++
  (if (0 <? j)%nat then
     [ (BottomCorner1WLeftFar,
        translate cornerLeft1WNear 0 (ofNat j * sizeY gridResult - cornerCuttingRadius) 0);
       (BottomCorner1WLeftFar,
        translate cornerLeft1WFar 0 (ofNat j * sizeY gridResult) 0);
       (BottomCorner1WLeftFar,
        translate cornerRight1WNear (containerSizeX - cornerCuttingRadius)
          (ofNat j * sizeY gridResult - cornerCuttingRadius) 0);
       (BottomCorner1WLeftFar,
        translate cornerRight1WFar (containerSizeX - cornerCuttingRadius)
          (ofNat j * sizeY gridResult) 0) ]
   else []).

(** The body of the double loop over the cells. *)
Definition interiorCell (x y : nat) : list Placed :=
  let X := ofNat x * sizeX gridResult in
  let Y := ofNat y * sizeY gridResult in
  [ (BottomFloor,
     translate (bottomFloor subparts) (X + cornerCuttingRadius) (Y + cornerCuttingRadius) 0) ] ++
  (if (0 <? y)%nat then
     let bottomEdge0WLeftNear := rotateZWithTrim (bottomEdge0W subparts) (quarterTurns 1) in
     let bottomEdge0WLeftFar := rotateZWithTrim (bottomEdge0W subparts) (quarterTurns (-1)) in
     let bottomEdge0WLeftFar := translate bottomEdge0WLeftFar (X + cornerCuttingRadius) Y 0 in
     let bottomEdge0WLeftNear :=
       translate bottomEdge0WLeftNear (X + cornerCuttingRadius) (Y - cornerCuttingRadius) 0 in
     [ (BottomEdge0W, bottomEdge0WLeftNear); (BottomEdge0W, bottomEdge0WLeftFar) ]
   else []) ++
  (if (0 <? x)%nat then
     let bottomEdge0WNearLeft := bottomEdge0W subparts in
     let bottomEdge0WNearRight := rotateZWithTrim bottomEdge0WNearLeft PI in
     [ (BottomEdge0W,
        translate bottomEdge0WNearLeft (X - cornerCuttingRadius) (Y + cornerCuttingRadius) 0);
       (BottomEdge0W,
        translate bottomEdge0WNearRight X (Y + cornerCuttingRadius) 0) ]
   else []) ++
  (if (0 <? x)%nat && (0 <? y)%nat then
     let bottomCorner0WLeftNear := bottomCorner0W subparts in
     let bottomCorner0WLeftFar := rotateZWithTrim bottomCorner0WLeftNear (quarterTurns (-1)) in
     let bottomCorner0WRightFar := rotateZWithTrim bottomCorner0WLeftNear PI in
     let bottomCorner0WRightNear := rotateZWithTrim bottomCorner0WLeftNear (quarterTurns 1) in
     [ (BottomCorner0W,
        translate bottomCorner0WLeftNear (X - cornerCuttingRadius) (Y - cornerCuttingRadius) 0);
       (BottomCorner0W, translate bottomCorner0WLeftFar (X - cornerCuttingRadius) Y 0);
       (BottomCorner0W, translate bottomCorner0WRightFar X Y 0);
       (BottomCorner0W, translate bottomCorner0WRightNear X (Y - cornerCuttingRadius) 0) ]
   else []).

(** The side walls and their top edges. *)
Definition nearSideWall : BufferGeometry :=
  let nearSideWall := sideWall subparts in
  let nearSideWall :=
    scale nearSideWall
      ((containerSizeX - 2 * cornerCuttingRadius) / vx (bbMax nearSideWall)) 1
      ((height - 2 * cornerCuttingRadius) / vz (bbMax nearSideWall)) in
  let nearSideWall := trimBufferGeometryToOrigin nearSideWall in
  translate nearSideWall cornerCuttingRadius 0 cornerCuttingRadius.

Definition farSideWall : BufferGeometry :=
  let farSideWall := rotateZWithTrim nearSideWall PI in
  translate farSideWall cornerCuttingRadius (containerSizeY - vy (bbMax farSideWall))
    cornerCuttingRadius.

Definition nearSideTopEdge : BufferGeometry :=
  let nearSideTopEdge := sideTopEdges subparts in
  let nearSideTopEdge :=
    scale nearSideTopEdge
      ((containerSizeX - 2 * cornerCuttingRadius) / vx (bbMax nearSideTopEdge)) 1 1 in
  let nearSideTopEdge := trimBufferGeometryToOrigin nearSideTopEdge in
  translate nearSideTopEdge cornerCuttingRadius 0 (containerSizeZ - cornerCuttingRadius).

Definition farSideTopEdge : BufferGeometry :=
  let farSideTopEdge := rotateZWithTrim nearSideTopEdge PI in
  translate farSideTopEdge cornerCuttingRadius (containerSizeY - vy (bbMax farSideTopEdge))
    (containerSizeZ - cornerCuttingRadius).

Definition leftSideWall : BufferGeometry :=
  let leftSideWall := rotateZWithTrim (sideWall subparts) (quarterTurns (-1)) in
  let leftSideWall :=
    scale leftSideWall 1
      ((containerSizeY - 2 * cornerCuttingRadius) / vy (bbMax leftSideWall))
      ((height - 2 * cornerCuttingRadius + OVERLAP_THICKNESS) / vz (bbMax leftSideWall)) in
  let leftSideWall := trimBufferGeometryToOrigin leftSideWall in
  translate leftSideWall 0 cornerCuttingRadius cornerCuttingRadius.

Definition rightSideWall : BufferGeometry :=
  let rightSideWall := rotateZWithTrim leftSideWall PI in
  translate rightSideWall (containerSizeX - vx (bbMax rightSideWall)) cornerCuttingRadius
    cornerCuttingRadius.

Definition leftSideTopEdge : BufferGeometry :=
  let leftSideTopEdge := rotateZWithTrim (sideTopEdges subparts) (quarterTurns (-1)) in
  let leftSideTopEdge :=
    scale leftSideTopEdge 1
      ((containerSizeY - 2 * cornerCuttingRadius) / vy (bbMax leftSideTopEdge)) 1 in
  let leftSideTopEdge := trimBufferGeometryToOrigin leftSideTopEdge in
  translate leftSideTopEdge 0 cornerCuttingRadius (containerSizeZ - cornerCuttingRadius).

Definition rightSideTopEdge : BufferGeometry :=
  let rightSideTopEdge := rotateZWithTrim leftSideTopEdge PI in
  translate rightSideTopEdge (containerSizeX - vx (bbMax rightSideTopEdge))
    cornerCuttingRadius (containerSizeZ - cornerCuttingRadius).

Definition sideWalls : list Placed :=
  [ (SideWall, nearSideWall); (SideWall, farSideWall);
    (SideTopEdges, nearSideTopEdge); (SideTopEdges, farSideTopEdge);
    (SideWall, leftSideWall); (SideWall, rightSideWall);
    (SideTopEdges, leftSideTopEdge); (SideTopEdges, rightSideTopEdge) ].

(** A counting loop [for (let j = 0; j < n; j++)] with [n] a number. *)
Definition upto (n : Z) : list nat := seq 0 (Z.to_nat n).

(** The pieces in the order in which [reassemble] pushes them. *)
Definition placedPieces : list Placed :=
  flat_map outerCorner (seq 0 4) ++
  flat_map nearFarEdge (upto xIterations) ++
  flat_map leftRightEdge (upto yIterations) ++
  flat_map (fun x => flat_map (fun y => interiorCell x y) (upto yIterations))
    (upto xIterations) ++
  sideWalls.

(** The array [geometries] when the placement is over. *)
Definition geometries : list BufferGeometry := map snd placedPieces.

End Placement.

(** The number of placed pieces that came from a given subpart. *)
Definition countPart (name : PartName) (pieces : list Placed) : nat :=
  length (filter (fun p => bool_decide (fst p = name)) pieces).

(** ** Mesh repair: the pure parts *)

(** The triangles visited by [for (let i = 0; i < indices.length - 2; i += 3)]:
    whole triples, a trailing index or two are never looked at. *)
Fixpoint triangles (indices : list nat) : list (nat * nat * nat) :=
  match indices with
  | a :: b :: c :: rest => (a, b, c) :: triangles rest
  | _ => []
  end.

(** Triangles written back as a flat index array. *)
Definition flatten (ts : list (nat * nat * nat)) : list nat :=
  flat_map (fun t => let '(a, b, c) := t in [a; b; c]) ts.

(** [geometry.index.count / 3]; a geometry without index has none to count. *)
Definition triangleCount (g : BufferGeometry) : nat :=
  match index g with
  | Some indices => length (triangles indices)
  | None => 0%nat
  end.

(** [Array.prototype.sort] without a comparator orders the elements by their
    string forms. *)
Definition numberToString (n : nat) : string := pretty n.

Definition sortsBefore (a b : nat) : bool :=
  String.leb (numberToString a) (numberToString b).

Fixpoint insertSorted (a : nat) (l : list nat) : list nat :=
  match l with
  | [] => [a]
  | b :: rest => if sortsBefore a b then a :: l else b :: insertSorted a rest
  end.

Definition Array_sort (l : list nat) : list nat := foldr insertSorted [] l.

(** [[a, b, c].sort().join(',')] *)
Definition faceKey (t : nat * nat * nat) : string :=
  let '(a, b, c) := t in
  String.concat "," (map numberToString (Array_sort [a; b; c])).

(** The loop of [removeDuplicateFaces], threading the set [uniqueFaces]; the
    result is [newIndices]. *)
Fixpoint uniqueFaceIndices (uniqueFaces : gset string) (ts : list (nat * nat * nat))
  : list nat :=
  match ts with
  | [] => []
  | (a, b, c) :: rest =>
      let key := faceKey (a, b, c) in
      if decide (key ∈ uniqueFaces) then uniqueFaceIndices uniqueFaces rest
      else [a; b; c] ++ uniqueFaceIndices ({[key]} ∪ uniqueFaces) rest
  end.

Definition removeDuplicateFaces (geometry : BufferGeometry) : BufferGeometry :=
  match index geometry with
  | None => geometry
  | Some indices => setIndex geometry (uniqueFaceIndices ∅ (triangles indices))
  end.

(** A JavaScript [Set] of numbers iterates in insertion order. *)
Definition Set_add (v : nat) (s : list nat) : list nat :=
  if decide (v ∈ s) then s else s ++ [v].

(** Two triangles are duplicates of each other when their keys agree. *)
Definition hasDuplicateFaces (g : BufferGeometry) : bool :=
  match index g with
  | Some indices => negb (bool_decide (NoDup (map faceKey (triangles indices))))
  | None => false
  end.

(** *** [hasNonManifoldEdges] *)

(** An element read from [indices]; past the end the read gives
    [undefined], here [None]. *)
Definition indexText (i : option nat) : string :=
  match i with
  | Some n => numberToString n
  | None => "undefined"
  end.

(** The key built by [addEdge]: the two ends are swapped when [i2 < i1],
    which is false when an end is [undefined]. *)
Definition edgeKey (i1 i2 : option nat) : string :=
  let '(i1, i2) :=
    match i1, i2 with
    | Some n1, Some n2 => if (n2 <? n1)%nat then (i2, i1) else (i1, i2)
    | _, _ => (i1, i2)
    end in
  indexText i1 +:+ "_" +:+ indexText i2.

Definition addEdge (i1 i2 : option nat) (edgeCount : gmap string nat) : gmap string nat :=
  let key := edgeKey i1 i2 in
  <[key := (default 0 (edgeCount !! key) + 1)%nat]> edgeCount.

Definition addTriangle (a b c : option nat) (edgeCount : gmap string nat) : gmap string nat :=
  addEdge c a (addEdge b c (addEdge a b edgeCount)).

(** The loop [for (let i = 0; i < indices.length; i += 3)]: the last turn
    reads past the end when the length is not a multiple of three. *)
Fixpoint countEdges (indices : list nat) (edgeCount : gmap string nat) : gmap string nat :=
  match indices with
  | a :: b :: c :: rest => countEdges rest (addTriangle (Some a) (Some b) (Some c) edgeCount)
  | [a; b] => addTriangle (Some a) (Some b) None edgeCount
  | [a] => addTriangle (Some a) None None edgeCount
  | [] => edgeCount
  end.

(** The last loop returns true at the first count that is not 2; the order
    in which the keys are visited does not change the answer. *)
Definition hasNonManifoldEdges (geometry : BufferGeometry) : bool :=
  let indices :=
    match index geometry with
    | Some indices => indices
    | None => seq 0 (length (position geometry))
    end in
  let edgeCount := countEdges indices ∅ in
  existsb (fun entry => (2 <? snd entry)%nat || (snd entry <? 2)%nat) (map_to_list edgeCount).

(** ** The program over its collaborators *)

Inductive Operation : Type := INTERSECTION | ADDITION.

Section Program.

(** [Math.sqrt]. *)
Variable Math_sqrt : Q -> Q.
(** [BufferGeometryUtils.mergeVertices(geometry, tolerance)]; the tolerance
    is optional. *)
Variable mergeVertices : BufferGeometry -> option Q -> BufferGeometry.
(** [BufferGeometryUtils.mergeGeometries(geometries, useGroups)]; [None]
    is the [null] it returns when the buffers do not fit together. *)
Variable mergeGeometries : list BufferGeometry -> bool -> option BufferGeometry.
(** [new Evaluator().evaluate(brush1, brush2, operation).geometry]. *)
Variable evaluate : BufferGeometry -> BufferGeometry -> Operation -> BufferGeometry.
(** [new THREE.BoxGeometry(width, height, depth)], centred at the origin. *)
Variable BoxGeometry : Q -> Q -> Q -> BufferGeometry.
(** [isDebug()]: whether the directory [./debug] exists. *)
Variable isDebug : bool.

(** *** Degenerate triangles *)

Definition triangleArea (ax ay az bx by_ bz cx cy cz : Q) : Q :=
  let ABx := bx - ax in let ABy := by_ - ay in let ABz := bz - az in
  let ACx := cx - ax in let ACy := cy - ay in let ACz := cz - az in
  let crossX := ABy * ACz - ABz * ACy in
  let crossY := ABz * ACx - ABx * ACz in
  let crossZ := ABx * ACy - ABy * ACx in
  (1 # 2) * Math_sqrt (crossX * crossX + crossY * crossY + crossZ * crossZ).

(** [area > MIN_TRIANGLE_AREA].  A vertex index outside the position
    buffer reads [undefined], the area is then NaN and the comparison
    false. *)
Definition isNonDegenerate (positions : list Vector3) (t : nat * nat * nat) : bool :=
  let '(a, b, c) := t in
  match positions !! a, positions !! b, positions !! c with
  | Some pa, Some pb, Some pc =>
      let area := triangleArea (vx pa) (vy pa) (vz pa) (vx pb) (vy pb) (vz pb)
                               (vx pc) (vy pc) (vz pc) in
      Qltb MIN_TRIANGLE_AREA area
  | _, _, _ => false
  end.

(** Some triangle of the geometry fails the area test. *)
Definition hasDegenerateTriangles (g : BufferGeometry) : bool :=
  match index g with
  | Some indices =>
      existsb (fun t => negb (isNonDegenerate (position g) t)) (triangles indices)
  | None => false
  end.

(** [oldToNewIndex], filled while walking [usedVertices]. *)
Definition indexMapping (usedVertices : list nat) : gmap nat nat :=
  fst (foldl (fun '(oldToNewIndex, nextIndex) oldIndex =>
                (<[oldIndex := nextIndex]> oldToNewIndex, S nextIndex))
             (∅, 0%nat) usedVertices).

Definition removeDegenerateTriangles (geometry : BufferGeometry) : outcome BufferGeometry :=
  let geometry :=
    match index geometry with
    | Some _ => geometry
    | None => mergeVertices geometry None
    end in
  match index geometry with
  | None => Thrown "TypeError: Cannot read properties of null (reading 'array')"
  | Some indices =>
      let positions := position geometry in
      let newIndices := flatten (filter (isNonDegenerate positions) (triangles indices)) in
      let usedVertices := foldl (fun s v => Set_add v s) [] newIndices in
      let newPositions := map (fun oldIndex => default origin (positions !! oldIndex))
                              usedVertices in
      let oldToNewIndex := indexMapping usedVertices in
      let remappedIndices :=
        map (fun oldIndex => default 0%nat (oldToNewIndex !! oldIndex)) newIndices in
      Returned {| position := newPositions; index := Some remappedIndices |}
  end.

(** *** The repair loop *)

(** The [do { ... } while (true)] of [fixNonManifoldGeometry], on the
    variable [output]. *)
Fixpoint repairLoop (fuel : nat) (output : BufferGeometry) : outcome BufferGeometry :=
  match fuel with
  | O => OutOfFuel
  | S fuel' =>
      let verticesLengthBegin := positionArrayLength output in
      let output := mergeVertices output (Some MERGE_VERTICES_TOLERANCE) in
      let output := removeDuplicateFaces output in
      output ← removeDegenerateTriangles output;
      let output := mergeVertices output (Some MERGE_VERTICES_TOLERANCE) in
      let verticesLengthAfter := positionArrayLength output in
      if decide (verticesLengthAfter = verticesLengthBegin) then Returned output
      else repairLoop fuel' output
  end.

(** The function ends with [return geometry]: the parameter, not [output]. *)
Definition fixNonManifoldGeometry (fuel : nat) (geometry : BufferGeometry)
  : outcome BufferGeometry :=
  output ← repairLoop fuel geometry;
  Returned geometry.

(** *** Boolean cuts *)

Definition makeBoxMesh (xMin xMax yMin yMax zMin zMax : Q) : BufferGeometry :=
  let sizeX := xMax - xMin + OVERLAP_THICKNESS in
  let sizeY := yMax - yMin + OVERLAP_THICKNESS in
  let sizeZ := zMax - zMin + OVERLAP_THICKNESS in
  let boxGeom := BoxGeometry sizeX sizeY sizeZ in
  translate boxGeom
    (xMin - OVERLAP_THICKNESS / 2 + sizeX / 2)
    (yMin - OVERLAP_THICKNESS / 2 + sizeY / 2)
    (zMin - OVERLAP_THICKNESS / 2 + sizeZ / 2).

(** Returns the argument as the call leaves it (moved to the origin, given
    an index when it had none) and the cut. *)
Definition cutByMeshBox (geometry meshBox : BufferGeometry)
  : BufferGeometry * BufferGeometry :=
  let geometry := trimBufferGeometryToOrigin geometry in
  let geometry :=
    match index geometry with
    | Some _ => geometry
    | None => setIndex geometry (seq 0 (length (position geometry)))
    end in
  let geometry2 := evaluate geometry meshBox INTERSECTION in
  let geometry2 := mergeVertices geometry2 (Some MERGE_VERTICES_TOLERANCE) in
  (geometry, geometry2).

Definition unionTwo (a b : BufferGeometry) : BufferGeometry := evaluate a b ADDITION.

Definition unionAllGeometry (geoms : list BufferGeometry) : outcome BufferGeometry :=
  match geoms with
  | [] => Thrown "No geometry to union"
  | first :: rest => Returned (foldl unionTwo first rest)
  end.

(** *** Cell extraction *)

(** Returns [baseGeom] as the call leaves it, and the result. *)
Definition cutToGrid (baseGeom : BufferGeometry) (n m : Q)
  : BufferGeometry * outcome GridResult :=
  if Qltb n 2 || Qltb m 2 then (baseGeom, Thrown "Grid size must be at least 2x2")
  else
    let baseGeom := trimBufferGeometryToOrigin baseGeom in
    match validateGeometry baseGeom "cutToGrid input" with
    | Returned _ =>
        let bbmin := bbMin baseGeom in
        let bbmax := bbMax baseGeom in
        let sizeX := vx bbmax - vx bbmin in
        let sizeY := vy bbmax - vy bbmin in
        let sizeZ := vz bbmax - vz bbmin in
        let gridSizeX := sizeX / n in
        let gridSizeY := sizeY / m in
        let '(baseGeom, cornerPart) :=
          cutByMeshBox baseGeom
            (makeBoxMesh (vx bbmin) (vx bbmin + gridSizeX) (vy bbmin) (vy bbmin + gridSizeY)
                         (vz bbmin) (vz bbmin + sizeZ)) in
        let cornerPart := trimBufferGeometryToOrigin cornerPart in
        (baseGeom,
         Returned {| geometry := cornerPart; sizeX := gridSizeX; sizeY := gridSizeY;
                     sizeZ := sizeZ |})
    | Thrown e => (baseGeom, Thrown e)
    | OutOfFuel => (baseGeom, OutOfFuel)
    end.

(** *** Part decomposition *)

(** [cutByMeshBox(baseGeom.clone(), box)]: the clone absorbs the changes
    the call makes to its first argument. *)
Definition cutClone (baseGeom box : BufferGeometry) : BufferGeometry :=
  snd (cutByMeshBox baseGeom box).

Definition cutToParts (baseGeom : BufferGeometry) (cornerRadius : Q) : outcome Subparts :=
  validateGeometry baseGeom "cutToParts input";;
  let bbmin := bbMin baseGeom in
  let bbmax := bbMax baseGeom in
  let sizeX := vx bbmax - vx bbmin in
  let sizeY := vy bbmax - vy bbmin in
  let sizeZ := vz bbmax - vz bbmin in
  let x0 := vx bbmin in let y0 := vy bbmin in let z0 := vz bbmin in
  let bottomCorner2WMesh :=
    cutClone baseGeom (makeBoxMesh x0 (x0 + cornerRadius) y0 (y0 + cornerRadius)
                                   z0 (z0 + cornerRadius)) in
  let topCorner2WMesh :=
    cutClone baseGeom (makeBoxMesh x0 (x0 + cornerRadius) y0 (y0 + cornerRadius)
                                   (z0 + sizeZ - cornerRadius) (z0 + sizeZ)) in
  let bottomCorner1WRightMesh :=
    cutClone baseGeom (makeBoxMesh (x0 + sizeX - cornerRadius) (x0 + sizeX)
                                   y0 (y0 + cornerRadius) z0 (z0 + cornerRadius)) in
  let bottomCorner1WLeftMesh :=
    cutClone baseGeom (makeBoxMesh x0 (x0 + cornerRadius)
                                   (y0 + sizeY - cornerRadius) (y0 + sizeY)
                                   z0 (z0 + cornerRadius)) in
  let topCorner1WMesh :=
    cutClone baseGeom (makeBoxMesh (x0 + sizeX - cornerRadius) (x0 + sizeX)
                                   y0 (y0 + cornerRadius)
                                   (z0 + sizeZ - cornerRadius) (z0 + sizeZ)) in
  let bottomCorner0WMesh :=
    cutClone baseGeom (makeBoxMesh (x0 + sizeX - cornerRadius) (x0 + sizeX)
                                   (y0 + sizeY - cornerRadius) (y0 + sizeY)
                                   z0 (z0 + cornerRadius)) in
  let sideTopEdgesMesh :=
    cutClone baseGeom (makeBoxMesh (x0 + cornerRadius) (x0 + sizeX - cornerRadius)
                                   y0 (y0 + cornerRadius)
                                   (z0 + sizeZ - cornerRadius) (z0 + sizeZ)) in
  let sideBottomEdgesMesh :=
    cutClone baseGeom (makeBoxMesh (x0 + cornerRadius) (x0 + sizeX - cornerRadius)
                                   y0 (y0 + cornerRadius) z0 (z0 + cornerRadius)) in
  let sideEdge2WMesh :=
    cutClone baseGeom (makeBoxMesh x0 (x0 + cornerRadius) y0 (y0 + cornerRadius)
                                   (z0 + cornerRadius) (z0 + sizeZ - cornerRadius)) in
  let sideWallMesh :=
    cutClone baseGeom (makeBoxMesh (x0 + cornerRadius) (x0 + sizeX - cornerRadius)
                                   y0 (y0 + cornerRadius)
                                   (z0 + cornerRadius) (z0 + sizeZ - cornerRadius)) in
  let bottomFloorMesh :=
    cutClone baseGeom (makeBoxMesh (x0 + cornerRadius) (x0 + sizeX - cornerRadius)
                                   (y0 + cornerRadius) (y0 + sizeY - cornerRadius)
                                   z0 (z0 + cornerRadius)) in
  let bottomEdge0WMesh :=
    cutClone baseGeom (makeBoxMesh (x0 + sizeX - cornerRadius) (x0 + sizeX)
                                   (y0 + cornerRadius) (y0 + sizeY - cornerRadius)
                                   z0 (z0 + cornerRadius)) in
  let parts :=
    {| bottomCorner2W := trimBufferGeometryToOrigin bottomCorner2WMesh;
       topCorner2W := trimBufferGeometryToOrigin topCorner2WMesh;
       bottomCorner1WRightNear := trimBufferGeometryToOrigin bottomCorner1WRightMesh;
       bottomCorner1WLeftFar := trimBufferGeometryToOrigin bottomCorner1WLeftMesh;
       topCorner1W := trimBufferGeometryToOrigin topCorner1WMesh;
       bottomCorner0W := trimBufferGeometryToOrigin bottomCorner0WMesh;
       sideTopEdges := trimBufferGeometryToOrigin sideTopEdgesMesh;
       sideBottomEdges := trimBufferGeometryToOrigin sideBottomEdgesMesh;
       sideEdge2W := trimBufferGeometryToOrigin sideEdge2WMesh;
       sideWall := trimBufferGeometryToOrigin sideWallMesh;
       bottomFloor := trimBufferGeometryToOrigin bottomFloorMesh;
       bottomEdge0W := trimBufferGeometryToOrigin bottomEdge0WMesh |} in
  validateAll parts "cutToParts ";;
  Returned parts.

(** *** Reassembly *)

(** Truthiness of an optional flag. *)
Definition truthy (flag : option bool) : bool := default false flag.

(** [dividerThickness] is only ever passed to [debugLog]. *)
Definition reassemble (fuel : nat) (subparts : Subparts) (gridResult : GridResult)
    (cornerCuttingRadius height rows cols : Q)
    (dividerThickness : option Q) (unionAll : option bool) : outcome BufferGeometry :=
  validateAll subparts "reassemble input ";;
  let geometries := geometries subparts gridResult cornerCuttingRadius height rows cols in
  if decide (length geometries = 0%nat) then Thrown "No geometries to merge"
  else
    merged ←
      (if truthy unionAll then unionAllGeometry geometries
       else match mergeGeometries geometries true with
            | Some merged => Returned merged
            | None => Thrown "Failed to merge geometries"
            end);
    fixed ← fixNonManifoldGeometry fuel merged;
    validateGeometry fixed "reassemble output";;
    Returned fixed.

(** *** The pipeline *)

(** The block of [Gridifier] under [if (outputGridSize != undefined)]: the
    cell and the corner radius handed to the decomposition. *)
Definition rescale (originalGridResult : GridResult) (inputCornerRadius : Q)
    (outputGridSize : option Q) : outcome (GridResult * Q) :=
  match outputGridSize with
  | Some outputGridSize =>
      let scale_ := outputGridSize / sizeX originalGridResult in
      let scaledGeometry := scale (geometry originalGridResult) scale_ scale_ scale_ in
      let scaledGeometry := trimBufferGeometryToOrigin scaledGeometry in
      validateGeometry scaledGeometry "cutToGrid scaled output";;
      let scaledGridResult :=
        {| geometry := scaledGeometry;
           sizeX := sizeX originalGridResult * scale_;
           sizeY := sizeY originalGridResult * scale_;
           sizeZ := sizeZ originalGridResult * scale_ |} in
      Returned (scaledGridResult, inputCornerRadius * scale_)
  | None => Returned (originalGridResult, inputCornerRadius)
  end.

(** [Gridifier] from the parsed mesh to the geometry it hands to the
    exporter.  The debug dumps write files and nothing else; the one thing
    the debug mode does to the data is the re-cut of the input by its own
    box. *)
Definition Gridifier (fuel : nat) (baseGeom : BufferGeometry) (options : GridifierOptions)
  : outcome BufferGeometry :=
  let '(n, m) := inputGrids options in
  let baseGeom :=
    if isDebug then
      let baseGeom := trimBufferGeometryToOrigin baseGeom in
      let meshBox :=
        makeBoxMesh (vx (bbMin baseGeom)) (vx (bbMax baseGeom))
                    (vy (bbMin baseGeom)) (vy (bbMax baseGeom))
                    (vz (bbMin baseGeom)) (vz (bbMax baseGeom)) in
      snd (cutByMeshBox baseGeom meshBox)
    else baseGeom in
  originalGridResult ← snd (cutToGrid baseGeom n m);
  validateGeometry (geometry originalGridResult) "cutToGrid output";;
  '(gridResult, cornerCuttingRadius) ←
    rescale originalGridResult (inputCornerRadius options) (outputGridSize options);
  subparts ← cutToParts (geometry gridResult) cornerCuttingRadius;
  let '(rows, cols) := outputGrids options in
  reassemble fuel subparts gridResult cornerCuttingRadius (height options) rows cols
    (dividerThickness options) (unionAll options).

End Program.

(** ** The command line: [parseGridSize] *)

Module CommandLine.

(** What [Number(text)] can give.  Here, where text that is not a number
    has to be told apart from a number, NaN and the infinities are part of
    the model. *)
Inductive jsNumber : Type :=
| NaN
| Num (q : Q)
| Infinity (negative : bool).

(** An array element after destructuring: a number, or [undefined] when
    the array is too short. *)
Inductive jsValue : Type :=
| Undefined
| Number_ (n : jsNumber).

(** [String.prototype.split] with a one-character separator. *)
Fixpoint split (separator : ascii) (s : string) : list string :=
  match s with
  | EmptyString => [EmptyString]
  | String c rest =>
      if Ascii.eqb c separator then EmptyString :: split separator rest
      else match split separator rest with
           | first :: others => String c first :: others
           | [] => [String c EmptyString]
           end
  end.

Definition digit (c : ascii) : option Z :=
  let n := nat_of_ascii c in
  if (48 <=? n)%nat && (n <=? 57)%nat then Some (Z.of_nat (n - 48)) else None.

(** The longest run of digits at the head: its value, its length, the rest. *)
Fixpoint digits (s : string) (value : Z) (count : nat) : Z * nat * string :=
  match s with
  | String c rest =>
      match digit c with
      | Some d => digits rest (value * 10 + d)%Z (S count)
      | None => (value, count, s)
      end
  | EmptyString => (value, count, EmptyString)
  end.

Definition isWhiteSpace (c : ascii) : bool :=
  let n := nat_of_ascii c in
  ((9 <=? n)%nat && (n <=? 13)%nat) || (n =? 32)%nat.

Fixpoint trimStart (s : string) : string :=
  match s with
  | String c rest => if isWhiteSpace c then trimStart rest else s
  | EmptyString => EmptyString
  end.

Definition trim (s : string) : string :=
  String.rev (trimStart (String.rev (trimStart s))).

(** An unsigned decimal literal: digits with an optional fraction, or the
    word Infinity. *)
Definition unsignedLiteral (s : string) : jsNumber :=
  if String.eqb s "Infinity" then Infinity false
  else
    let '(whole, wholeCount, rest) := digits s 0%Z 0%nat in
    match rest with
    | EmptyString => if (wholeCount =? 0)%nat then NaN else Num (inject_Z whole)
    | String "." fraction =>
        let '(part, partCount, rest) := digits fraction 0%Z 0%nat in
        match rest with
        | EmptyString =>
            if (wholeCount + partCount =? 0)%nat then NaN
            else Num (inject_Z whole + inject_Z part / inject_Z (10 ^ Z.of_nat partCount))
        | _ => NaN
        end
    | _ => NaN
    end.

Definition negate (n : jsNumber) : jsNumber :=
  match n with
  | NaN => NaN
  | Num q => Num (- q)
  | Infinity negative => Infinity (negb negative)
  end.

(** [Number(text)] for text without an exponent part and without a radix
    prefix: white space is trimmed, the empty string is [0], anything that
    is not a decimal literal is NaN. *)
Definition Number (text : string) : jsNumber :=
  match trim text with
  | EmptyString => Num 0
  | String "+" rest => unsignedLiteral rest
  | String "-" rest => negate (unsignedLiteral rest)
  | literal => unsignedLiteral literal
  end.

(** [value < bound]; [undefined] becomes NaN and NaN compares false. *)
Definition lessThan (value : jsValue) (bound : Q) : bool :=
  match value with
  | Number_ (Num q) => Qltb q bound
  | Number_ (Infinity negative) => negative
  | Number_ NaN => false
  | Undefined => false
  end.

Definition element (values : list jsNumber) (i : nat) : jsValue :=
  match values !! i with
  | Some n => Number_ n
  | None => Undefined
  end.

Definition parseGridSize (input : string) : outcome (jsValue * jsValue) :=
  let values := map Number (split "x" input) in
  let n := element values 0 in
  let m := element values 1 in
  if lessThan n 1 || lessThan m 1 then
    Thrown "Invalid grid size. Expected format: NxM, where N and M are positive integers."
  else Returned (n, m).

(** The form the error message of [parseGridSize] asks for: exactly two
    fields around one [x], each a run of digits that reads as an integer
    of at least 1. *)
Definition positiveInteger (s : string) : bool :=
  match digits s 0%Z 0%nat with
  | (value, count, EmptyString) => (0 <? count)%nat && (1 <=? value)%Z
  | _ => false
  end.

Definition matchesNxM (input : string) : bool :=
  match split "x" input with
  | [n; m] => positiveInteger n && positiveInteger m
  | _ => false
  end.

End CommandLine.

(** ** Stand-ins for the collaborators, and sample inputs

    The statements below hold for every collaborator (some under stated
    assumptions).  To run the program on concrete meshes one needs concrete
    ones; these are simple but honest: an engine that is exact on
    axis-aligned boxes, a welder that merges vertices falling into the same
    tolerance cell, plain buffer concatenation, and a square root correct to
    six decimal places. *)

Module Examples.

(** The box between two corners: 8 vertices, 12 triangles. *)
Definition boxBetween (lo hi : Vector3) : BufferGeometry :=
  {| position :=
       [ mkVector3 (vx lo) (vy lo) (vz lo); mkVector3 (vx hi) (vy lo) (vz lo);
         mkVector3 (vx hi) (vy hi) (vz lo); mkVector3 (vx lo) (vy hi) (vz lo);
         mkVector3 (vx lo) (vy lo) (vz hi); mkVector3 (vx hi) (vy lo) (vz hi);
         mkVector3 (vx hi) (vy hi) (vz hi); mkVector3 (vx lo) (vy hi) (vz hi) ];
     index := Some [ 0; 2; 1;  0; 3; 2;  4; 5; 6;  4; 6; 7;
                     0; 1; 5;  0; 5; 4;  2; 3; 7;  2; 7; 6;
                     0; 4; 7;  0; 7; 3;  1; 2; 6;  1; 6; 5 ]%nat |}.

Definition block (width depth tall : Q) : BufferGeometry :=
  boxBetween origin (mkVector3 width depth tall).

Definition BoxGeometry (width height depth : Q) : BufferGeometry :=
  boxBetween (mkVector3 (- (width / 2)) (- (height / 2)) (- (depth / 2)))
             (mkVector3 (width / 2) (height / 2) (depth / 2)).

Definition emptyGeometry : BufferGeometry := {| position := []; index := Some [] |}.

(** Buffer concatenation; the indices of the second operand are shifted. *)
Definition append (a b : BufferGeometry) : option BufferGeometry :=
  match index a, index b with
  | Some ia, Some ib =>
      Some {| position := position a ++ position b;
              index := Some (ia ++ map (fun i => (i + length (position a))%nat) ib) |}
  | None, None => Some {| position := position a ++ position b; index := None |}
  | _, _ => None
  end.

Definition mergeGeometries (geoms : list BufferGeometry) (useGroups : bool)
  : option BufferGeometry :=
  match geoms with
  | [] => None
  | first :: rest => foldl (fun acc g => acc ≫= fun a => append a g) (Some first) rest
  end.

(** Intersection is the box common to the boxes of the operands; addition
    puts the two buffers side by side. *)
Definition evaluate (a b : BufferGeometry) (operation : Operation) : BufferGeometry :=
  match operation with
  | INTERSECTION =>
      match boundingBox a, boundingBox b with
      | Some boxA, Some boxB =>
          let lo := mkVector3 (upper (vx (box_min boxA)) (vx (box_min boxB)))
                              (upper (vy (box_min boxA)) (vy (box_min boxB)))
                              (upper (vz (box_min boxA)) (vz (box_min boxB))) in
          let hi := mkVector3 (lower (vx (box_max boxA)) (vx (box_max boxB)))
                              (lower (vy (box_max boxA)) (vy (box_max boxB)))
                              (lower (vz (box_max boxA)) (vz (box_max boxB))) in
          if Qltb (vx lo) (vx hi) && Qltb (vy lo) (vy hi) && Qltb (vz lo) (vz hi)
          then boxBetween lo hi else emptyGeometry
      | _, _ => emptyGeometry
      end
  | ADDITION => default a (append a b)
  end.

(** The integer part, towards zero. *)
Definition truncate (q : Q) : Z := Z.quot (Qnum q) (Z.pos (Qden q)).

Definition cell (tolerance : Q) (p : Vector3) : Z * Z * Z :=
  (truncate (vx p / tolerance + (1 # 2)),
   truncate (vy p / tolerance + (1 # 2)),
   truncate (vz p / tolerance + (1 # 2))).

(** The first element of each key, in order of appearance. *)
Fixpoint firstOccurrences {A K : Type} `{EqDecision K} (key : A -> K) (seen : list K)
    (l : list A) : list A :=
  match l with
  | [] => []
  | a :: rest =>
      if decide (key a ∈ seen) then firstOccurrences key seen rest
      else a :: firstOccurrences key (key a :: seen) rest
  end.

(** The place of a key in a list of keys. *)
Fixpoint indexOf {K : Type} `{EqDecision K} (k : K) (keys : list K) : nat :=
  match keys with
  | [] => 0%nat
  | k' :: rest => if decide (k = k') then 0%nat else S (indexOf k rest)
  end.

(** Welding: the vertices the index refers to (all of them when there is
    no index), one representative per tolerance cell, and the index
    rewritten to the representatives.  An index outside the buffer reads
    as the origin. *)
Definition mergeVertices (g : BufferGeometry) (tolerance : option Q) : BufferGeometry :=
  let tolerance := default (1 # 10000) tolerance in
  let indices := default (seq 0 (length (position g))) (index g) in
  let referenced := map (fun i => default origin (position g !! i)) indices in
  let kept := firstOccurrences (cell tolerance) [] referenced in
  {| position := kept;
     index := Some (map (fun p => indexOf (cell tolerance p) (map (cell tolerance) kept))
                        referenced) |}.

(** A square root by integer square root, six decimal places. *)
Definition Math_sqrt (q : Q) : Q :=
  Z.sqrt (Qnum q * Z.pos (Qden q) * 10 ^ 12) # (Qden q * 10 ^ 6).

(** A solid of 4 by 2 cells, each 10 by 10 and 6 tall. *)
Definition solid : BufferGeometry := block 40 20 6.

(** The twelve subparts of a 10 by 10 by 6 cell cut at a radius of 2. *)
Definition parts : Subparts :=
  {| bottomCorner2W := block 2 2 2;
     topCorner2W := block 2 2 2;
     bottomCorner1WRightNear := block 2 2 2;
     bottomCorner1WLeftFar := block 2 2 2;
     topCorner1W := block 2 2 2;
     bottomCorner0W := block 2 2 2;
     sideTopEdges := block 6 2 2;
     sideBottomEdges := block 6 2 2;
     sideEdge2W := block 2 2 2;
     sideWall := block 6 2 2;
     bottomFloor := block 6 6 2;
     bottomEdge0W := block 2 6 2 |}.

Definition oneCell : GridResult :=
  {| geometry := block 10 10 6; sizeX := 10; sizeY := 10; sizeZ := 6 |}.

(** A triangle, the same triangle again from another corner, and a
    triangle without area. *)
Definition doubledTriangle : BufferGeometry :=
  {| position := [ mkVector3 0 0 0; mkVector3 1 0 0; mkVector3 0 1 0 ];
     index := Some [ 0; 1; 2;  1; 2; 0;  0; 0; 1 ]%nat |}.

(** A closed surface: the four faces of a tetrahedron. *)
Definition tetrahedron : BufferGeometry :=
  {| position := [ mkVector3 0 0 0; mkVector3 1 0 0; mkVector3 0 1 0; mkVector3 0 0 1 ];
     index := Some [ 0; 2; 1;  0; 1; 3;  1; 2; 3;  2; 0; 3 ]%nat |}.

Definition options : GridifierOptions :=
  {| inputGrids := (4, 2); inputCornerRadius := 2; height := 8; outputGrids := (2, 3);
     outputGridSize := None; dividerThickness := Some 0; unionAll := None;
     debug := None |}.

End Examples.

(** ** Measures used in the statements *)

(** The number of times a name occurs in a list of names. *)
Definition countKind (name : PartName) (kinds : list PartName) : nat :=
  length (filter (fun k => bool_decide (k = name)) kinds).

Definition coordinate (axis : Axis) (p : Vector3) : Q :=
  match axis with AxisX => vx p | AxisY => vy p | AxisZ => vz p end.

(** The size of the bounding box of a geometry along an axis. *)
Definition extent (axis : Axis) (g : BufferGeometry) : Q :=
  coordinate axis (bbMax g) - coordinate axis (bbMin g).

(** The largest and the smallest of a list of numbers, found the way
    [Box3.setFromBufferAttribute] finds them; [0] for no numbers. *)
Definition maxOf (l : list Q) : Q :=
  match l with [] => 0 | a :: rest => fold_left upper rest a end.
Definition minOf (l : list Q) : Q :=
  match l with [] => 0 | a :: rest => fold_left lower rest a end.

(** All indices of the geometry point into its position buffer. *)
Definition indicesInRange (g : BufferGeometry) : Prop :=
  match index g with
  | Some indices => Forall (fun i => (i < length (position g))%nat) indices
  | None => True
  end.


(** Two vectors, two geometries, that hold equal numbers (a rational has
    many spellings). *)
Definition sameVector (p q : Vector3) : Prop :=
  vx p == vx q /\ vy p == vy q /\ vz p == vz q.

Definition sameGeometry (g g' : BufferGeometry) : Prop :=
  Forall2 sameVector (position g) (position g') /\ index g = index g'.

(** What [flipGeometryWithTrim] does to one vertex. *)
Definition flipVector (axis : Axis) (p : Vector3) : Vector3 :=
  match axis with
  | AxisX => mkVector3 (- vx p) (vy p) (vz p)
  | AxisY => mkVector3 (vx p) (- vy p) (vz p)
  | AxisZ => mkVector3 (vx p) (vy p) (- vz p)
  end.

#[global] Instance Axis_eq_dec : EqDecision Axis.
Proof. solve_decision. Defined.

#[global] Instance indicesInRange_dec (g : BufferGeometry) : Decision (indicesInRange g).
Proof. unfold indicesInRange. destruct (index g); apply _. Defined.

(** The numbers [reassemble] divides by when it stretches a piece: the top
    of the box of the vertical edge, of the wall panel and of the wall top
    edge as they are cut, and as they are after the quarter turn that
    makes them the left wall and its top edge.  The program gets an
    infinity or a NaN from a zero here. *)
Definition divisors (subparts : Subparts) : list Q :=
  let sideWallTurned := rotateZWithTrim (sideWall subparts) (quarterTurns (-1)) in
  let sideTopEdgesTurned := rotateZWithTrim (sideTopEdges subparts) (quarterTurns (-1)) in
  [ vz (bbMax (sideEdge2W subparts));
    vx (bbMax (sideWall subparts)); vz (bbMax (sideWall subparts));
    vx (bbMax (sideTopEdges subparts));
    vy (bbMax sideWallTurned); vz (bbMax sideWallTurned);
    vy (bbMax sideTopEdgesTurned) ].

(** The keys of the edges of a list of triangles, one entry for every side
    of every triangle, and the number of times a key is in such a list. *)
Definition edgeKeys (ts : list (nat * nat * nat)) : list string :=
  flat_map (fun t => let '(a, b, c) := t in
                     [edgeKey (Some a) (Some b); edgeKey (Some b) (Some c);
                      edgeKey (Some c) (Some a)]) ts.

Definition occurrences (key : string) (keys : list string) : nat :=
  length (filter (fun k => k = key) keys).

(** Text made of decimal digits only, and text that holds the separator of
    the two fields of a grid size. *)
Fixpoint allDigits (s : string) : bool :=
  match s with
  | String c rest => match CommandLine.digit c with Some _ => allDigits rest | None => false end
  | EmptyString => true
  end.

Fixpoint hasSeparator (s : string) : bool :=
  match s with
  | String c rest => Ascii.eqb c "x" || hasSeparator rest
  | EmptyString => false
  end.

(** * Properties *)

(** ** Numbers *)

Lemma Qltb_lt (a b : Q) : Qltb a b = true <-> a < b.
Proof.
  unfold Qltb. rewrite negb_true_iff. split.
  - intros H. apply Qnot_le_lt. intros Hle. apply Qle_bool_iff in Hle. congruence.
  - intros H. destruct (Qle_bool b a) eqn:E; [|reflexivity].
    apply Qle_bool_iff in E. exfalso. exact (Qlt_not_le _ _ H E).
Qed.

Lemma Qltb_ge (a b : Q) : Qltb a b = false <-> b <= a.
Proof.
  unfold Qltb. rewrite negb_false_iff. apply Qle_bool_iff.
Qed.

Lemma Qltb_shift (a b d : Q) : Qltb (a + d) (b + d) = Qltb a b.
Proof.
  destruct (Qltb a b) eqn:E.
  - apply Qltb_lt. apply Qltb_lt in E. now apply Qplus_lt_l.
  - apply Qltb_ge. apply Qltb_ge in E. now apply Qplus_le_l.
Qed.

Lemma Qltb_stretch (a b k : Q) : 0 < k -> Qltb (a * k) (b * k) = Qltb a b.
Proof.
  intros Hk. destruct (Qltb a b) eqn:E.
  - apply Qltb_lt. apply Qltb_lt in E. now apply Qmult_lt_r.
  - apply Qltb_ge. apply Qltb_ge in E. apply Qmult_le_r; assumption.
Qed.

Lemma Math_round_integer (z : Z) (q : Q) : q == inject_Z z -> Math_round q = z.
Proof.
  intros H. unfold Math_round.
  assert (E : q + (1 # 2) == inject_Z z + (1 # 2)) by now rewrite H.
  rewrite (Qfloor_comp _ _ E).
  unfold Qfloor, Qplus, inject_Z. simpl.
  symmetry. apply Z.div_unique with (r := 1%Z); lia.
Qed.

(** The loop bound the program derives from the container size is the number
    of cells it was asked for. *)
Lemma iterations_exact (size : Q) (n : nat) :
  ~ size == 0 -> Math_round (size * ofNat n / size) = Z.of_nat n.
Proof.
  intros Hs. apply Math_round_integer. unfold ofNat. field. exact Hs.
Qed.

(** ** Counting placed pieces *)

Lemma countPart_app (name : PartName) (l1 l2 : list Placed) :
  countPart name (l1 ++ l2) = (countPart name l1 + countPart name l2)%nat.
Proof. unfold countPart. now rewrite filter_app, length_app. Qed.

Lemma countPart_flat_map {A : Type} (name : PartName) (f : A -> list Placed) (l : list A) :
  countPart name (flat_map f l) = list_sum (map (fun a => countPart name (f a)) l).
Proof.
  induction l as [|a l IH]; [reflexivity|].
  simpl. now rewrite countPart_app, IH.
Qed.

Lemma list_sum_ext {A : Type} (f g : A -> nat) (l : list A) :
  (forall a, In a l -> f a = g a) -> list_sum (map f l) = list_sum (map g l).
Proof.
  induction l as [|a l IH]; intros H; [reflexivity|].
  simpl. rewrite (H a) by now left. rewrite IH; [reflexivity|].
  intros b Hb. apply H. now right.
Qed.

Lemma list_sum_const {A : Type} (k : nat) (l : list A) :
  list_sum (map (fun _ => k) l) = (k * length l)%nat.
Proof. induction l as [|a l IH]; simpl; lia. Qed.

(** A loop that adds [k] pieces on every turn but the first. *)
Lemma list_sum_after_first (k n : nat) :
  list_sum (map (fun j => if (0 <? j)%nat then k else 0%nat) (seq 0 n)) = (k * (n - 1))%nat.
Proof.
  destruct n as [|n]; [simpl; lia|].
  simpl seq. simpl map. simpl list_sum.
  rewrite (list_sum_ext _ (fun _ => k)).
  - rewrite list_sum_const, length_seq. lia.
  - intros j Hj. apply in_seq in Hj. destruct j; [lia|reflexivity].
Qed.

Lemma upto_ofNat (n : nat) : upto (Z.of_nat n) = seq 0 n.
Proof. unfold upto. now rewrite Nat2Z.id. Qed.

Section PlacementCounts.

Variable subparts : Subparts.
Variable gridResult : GridResult.
Variables cornerCuttingRadius height rows cols : Q.

Local Abbreviation outerCorner_ := (outerCorner subparts gridResult cornerCuttingRadius height rows cols).
Local Abbreviation nearFarEdge_ := (nearFarEdge subparts gridResult cornerCuttingRadius rows).
Local Abbreviation leftRightEdge_ := (leftRightEdge subparts gridResult cornerCuttingRadius cols).
Local Abbreviation interiorCell_ := (interiorCell subparts gridResult cornerCuttingRadius).
Local Abbreviation sideWalls_ := (sideWalls subparts gridResult cornerCuttingRadius height rows cols).

(** Every turn of the corner loop pushes a bottom corner, a top corner and
    the vertical edge between them, in this order. *)
Lemma outerCorner_kinds (i : nat) :
  map fst (outerCorner_ i) = [BottomCorner2W; TopCorner2W; SideEdge2W].
Proof. do 4 (destruct i as [|i]; [reflexivity|]). reflexivity. Qed.

Lemma nearFarEdge_kinds (j : nat) :
  map fst (nearFarEdge_ j) =
  [SideBottomEdges; SideBottomEdges] ++
  (if (0 <? j)%nat then repeat BottomCorner1WRightNear 4 else []).
Proof. unfold nearFarEdge. destruct (0 <? j)%nat; reflexivity. Qed.

Lemma leftRightEdge_kinds (j : nat) :
  map fst (leftRightEdge_ j) =
  [SideBottomEdges; SideBottomEdges] ++
  (if (0 <? j)%nat then repeat BottomCorner1WLeftFar 4 else []).
Proof. unfold leftRightEdge. destruct (0 <? j)%nat; reflexivity. Qed.

Lemma interiorCell_kinds (x y : nat) :
  map fst (interiorCell_ x y) =
  [BottomFloor] ++
  (if (0 <? y)%nat then repeat BottomEdge0W 2 else []) ++
  (if (0 <? x)%nat then repeat BottomEdge0W 2 else []) ++
  (if (0 <? x)%nat && (0 <? y)%nat then repeat BottomCorner0W 4 else []).
Proof.
  unfold interiorCell. destruct (0 <? x)%nat, (0 <? y)%nat; reflexivity.
Qed.

Lemma sideWalls_kinds :
  map fst sideWalls_ =
  [SideWall; SideWall; SideTopEdges; SideTopEdges;
   SideWall; SideWall; SideTopEdges; SideTopEdges].
Proof. reflexivity. Qed.

End PlacementCounts.

(** Counting by kind only looks at the names. *)
Lemma countPart_kinds (name : PartName) (pieces : list Placed) :
  countPart name pieces = countKind name (map fst pieces).
Proof.
  unfold countPart, countKind.
  induction pieces as [|p pieces IH]; [reflexivity|].
  simpl map. rewrite !filter_cons.
  destruct (decide (bool_decide (fst p = name))); [cbn [length]; f_equal|]; exact IH.
Qed.

Lemma countKind_app (name : PartName) (l1 l2 : list PartName) :
  countKind name (l1 ++ l2) = (countKind name l1 + countKind name l2)%nat.
Proof. unfold countKind. now rewrite filter_app, length_app. Qed.

Lemma list_sum_add {A : Type} (f g : A -> nat) (l : list A) :
  list_sum (map (fun a => (f a + g a)%nat) l) = (list_sum (map f l) + list_sum (map g l))%nat.
Proof. induction l as [|a l IH]; simpl; lia. Qed.

Lemma countKind_if (name : PartName) (b : bool) (l : list PartName) :
  countKind name (if b then l else []) = if b then countKind name l else 0%nat.
Proof. now destruct b. Qed.

Section LoopCounts.

Variable subparts : Subparts.
Variable gridResult : GridResult.
Variables cornerCuttingRadius height rows cols : Q.
Variable name : PartName.

Lemma count_outerCorners :
  countPart name
    (flat_map (outerCorner subparts gridResult cornerCuttingRadius height rows cols)
              (seq 0 4)) =
  (4 * countKind name [BottomCorner2W; TopCorner2W; SideEdge2W])%nat.
Proof.
  rewrite countPart_flat_map.
  rewrite (list_sum_ext _ (fun _ => countKind name [BottomCorner2W; TopCorner2W; SideEdge2W])).
  - rewrite list_sum_const. simpl length. lia.
  - intros i _. now rewrite countPart_kinds, outerCorner_kinds.
Qed.

Lemma count_nearFarEdges (n : nat) :
  countPart name
    (flat_map (nearFarEdge subparts gridResult cornerCuttingRadius rows) (seq 0 n)) =
  (n * countKind name [SideBottomEdges; SideBottomEdges]
   + (n - 1) * countKind name (repeat BottomCorner1WRightNear 4))%nat.
Proof.
  rewrite countPart_flat_map.
  rewrite (list_sum_ext _
    (fun j => (countKind name [SideBottomEdges; SideBottomEdges]
               + (if (0 <? j)%nat then countKind name (repeat BottomCorner1WRightNear 4)
                  else 0))%nat)).
  - rewrite list_sum_add, list_sum_const, list_sum_after_first, length_seq. lia.
  - intros j _.
    now rewrite countPart_kinds, nearFarEdge_kinds, countKind_app, countKind_if.
Qed.

Lemma count_leftRightEdges (n : nat) :
  countPart name
    (flat_map (leftRightEdge subparts gridResult cornerCuttingRadius cols) (seq 0 n)) =
  (n * countKind name [SideBottomEdges; SideBottomEdges]
   + (n - 1) * countKind name (repeat BottomCorner1WLeftFar 4))%nat.
Proof.
  rewrite countPart_flat_map.
  rewrite (list_sum_ext _
    (fun j => (countKind name [SideBottomEdges; SideBottomEdges]
               + (if (0 <? j)%nat then countKind name (repeat BottomCorner1WLeftFar 4)
                  else 0))%nat)).
  - rewrite list_sum_add, list_sum_const, list_sum_after_first, length_seq. lia.
  - intros j _.
    now rewrite countPart_kinds, leftRightEdge_kinds, countKind_app, countKind_if.
Qed.

Lemma count_interiorCell (x y : nat) :
  countPart name (interiorCell subparts gridResult cornerCuttingRadius x y) =
  (countKind name [BottomFloor]
   + (if (0 <? y)%nat then countKind name (repeat BottomEdge0W 2) else 0)
   + (if (0 <? x)%nat then countKind name (repeat BottomEdge0W 2) else 0)
   + (if (0 <? x)%nat && (0 <? y)%nat then countKind name (repeat BottomCorner0W 4)
      else 0))%nat.
Proof.
  rewrite countPart_kinds, interiorCell_kinds, !countKind_app, !countKind_if. lia.
Qed.

Lemma count_interiorColumn (x m : nat) :
  countPart name
    (flat_map (fun y => interiorCell subparts gridResult cornerCuttingRadius x y) (seq 0 m)) =
  (m * countKind name [BottomFloor]
   + (m - 1) * countKind name (repeat BottomEdge0W 2)
   + (if (0 <? x)%nat
      then m * countKind name (repeat BottomEdge0W 2)
           + (m - 1) * countKind name (repeat BottomCorner0W 4)
      else 0))%nat.
Proof.
  rewrite countPart_flat_map.
  rewrite (list_sum_ext _ _ _ (fun y _ => count_interiorCell x y)).
  rewrite !list_sum_add, list_sum_const, list_sum_after_first, length_seq.
  destruct (0 <? x)%nat; simpl andb.
  - rewrite list_sum_const, list_sum_after_first, length_seq. lia.
  - rewrite !list_sum_const. lia.
Qed.

Lemma count_interior (n m : nat) :
  countPart name
    (flat_map (fun x =>
                 flat_map (fun y => interiorCell subparts gridResult cornerCuttingRadius x y)
                          (seq 0 m))
              (seq 0 n)) =
  (n * m * countKind name [BottomFloor]
   + n * (m - 1) * countKind name (repeat BottomEdge0W 2)
   + (n - 1) * m * countKind name (repeat BottomEdge0W 2)
   + (n - 1) * (m - 1) * countKind name (repeat BottomCorner0W 4))%nat.
Proof.
  rewrite countPart_flat_map.
  rewrite (list_sum_ext _ _ _ (fun x _ => count_interiorColumn x m)).
  rewrite list_sum_add, list_sum_const, list_sum_after_first, length_seq. lia.
Qed.

End LoopCounts.

(** The pieces of a grid of [R] rows and [C] columns, by kind. *)
Lemma count_placedPieces (subparts : Subparts) (gridResult : GridResult)
    (cornerCuttingRadius height : Q) (name : PartName) (R C : nat) :
  ~ sizeX gridResult == 0 -> ~ sizeY gridResult == 0 ->
  countPart name
    (placedPieces subparts gridResult cornerCuttingRadius height (ofNat R) (ofNat C)) =
  (4 * countKind name [BottomCorner2W; TopCorner2W; SideEdge2W]
   + (C * countKind name [SideBottomEdges; SideBottomEdges]
      + (C - 1) * countKind name (repeat BottomCorner1WRightNear 4))
   + (R * countKind name [SideBottomEdges; SideBottomEdges]
      + (R - 1) * countKind name (repeat BottomCorner1WLeftFar 4))
   + (C * R * countKind name [BottomFloor]
      + C * (R - 1) * countKind name (repeat BottomEdge0W 2)
      + (C - 1) * R * countKind name (repeat BottomEdge0W 2)
      + (C - 1) * (R - 1) * countKind name (repeat BottomCorner0W 4))
   + countKind name [SideWall; SideWall; SideTopEdges; SideTopEdges;
                     SideWall; SideWall; SideTopEdges; SideTopEdges])%nat.
Proof.
  intros HX HY. unfold placedPieces, xIterations, yIterations, containerSizeX, containerSizeY.
  rewrite !iterations_exact by assumption. rewrite !upto_ofNat.
  rewrite !countPart_app, count_outerCorners, count_nearFarEdges, count_leftRightEdges,
    count_interior.
  rewrite (countPart_kinds name (sideWalls _ _ _ _ _ _)), sideWalls_kinds. lia.
Qed.

(** Replaces the count of a name in a literal list of names by its value. *)
Ltac eval_counts :=
  repeat match goal with
  | |- context [countKind ?n ?l] =>
      let v := eval vm_compute in (countKind n l) in
      change (countKind n l) with v
  end.

Lemma outerCorners_kinds (subparts : Subparts) (gridResult : GridResult)
    (cornerCuttingRadius height rows cols : Q) :
  map fst (flat_map (outerCorner subparts gridResult cornerCuttingRadius height rows cols)
                    (seq 0 4)) =
  [BottomCorner2W; TopCorner2W; SideEdge2W; BottomCorner2W; TopCorner2W; SideEdge2W;
   BottomCorner2W; TopCorner2W; SideEdge2W; BottomCorner2W; TopCorner2W; SideEdge2W].
Proof.
  cbn [seq flat_map]. rewrite !map_app, !outerCorner_kinds. reflexivity.
Qed.

(** C1 (as amended).  For a cell of non-zero footprint and a grid of
    [R >= 1] rows and [C >= 1] columns, the list of placed pieces starts with
    the four outer-corner triplets (bottom corner, top corner, vertical
    edge) and holds exactly 4 pieces of each of these three kinds, exactly
    [4 * ((R - 1) + (C - 1))] one-wall corner pieces (four per seam of the
    boundary: two on either side of the container), exactly
    [4 * (R - 1) * (C - 1)] zero-wall corner pieces and exactly [R * C]
    floor panels. *)
Theorem reassemble_piece_counts (subparts : Subparts) (gridResult : GridResult)
    (cornerCuttingRadius height : Q) (R C : nat) :
  ~ sizeX gridResult == 0 -> ~ sizeY gridResult == 0 ->
  (1 <= R)%nat -> (1 <= C)%nat ->
  let pieces :=
    placedPieces subparts gridResult cornerCuttingRadius height (ofNat R) (ofNat C) in
  firstn 12 (map fst pieces) =
    [BottomCorner2W; TopCorner2W; SideEdge2W; BottomCorner2W; TopCorner2W; SideEdge2W;
     BottomCorner2W; TopCorner2W; SideEdge2W; BottomCorner2W; TopCorner2W; SideEdge2W] /\
  countPart BottomCorner2W pieces = 4%nat /\
  countPart TopCorner2W pieces = 4%nat /\
  countPart SideEdge2W pieces = 4%nat /\
  (countPart BottomCorner1WRightNear pieces + countPart BottomCorner1WLeftFar pieces
   = 4 * ((R - 1) + (C - 1)))%nat /\
  countPart BottomCorner0W pieces = (4 * (R - 1) * (C - 1))%nat /\
  countPart BottomFloor pieces = (R * C)%nat.
Proof.
  intros HX HY HR HC pieces. subst pieces. split.
  - unfold placedPieces. rewrite map_app, outerCorners_kinds. reflexivity.
  - rewrite !count_placedPieces by assumption.
    eval_counts. repeat split; lia.
Qed.

(** ** Bounding boxes under the transforms *)

Lemma fold_expand_max (axis : Axis) (rest : list Vector3) (b : Box3) :
  coordinate axis (box_max (fold_left expandByPoint rest b)) =
  fold_left upper (map (coordinate axis) rest) (coordinate axis (box_max b)).
Proof.
  revert b. induction rest as [|p rest IH]; intros b; [reflexivity|].
  simpl. rewrite IH. destruct axis; reflexivity.
Qed.

Lemma fold_expand_min (axis : Axis) (rest : list Vector3) (b : Box3) :
  coordinate axis (box_min (fold_left expandByPoint rest b)) =
  fold_left lower (map (coordinate axis) rest) (coordinate axis (box_min b)).
Proof.
  revert b. induction rest as [|p rest IH]; intros b; [reflexivity|].
  simpl. rewrite IH. destruct axis; reflexivity.
Qed.

Lemma bbMax_maxOf (axis : Axis) (g : BufferGeometry) :
  coordinate axis (bbMax g) = maxOf (map (coordinate axis) (position g)).
Proof.
  unfold bbMax, boundingBox, setFromBufferAttribute.
  destruct (position g) as [|p rest]; [now destruct axis|].
  simpl. apply fold_expand_max.
Qed.

Lemma bbMin_minOf (axis : Axis) (g : BufferGeometry) :
  coordinate axis (bbMin g) = minOf (map (coordinate axis) (position g)).
Proof.
  unfold bbMin, boundingBox, setFromBufferAttribute.
  destruct (position g) as [|p rest]; [now destruct axis|].
  simpl. apply fold_expand_min.
Qed.

Lemma upper_shift (m x d : Q) : upper (m + d) (x + d) = upper m x + d.
Proof. unfold upper. rewrite Qltb_shift. now destruct (Qltb m x). Qed.

Lemma lower_shift (m x d : Q) : lower (m + d) (x + d) = lower m x + d.
Proof. unfold lower. rewrite Qltb_shift. now destruct (Qltb x m). Qed.

Lemma upper_stretch (m x k : Q) : 0 < k -> upper (m * k) (x * k) = upper m x * k.
Proof. intros Hk. unfold upper. rewrite Qltb_stretch by assumption. now destruct (Qltb m x). Qed.

Lemma lower_stretch (m x k : Q) : 0 < k -> lower (m * k) (x * k) = lower m x * k.
Proof. intros Hk. unfold lower. rewrite Qltb_stretch by assumption. now destruct (Qltb x m). Qed.

Lemma maxOf_shift (l : list Q) (d : Q) :
  l <> [] -> maxOf (map (fun v => v + d) l) = maxOf l + d.
Proof.
  destruct l as [|a rest]; [congruence|]. intros _. simpl.
  revert a. induction rest as [|b rest IH]; intros a; [reflexivity|].
  simpl. rewrite upper_shift. apply IH.
Qed.

Lemma minOf_shift (l : list Q) (d : Q) :
  l <> [] -> minOf (map (fun v => v + d) l) = minOf l + d.
Proof.
  destruct l as [|a rest]; [congruence|]. intros _. simpl.
  revert a. induction rest as [|b rest IH]; intros a; [reflexivity|].
  simpl. rewrite lower_shift. apply IH.
Qed.

Lemma maxOf_stretch (l : list Q) (k : Q) :
  0 < k -> l <> [] -> maxOf (map (fun v => v * k) l) = maxOf l * k.
Proof.
  intros Hk. destruct l as [|a rest]; [congruence|]. intros _. simpl.
  revert a. induction rest as [|b rest IH]; intros a; [reflexivity|].
  simpl. rewrite upper_stretch by assumption. apply IH.
Qed.

Lemma minOf_stretch (l : list Q) (k : Q) :
  0 < k -> l <> [] -> minOf (map (fun v => v * k) l) = minOf l * k.
Proof.
  intros Hk. destruct l as [|a rest]; [congruence|]. intros _. simpl.
  revert a. induction rest as [|b rest IH]; intros a; [reflexivity|].
  simpl. rewrite lower_stretch by assumption. apply IH.
Qed.

(** The smallest number is below the largest. *)
Lemma fold_lower_le (rest : list Q) (a : Q) : fold_left lower rest a <= a.
Proof.
  revert a. induction rest as [|b rest IH]; intros a; [apply Qle_refl|].
  simpl. eapply Qle_trans; [apply IH|].
  unfold lower. destruct (Qltb b a) eqn:E; [|apply Qle_refl].
  apply Qltb_lt in E. now apply Qlt_le_weak.
Qed.

Lemma fold_upper_ge (rest : list Q) (a : Q) : a <= fold_left upper rest a.
Proof.
  revert a. induction rest as [|b rest IH]; intros a; [apply Qle_refl|].
  simpl. eapply Qle_trans; [|apply IH].
  unfold upper. destruct (Qltb a b) eqn:E; [|apply Qle_refl].
  apply Qltb_lt in E. now apply Qlt_le_weak.
Qed.

Lemma minOf_le_maxOf (l : list Q) : minOf l <= maxOf l.
Proof.
  destruct l as [|a rest]; [apply Qle_refl|]. simpl.
  eapply Qle_trans; [apply fold_lower_le|apply fold_upper_ge].
Qed.

Lemma coordinates_translate (axis : Axis) (g : BufferGeometry) (dx dy dz : Q) :
  map (coordinate axis) (position (translate g dx dy dz)) =
  map (fun v => v + coordinate axis (mkVector3 dx dy dz)) (map (coordinate axis) (position g)).
Proof.
  unfold translate, mapPosition. simpl. rewrite !map_map.
  apply map_ext. intros p. now destruct axis.
Qed.

Lemma coordinates_scale (axis : Axis) (g : BufferGeometry) (sx sy sz : Q) :
  map (coordinate axis) (position (scale g sx sy sz)) =
  map (fun v => v * coordinate axis (mkVector3 sx sy sz)) (map (coordinate axis) (position g)).
Proof.
  unfold scale, mapPosition. simpl. rewrite !map_map.
  apply map_ext. intros p. now destruct axis.
Qed.

Lemma heights_rotateZ (g : BufferGeometry) (a : Angle) :
  map (coordinate AxisZ) (position (rotateZ g a)) = map (coordinate AxisZ) (position g).
Proof. unfold rotateZ, mapPosition. simpl. rewrite map_map. reflexivity. Qed.

Lemma map_nonempty {A B : Type} (f : A -> B) (l : list A) : l <> [] -> map f l <> [].
Proof. now destruct l. Qed.

Lemma extent_spec (axis : Axis) (g : BufferGeometry) :
  extent axis g =
  maxOf (map (coordinate axis) (position g)) - minOf (map (coordinate axis) (position g)).
Proof. unfold extent. now rewrite bbMax_maxOf, bbMin_minOf. Qed.

Lemma extent_nonneg (axis : Axis) (g : BufferGeometry) : 0 <= extent axis g.
Proof.
  rewrite extent_spec. unfold Qminus. rewrite <- Qle_minus_iff. apply minOf_le_maxOf.
Qed.

(** Moving a geometry does not change the size of its box. *)
Lemma extent_translate (axis : Axis) (g : BufferGeometry) (dx dy dz : Q) :
  extent axis (translate g dx dy dz) == extent axis g.
Proof.
  rewrite !extent_spec, coordinates_translate.
  destruct (position g) as [|p rest] eqn:E; [reflexivity|].
  rewrite maxOf_shift, minOf_shift by (apply map_nonempty; congruence). ring.
Qed.

(** Stretching a geometry by a positive factor stretches its box by it. *)
Lemma extent_scale (axis : Axis) (g : BufferGeometry) (sx sy sz : Q) :
  0 < coordinate axis (mkVector3 sx sy sz) ->
  extent axis (scale g sx sy sz) == extent axis g * coordinate axis (mkVector3 sx sy sz).
Proof.
  intros Hk. rewrite !extent_spec, coordinates_scale.
  destruct (position g) as [|p rest] eqn:E; [simpl; ring|].
  rewrite maxOf_stretch, minOf_stretch by (assumption || apply map_nonempty; congruence).
  ring.
Qed.

Lemma trim_translate (g : BufferGeometry) :
  trimBufferGeometryToOrigin g =
  translate g (- vx (bbMin g)) (- vy (bbMin g)) (- vz (bbMin g)) \/ position g = [].
Proof.
  unfold trimBufferGeometryToOrigin, bbMin, boundingBox.
  destruct (position g) as [|p rest]; [now right|left; reflexivity].
Qed.

Lemma trim_empty (g : BufferGeometry) : position g = [] -> trimBufferGeometryToOrigin g = g.
Proof. intros E. unfold trimBufferGeometryToOrigin. now rewrite E. Qed.

Lemma extent_trim (axis : Axis) (g : BufferGeometry) :
  extent axis (trimBufferGeometryToOrigin g) == extent axis g.
Proof.
  destruct (trim_translate g) as [-> | E]; [apply extent_translate|].
  now rewrite trim_empty.
Qed.

(** After the trim the box starts at the origin and ends at its size. *)
Lemma bbMin_trim (axis : Axis) (g : BufferGeometry) :
  coordinate axis (bbMin (trimBufferGeometryToOrigin g)) == 0.
Proof.
  destruct (trim_translate g) as [-> | E].
  - rewrite bbMin_minOf, coordinates_translate.
    destruct (position g) as [|p rest] eqn:E; [reflexivity|].
    rewrite minOf_shift by (apply map_nonempty; congruence).
    rewrite <- E, <- bbMin_minOf. destruct axis; simpl; ring.
  - rewrite trim_empty by assumption. rewrite bbMin_minOf, E. reflexivity.
Qed.

Lemma bbMax_trim (axis : Axis) (g : BufferGeometry) :
  coordinate axis (bbMax (trimBufferGeometryToOrigin g)) == extent axis g.
Proof.
  assert (H := extent_trim axis g). unfold extent at 1 in H.
  rewrite bbMin_trim in H. rewrite <- H. ring.
Qed.

Lemma extentZ_rotateZ (g : BufferGeometry) (a : Angle) :
  extent AxisZ (rotateZ g a) = extent AxisZ g.
Proof. now rewrite !extent_spec, heights_rotateZ. Qed.

Lemma extentZ_rotateZWithTrim (g : BufferGeometry) (a : Angle) :
  extent AxisZ (rotateZWithTrim g a) == extent AxisZ g.
Proof. unfold rotateZWithTrim. now rewrite extent_trim, extentZ_rotateZ. Qed.

(** ** The side walls *)

Lemma heightOfTrimmed (g : BufferGeometry) :
  vz (bbMax (trimBufferGeometryToOrigin g)) == extent AxisZ g.
Proof. exact (bbMax_trim AxisZ g). Qed.

Lemma Qdiv_pos (a b : Q) : 0 < a -> 0 < b -> 0 < a / b.
Proof.
  intros Ha Hb. unfold Qdiv. apply Qmult_lt_0_compat; [assumption|].
  now apply Qinv_lt_0_compat.
Qed.



(** ** The pipeline over arbitrary collaborators *)

Lemma validateAll_returns (parts : Subparts) (prefix : string) :
  validateAll parts prefix = Returned tt.
Proof. reflexivity. Qed.

Section Pipeline.

Variable Math_sqrt : Q -> Q.
Variable mergeVertices : BufferGeometry -> option Q -> BufferGeometry.
Variable mergeGeometries : list BufferGeometry -> bool -> option BufferGeometry.
Variable evaluate : BufferGeometry -> BufferGeometry -> Operation -> BufferGeometry.
Variable BoxGeometry : Q -> Q -> Q -> BufferGeometry.

(** C5.  With [n < 2] or [m < 2] the cell extraction throws its
    grid-size error and leaves the input geometry as it was: the throw
    comes before the trim, the cut and everything after. *)
Theorem cutToGrid_rejects_small_grid (baseGeom : BufferGeometry) (n m : Q) :
  n < 2 \/ m < 2 ->
  cutToGrid mergeVertices evaluate BoxGeometry baseGeom n m =
  (baseGeom, Thrown "Grid size must be at least 2x2").
Proof.
  intros H. unfold cutToGrid.
  assert (E : Qltb n 2 || Qltb m 2 = true).
  { apply orb_true_iff. destruct H; [left|right]; now apply Qltb_lt. }
  now rewrite E.
Qed.

(** C6.  For a solid with vertices and [n, m >= 2] the cell extraction
    returns, and the sizes it returns are the extents of the box of the
    input, divided by [n] along X and by [m] along Y, and as they are
    along Z. *)
Theorem cutToGrid_cell_size (baseGeom : BufferGeometry) (n m : Q) :
  position baseGeom <> [] -> 2 <= n -> 2 <= m ->
  exists cell : GridResult,
    snd (cutToGrid mergeVertices evaluate BoxGeometry baseGeom n m) = Returned cell /\
    sizeX cell == extent AxisX baseGeom / n /\
    sizeY cell == extent AxisY baseGeom / m /\
    sizeZ cell == extent AxisZ baseGeom.
Proof.
  intros _ Hn Hm. unfold cutToGrid.
  assert (E : Qltb n 2 || Qltb m 2 = false).
  { apply orb_false_iff. split; now apply Qltb_ge. }
  rewrite E. cbn [validateGeometry cutByMeshBox snd sizeX sizeY sizeZ].
  eexists. split; [reflexivity|]. cbn [sizeX sizeY sizeZ].
  pose proof (extent_trim AxisX baseGeom) as HX.
  pose proof (extent_trim AxisY baseGeom) as HY.
  pose proof (extent_trim AxisZ baseGeom) as HZ.
  unfold extent at 1 in HX. unfold extent at 1 in HY. unfold extent at 1 in HZ.
  cbn [coordinate] in HX, HY, HZ.
  rewrite HX, HY, HZ. repeat split; reflexivity.
Qed.

(** C8.  [dividerThickness] has no effect on what [reassemble] returns:
    two calls that differ in nothing else return the same; and so do two
    runs of the pipeline whose options differ in nothing else. *)
Theorem dividerThickness_has_no_effect (fuel : nat) (subparts : Subparts)
    (gridResult : GridResult) (cornerCuttingRadius height rows cols : Q)
    (unionAll : option bool) (thickness thickness' : option Q) :
  reassemble Math_sqrt mergeVertices mergeGeometries evaluate fuel subparts gridResult
             cornerCuttingRadius height rows cols thickness unionAll =
  reassemble Math_sqrt mergeVertices mergeGeometries evaluate fuel subparts gridResult
             cornerCuttingRadius height rows cols thickness' unionAll /\
  forall (isDebug : bool) (baseGeom : BufferGeometry) (inputGrids outputGrids : Q * Q)
         (inputCornerRadius : Q) (outputGridSize : option Q) (debug : option bool),
    Gridifier Math_sqrt mergeVertices mergeGeometries evaluate BoxGeometry isDebug fuel
      baseGeom
      (mkOptions inputGrids inputCornerRadius height outputGrids outputGridSize
                 thickness unionAll debug) =
    Gridifier Math_sqrt mergeVertices mergeGeometries evaluate BoxGeometry isDebug fuel
      baseGeom
      (mkOptions inputGrids inputCornerRadius height outputGrids outputGridSize
                 thickness' unionAll debug).
Proof. split; [reflexivity|]. intros. reflexivity. Qed.

End Pipeline.

(** ** The list of placed pieces is never empty *)

Lemma placedPieces_length (subparts : Subparts) (gridResult : GridResult)
    (cornerCuttingRadius height rows cols : Q) :
  (20 <= length (placedPieces subparts gridResult cornerCuttingRadius height rows cols))%nat.
Proof.
  assert (H : length (flat_map (outerCorner subparts gridResult cornerCuttingRadius height
                                            rows cols) (seq 0 4)) = 12%nat).
  { erewrite <- length_map. rewrite outerCorners_kinds. reflexivity. }
  unfold placedPieces. rewrite !length_app, H.
  cbn [length sideWalls]. lia.
Qed.

Section Reassembly.

Variable Math_sqrt : Q -> Q.
Variable mergeVertices : BufferGeometry -> option Q -> BufferGeometry.
Variable mergeGeometries : list BufferGeometry -> bool -> option BufferGeometry.
Variable evaluate : BufferGeometry -> BufferGeometry -> Operation -> BufferGeometry.

(** The only thing the repair can throw is the TypeError of a welder that
    hands back a geometry without index. *)
Lemma removeDegenerateTriangles_throws (g : BufferGeometry) (message : string) :
  removeDegenerateTriangles Math_sqrt mergeVertices g = Thrown message ->
  message = "TypeError: Cannot read properties of null (reading 'array')".
Proof.
  unfold removeDegenerateTriangles.
  destruct (index (match index g with Some _ => g | None => mergeVertices g None end));
    intros H; congruence.
Qed.

Lemma repairLoop_throws (fuel : nat) (g : BufferGeometry) (message : string) :
  repairLoop Math_sqrt mergeVertices fuel g = Thrown message ->
  message = "TypeError: Cannot read properties of null (reading 'array')".
Proof.
  revert g. induction fuel as [|fuel IH]; intros g; [discriminate|].
  cbn [repairLoop].
  destruct (removeDegenerateTriangles Math_sqrt mergeVertices
              (removeDuplicateFaces (mergeVertices g (Some MERGE_VERTICES_TOLERANCE))))
    as [out|e|] eqn:E; cbn [mbind outcome_bind].
  - destruct (decide _); [discriminate|apply IH].
  - intros H. injection H as <-. eapply removeDegenerateTriangles_throws, E.
  - discriminate.
Qed.

(** C10.  Whatever the rows and the columns, the corner loop and the side
    walls alone put 20 pieces on the list, so [reassemble] never throws
    its no-geometries error. *)
Theorem reassemble_list_never_empty (subparts : Subparts) (gridResult : GridResult)
    (cornerCuttingRadius height rows cols : Q) :
  (20 <= length (geometries subparts gridResult cornerCuttingRadius height rows cols))%nat /\
  forall (fuel : nat) (dividerThickness : option Q) (unionAll : option bool),
    reassemble Math_sqrt mergeVertices mergeGeometries evaluate fuel subparts gridResult
               cornerCuttingRadius height rows cols dividerThickness unionAll
    <> Thrown "No geometries to merge".
Proof.
  assert (L : (20 <= length (geometries subparts gridResult cornerCuttingRadius height
                                        rows cols))%nat).
  { unfold geometries. rewrite length_map. apply placedPieces_length. }
  split; [exact L|].
  intros fuel dividerThickness unionAll. unfold reassemble.
  rewrite validateAll_returns. cbn [mbind outcome_bind].
  destruct (decide _) as [E|_]; [lia|].
  destruct (truthy unionAll).
  - destruct (geometries subparts gridResult cornerCuttingRadius height rows cols)
      as [|first rest]; [cbn in L; lia|].
    cbn [unionAllGeometry mbind outcome_bind]. unfold fixNonManifoldGeometry.
    destruct (repairLoop _ _ _ _) as [out|e|] eqn:E; cbn; try discriminate.
    apply repairLoop_throws in E. subst e. discriminate.
  - destruct (mergeGeometries _ true) as [merged|]; cbn [mbind outcome_bind];
      [|discriminate].
    unfold fixNonManifoldGeometry.
    destruct (repairLoop _ _ _ _) as [out|e|] eqn:E; cbn; try discriminate.
    apply repairLoop_throws in E. subst e. discriminate.
Qed.

End Reassembly.

(** ** Duplicate faces *)

Lemma triangles_flatten (ts : list (nat * nat * nat)) : triangles (flatten ts) = ts.
Proof.
  induction ts as [|[[a b] c] ts IH]; [reflexivity|].
  unfold flatten in *. cbn [flat_map app triangles]. now rewrite IH.
Qed.

(** The loop keeps one triangle for every key that is not yet in the set. *)
Lemma uniqueFaceIndices_count (uniqueFaces : gset string) (ts : list (nat * nat * nat)) :
  length (triangles (uniqueFaceIndices uniqueFaces ts)) =
  size (list_to_set (map faceKey ts) ∖ uniqueFaces : gset string).
Proof.
  revert uniqueFaces. induction ts as [|[[a b] c] ts IH]; intros uniqueFaces.
  - cbn. replace (∅ ∖ uniqueFaces) with (∅ : gset string) by set_solver.
    now rewrite size_empty.
  - cbn [uniqueFaceIndices map list_to_set].
    destruct (decide (faceKey (a, b, c) ∈ uniqueFaces)) as [Hin|Hnotin].
    + rewrite IH. f_equal. set_solver.
    + cbn [app triangles length]. rewrite IH.
      replace (({[faceKey (a, b, c)]} ∪ list_to_set (map faceKey ts)) ∖ uniqueFaces)
        with ({[faceKey (a, b, c)]}
              ∪ (list_to_set (map faceKey ts) ∖ ({[faceKey (a, b, c)]} ∪ uniqueFaces))
              : gset string).
      * pose proof (size_union (C := gset string) {[faceKey (a, b, c)]}
                      (list_to_set (map faceKey ts) ∖ ({[faceKey (a, b, c)]} ∪ uniqueFaces)))
          as HU.
        rewrite HU by set_solver. now rewrite size_singleton.
      * apply set_eq. intros x. destruct (decide (x = faceKey (a, b, c))); set_solver.
Qed.

(** The number of triangles [removeDuplicateFaces] leaves is the number of
    distinct keys. *)
Lemma removeDuplicateFaces_count (positions : list Vector3) (ts : list (nat * nat * nat)) :
  triangleCount (removeDuplicateFaces {| position := positions; index := Some (flatten ts) |})
  = size (list_to_set (map faceKey ts) : gset string).
Proof.
  unfold removeDuplicateFaces, triangleCount. cbn [index setIndex].
  rewrite triangles_flatten, uniqueFaceIndices_count. f_equal. set_solver.
Qed.

Lemma removeDuplicateFaces_position (g : BufferGeometry) :
  position (removeDuplicateFaces g) = position g.
Proof. unfold removeDuplicateFaces. now destruct (index g). Qed.

Lemma removeDuplicateFaces_indexed (g : BufferGeometry) :
  index g <> None -> index (removeDuplicateFaces g) <> None.
Proof. unfold removeDuplicateFaces. now destruct (index g). Qed.

(** ** Degenerate triangles and the vertices that stay *)

Lemma Set_add_elem (v x : nat) (s : list nat) : x ∈ Set_add v s <-> x = v \/ x ∈ s.
Proof.
  unfold Set_add. destruct (decide (v ∈ s)) as [Hin|Hnotin].
  - split; [now right|]. intros [->|H]; assumption.
  - rewrite elem_of_app, list_elem_of_singleton. tauto.
Qed.

Lemma Set_add_NoDup (v : nat) (s : list nat) : NoDup s -> NoDup (Set_add v s).
Proof.
  intros H. unfold Set_add. destruct (decide (v ∈ s)) as [Hin|Hnotin]; [assumption|].
  apply NoDup_app. split; [assumption|]. split.
  - intros x Hx Hx'. apply list_elem_of_singleton in Hx'. now subst.
  - apply NoDup_singleton.
Qed.

Lemma usedVertices_spec (newIndices s : list nat) :
  NoDup s ->
  NoDup (foldl (fun s v => Set_add v s) s newIndices) /\
  forall x, x ∈ foldl (fun s v => Set_add v s) s newIndices <-> x ∈ s \/ x ∈ newIndices.
Proof.
  revert s. induction newIndices as [|v l IH]; intros s Hs.
  - split; [assumption|]. intros x. rewrite elem_of_nil. cbn. tauto.
  - cbn [foldl]. destruct (IH (Set_add v s) (Set_add_NoDup v s Hs)) as [Hn Hx].
    split; [assumption|]. intros x. rewrite Hx, Set_add_elem, elem_of_cons. tauto.
Qed.

(** A list of distinct numbers below [n] has at most [n] elements. *)
Lemma NoDup_bounded_length (l : list nat) (n : nat) :
  NoDup l -> Forall (fun i => (i < n)%nat) l -> (length l <= n)%nat.
Proof.
  intros Hn Hb. assert (E : length (seq 0 n) = n) by apply length_seq. rewrite <- E.
  apply submseteq_length, NoDup_submseteq; [assumption|].
  intros i Hi. apply elem_of_seq. rewrite Forall_forall in Hb.
  specialize (Hb i Hi). lia.
Qed.

Lemma indexMapping_spec (usedVertices : list nat) (v : nat) :
  v ∈ usedVertices ->
  exists i, indexMapping usedVertices !! v = Some i /\ (i < length usedVertices)%nat.
Proof.
  unfold indexMapping.
  assert (G : forall (l : list nat) (m : gmap nat nat) (n : nat),
             (v ∈ l \/ exists i, m !! v = Some i /\ (i < n)%nat) ->
             exists i,
               fst (foldl (fun '(oldToNewIndex, nextIndex) oldIndex =>
                             (<[oldIndex := nextIndex]> oldToNewIndex, S nextIndex))
                          (m, n) l) !! v = Some i /\ (i < n + length l)%nat).
  { induction l as [|w l IH]; intros m n H.
    - destruct H as [H|[i [Hi Hlt]]]; [now apply elem_of_nil in H|].
      exists i. cbn. split; [assumption|lia].
    - cbn [foldl length].
      destruct (IH (<[w := n]> m) (S n)) as [i [Hi Hlt]].
      + destruct (decide (v = w)) as [->|Hne].
        * right. exists n. rewrite lookup_insert_eq. split; [reflexivity|lia].
        * destruct H as [H|[i [Hi Hlt]]].
          -- left. apply elem_of_cons in H. destruct H; [contradiction|assumption].
          -- right. exists i. rewrite lookup_insert_ne by congruence. split; [assumption|lia].
      + exists i. split; [assumption|lia]. }
  intros Hv. destruct (G usedVertices ∅ 0%nat (or_introl Hv)) as [i [Hi Hlt]].
  exists i. split; [assumption|exact Hlt].
Qed.

Section Repair.

Variable Math_sqrt : Q -> Q.
Variable mergeVertices : BufferGeometry -> option Q -> BufferGeometry.

Lemma isNonDegenerate_in_range (positions : list Vector3) (a b c : nat) :
  isNonDegenerate Math_sqrt positions (a, b, c) = true ->
  (a < length positions)%nat /\ (b < length positions)%nat /\ (c < length positions)%nat.
Proof.
  unfold isNonDegenerate.
  destruct (positions !! a) eqn:Ea; [|discriminate].
  destruct (positions !! b) eqn:Eb; [|discriminate].
  destruct (positions !! c) eqn:Ec; [|discriminate].
  intros _. repeat split; eapply lookup_lt_Some; eassumption.
Qed.

Lemma kept_in_range (positions : list Vector3) (ts : list (nat * nat * nat)) :
  Forall (fun i => (i < length positions)%nat)
         (flatten (filter (isNonDegenerate Math_sqrt positions) ts)).
Proof.
  induction ts as [|[[a b] c] ts IH]; [constructor|].
  rewrite filter_cons.
  destruct (decide (isNonDegenerate Math_sqrt positions (a, b, c))) as [H|H]; [|exact IH].
  apply Is_true_true in H. apply isNonDegenerate_in_range in H as (Ha & Hb & Hc).
  unfold flatten in *. cbn [flat_map app]. repeat constructor; assumption.
Qed.

(** On an indexed geometry [removeDegenerateTriangles] returns; the result
    has no more vertices than the argument, is indexed, and its indices
    point into its own position buffer. *)
Lemma removeDegenerateTriangles_spec (g : BufferGeometry) :
  index g <> None ->
  exists out,
    removeDegenerateTriangles Math_sqrt mergeVertices g = Returned out /\
    (length (position out) <= length (position g))%nat /\
    index out <> None /\
    indicesInRange out.
Proof.
  intros Hidx. unfold removeDegenerateTriangles.
  destruct (index g) as [indices|] eqn:E; [|congruence]. rewrite E.
  eexists. split; [reflexivity|].
  set (newIndices := flatten (filter _ _)).
  destruct (usedVertices_spec newIndices [] (NoDup_nil_2 (A := nat))) as [Hn Hx].
  pose proof (kept_in_range (position g) (triangles indices)) as Hr.
  fold newIndices in Hr.
  split; [|split; [discriminate|]].
  - cbn [position]. rewrite length_map. apply NoDup_bounded_length; [assumption|].
    apply Forall_forall. intros x Hin. apply Hx in Hin as [Hin|Hin];
      [now apply elem_of_nil in Hin|].
    rewrite Forall_forall in Hr. now apply Hr.
  - unfold indicesInRange. cbn [index position]. rewrite length_map.
    apply Forall_forall. intros i Hi. apply list_elem_of_fmap in Hi as [v [-> Hv]].
    destruct (indexMapping_spec (foldl (fun s v => Set_add v s) [] newIndices) v)
      as [j [Hj Hlt]].
    + apply Hx. now right.
    + rewrite Hj. exact Hlt.
Qed.

End Repair.

(** ** The repair loop *)

Section RepairLoop.

Variable Math_sqrt : Q -> Q.
Variable mergeVertices : BufferGeometry -> option Q -> BufferGeometry.

(** [fixNonManifoldGeometry] hands back its argument, whatever the loop
    has computed. *)
Lemma fixNonManifoldGeometry_returns_argument (fuel : nat) (geometry fixed : BufferGeometry) :
  fixNonManifoldGeometry Math_sqrt mergeVertices fuel geometry = Returned fixed ->
  fixed = geometry.
Proof.
  unfold fixNonManifoldGeometry.
  destruct (repairLoop Math_sqrt mergeVertices fuel geometry); cbn; congruence.
Qed.

(** What the program relies on from the welder: the result is indexed, its
    indices point into its own buffer, and welding a geometry whose
    indices are in range does not add vertices. *)
Hypothesis welded_indexed : forall g tolerance, index (mergeVertices g tolerance) <> None.
Hypothesis welded_in_range : forall g tolerance, indicesInRange (mergeVertices g tolerance).
Hypothesis welding_shrinks : forall g tolerance,
  indicesInRange g ->
  (length (position (mergeVertices g tolerance)) <= length (position g))%nat.

(** One turn of the loop, up to the test. *)
Lemma repair_turn (output : BufferGeometry) :
  indicesInRange output ->
  exists cleaned,
    removeDegenerateTriangles Math_sqrt mergeVertices
      (removeDuplicateFaces (mergeVertices output (Some MERGE_VERTICES_TOLERANCE)))
    = Returned cleaned /\
    (length (position (mergeVertices cleaned (Some MERGE_VERTICES_TOLERANCE)))
     <= length (position output))%nat.
Proof.
  intros Hr.
  destruct (removeDegenerateTriangles_spec Math_sqrt mergeVertices
              (removeDuplicateFaces (mergeVertices output (Some MERGE_VERTICES_TOLERANCE))))
    as (cleaned & Hc & Hlen & _ & Hrange).
  { apply removeDuplicateFaces_indexed, welded_indexed. }
  exists cleaned. split; [exact Hc|].
  rewrite removeDuplicateFaces_position in Hlen.
  pose proof (welding_shrinks output (Some MERGE_VERTICES_TOLERANCE) Hr).
  pose proof (welding_shrinks cleaned (Some MERGE_VERTICES_TOLERANCE) Hrange).
  lia.
Qed.

(** The loop ends: the vertex count cannot go up, and a turn that does not
    bring it down is the last. *)
Lemma repairLoop_returns (fuel : nat) (output : BufferGeometry) :
  indicesInRange output ->
  (length (position output) < fuel)%nat ->
  exists result, repairLoop Math_sqrt mergeVertices fuel output = Returned result.
Proof.
  revert output. induction fuel as [|fuel IH]; intros output Hr Hlt; [lia|].
  cbn [repairLoop]. destruct (repair_turn output Hr) as (cleaned & -> & Hlen).
  cbn [mbind outcome_bind]. destruct (decide _) as [E|E]; [eauto|].
  apply IH; [apply welded_in_range|].
  unfold positionArrayLength in E. lia.
Qed.

Lemma fixNonManifoldGeometry_returns (geometry : BufferGeometry) :
  indicesInRange geometry ->
  fixNonManifoldGeometry Math_sqrt mergeVertices (S (length (position geometry))) geometry
  = Returned geometry.
Proof.
  intros Hr. unfold fixNonManifoldGeometry.
  destruct (repairLoop_returns (S (length (position geometry))) geometry Hr) as [out ->];
    [lia|reflexivity].
Qed.

(** C9.  Shuffling the triangles of an indexed mesh changes neither the
    number of triangles [removeDuplicateFaces] leaves, nor the number of
    triangles of the mesh the repair step returns.  (The repair step
    returns; it needs no more turns than the mesh has vertices, plus one.) *)
Theorem repair_count_order_independent (positions : list Vector3)
    (ts ts' : list (nat * nat * nat)) :
  Permutation ts ts' ->
  Forall (fun i => (i < length positions)%nat) (flatten ts) ->
  let mesh := {| position := positions; index := Some (flatten ts) |} in
  let shuffled := {| position := positions; index := Some (flatten ts') |} in
  triangleCount (removeDuplicateFaces mesh) = triangleCount (removeDuplicateFaces shuffled) /\
  exists repaired repaired',
    fixNonManifoldGeometry Math_sqrt mergeVertices (S (length positions)) mesh
      = Returned repaired /\
    fixNonManifoldGeometry Math_sqrt mergeVertices (S (length positions)) shuffled
      = Returned repaired' /\
    triangleCount repaired = triangleCount repaired'.
Proof.
  intros Hp Hr mesh shuffled. split.
  - subst mesh shuffled. rewrite !removeDuplicateFaces_count.
    f_equal. apply set_eq. intros k. rewrite !elem_of_list_to_set.
    now rewrite Hp.
  - exists mesh, shuffled.
    assert (Hr' : Forall (fun i => (i < length positions)%nat) (flatten ts')).
    { unfold flatten in *. rewrite Forall_forall in *. intros i Hi.
      apply Hr. apply list_elem_of_In, in_flat_map.
      apply list_elem_of_In, in_flat_map in Hi as [t [Ht Hi]].
      exists t. split; [|assumption].
      eapply Permutation_in; [symmetry; exact Hp|assumption]. }
    split; [|split].
    + apply (fixNonManifoldGeometry_returns mesh). exact Hr.
    + apply (fixNonManifoldGeometry_returns shuffled). exact Hr'.
    + subst mesh shuffled. unfold triangleCount. cbn [index].
      rewrite !triangles_flatten. now apply Permutation_length.
Qed.

End RepairLoop.

(** ** The stand-in welder meets the assumptions on the welder *)

Module ExampleFacts.
Import Examples.

Section FirstOccurrences.
Context {A K : Type} `{EqDecision K} (key : A -> K).

Lemma firstOccurrences_subset (seen : list K) (l : list A) (x : A) :
  x ∈ firstOccurrences key seen l -> x ∈ l.
Proof.
  revert seen. induction l as [|a l IH]; intros seen; cbn [firstOccurrences].
  - intros H. now apply elem_of_nil in H.
  - destruct (decide (key a ∈ seen)).
    + intros H. apply elem_of_cons. right. eapply IH, H.
    + intros H. apply elem_of_cons in H as [->|H]; apply elem_of_cons;
        [now left|right; eapply IH, H].
Qed.

Lemma firstOccurrences_fresh (seen : list K) (l : list A) (x : A) :
  x ∈ firstOccurrences key seen l -> key x ∉ seen.
Proof.
  revert seen. induction l as [|a l IH]; intros seen; cbn [firstOccurrences].
  - intros H. now apply elem_of_nil in H.
  - destruct (decide (key a ∈ seen)) as [Hin|Hnotin].
    + apply IH.
    + intros H. apply elem_of_cons in H as [->|H]; [assumption|].
      apply IH in H. intros Hx. apply H. apply elem_of_cons. now right.
Qed.

Lemma firstOccurrences_NoDup (seen : list K) (l : list A) :
  NoDup (map key (firstOccurrences key seen l)).
Proof.
  revert seen. induction l as [|a l IH]; intros seen; cbn [firstOccurrences].
  - constructor.
  - destruct (decide (key a ∈ seen)) as [Hin|Hnotin]; [apply IH|].
    cbn [map]. constructor; [|apply IH].
    intros Hin. apply list_elem_of_fmap in Hin as [x [Hk Hx]].
    apply firstOccurrences_fresh in Hx. apply Hx. rewrite <- Hk.
    apply elem_of_cons. now left.
Qed.

Lemma firstOccurrences_covers (seen : list K) (l : list A) (x : A) :
  x ∈ l -> key x ∈ seen \/ key x ∈ map key (firstOccurrences key seen l).
Proof.
  revert seen. induction l as [|a l IH]; intros seen Hx; cbn [firstOccurrences].
  - now apply elem_of_nil in Hx.
  - apply elem_of_cons in Hx as [->|Hx].
    + destruct (decide (key a ∈ seen)) as [Hin|Hnotin]; [now left|].
      right. cbn [map]. apply elem_of_cons. now left.
    + destruct (decide (key a ∈ seen)) as [Hin|Hnotin]; [now apply IH|].
      destruct (IH (key a :: seen) Hx) as [H|H].
      * apply elem_of_cons in H as [H|H]; [|now left].
        right. cbn [map]. apply elem_of_cons. now left.
      * right. cbn [map]. apply elem_of_cons. now right.
Qed.

Lemma indexOf_lt (k : K) (keys : list K) :
  k ∈ keys -> (indexOf k keys < length keys)%nat.
Proof.
  induction keys as [|k' keys IH]; intros H; [now apply elem_of_nil in H|].
  cbn [indexOf length]. destruct (decide (k = k')); [lia|].
  apply elem_of_cons in H as [H|H]; [contradiction|]. apply IH in H. lia.
Qed.

End FirstOccurrences.

Lemma welded_indexed (g : BufferGeometry) (tolerance : option Q) :
  index (mergeVertices g tolerance) <> None.
Proof. discriminate. Qed.

Lemma welded_in_range (g : BufferGeometry) (tolerance : option Q) :
  indicesInRange (mergeVertices g tolerance).
Proof.
  unfold indicesInRange, mergeVertices. cbn [index position].
  apply Forall_forall. intros i Hi. apply list_elem_of_fmap in Hi as [p [-> Hp]].
  assert (E : forall l : list Vector3,
             length l = length (map (cell (default (1 # 10000) tolerance)) l))
    by (intros l; symmetry; apply length_map).
  rewrite (E (firstOccurrences _ _ _)). apply indexOf_lt.
  destruct (firstOccurrences_covers (cell (default (1 # 10000) tolerance)) [] _ p Hp)
    as [H|H]; [now apply elem_of_nil in H|exact H].
Qed.

Lemma welding_shrinks (g : BufferGeometry) (tolerance : option Q) :
  indicesInRange g ->
  (length (position (mergeVertices g tolerance)) <= length (position g))%nat.
Proof.
  intros Hr. unfold mergeVertices. cbn [position].
  apply submseteq_length, NoDup_submseteq.
  - eapply (NoDup_fmap_1 (cell (default (1 # 10000) tolerance))).
    apply firstOccurrences_NoDup.
  - intros p Hp.
    apply firstOccurrences_subset in Hp.
    apply list_elem_of_fmap in Hp as [i [-> Hi]].
    assert (Hlt : (i < length (position g))%nat).
    { unfold indicesInRange in Hr. destruct (index g) as [indices|]; cbn [default] in Hi.
      - rewrite Forall_forall in Hr. now apply Hr.
      - apply elem_of_seq in Hi. lia. }
    apply lookup_lt_is_Some in Hlt as [q Hq]. rewrite Hq. cbn [default].
    eapply list_elem_of_lookup_2, Hq.
Qed.

End ExampleFacts.

(** ** The program on the sample inputs *)

(** C2.  On a mesh that holds a triangle twice and a triangle without area,
    the loop of [fixNonManifoldGeometry] computes the cleaned mesh (one
    triangle), but the function returns its argument: the mesh it hands
    back still has the duplicate and the degenerate triangle. *)
Theorem fixNonManifoldGeometry_returns_unrepaired :
  repairLoop Examples.Math_sqrt Examples.mergeVertices 4 Examples.doubledTriangle
    = Returned {| position := [ mkVector3 0 0 0; mkVector3 1 0 0; mkVector3 0 1 0 ];
                  index := Some [0; 1; 2]%nat |} /\
  fixNonManifoldGeometry Examples.Math_sqrt Examples.mergeVertices 4 Examples.doubledTriangle
    = Returned Examples.doubledTriangle /\
  hasDuplicateFaces Examples.doubledTriangle = true /\
  hasDegenerateTriangles Examples.Math_sqrt Examples.doubledTriangle = true.
Proof. repeat split; vm_compute; reflexivity. Qed.

(** C4.  The text [abc] is not of the form NxM, and [parseGridSize] returns
    on it: the one field reads as NaN, the other is missing, and neither
    compares below 1. *)
Theorem parseGridSize_accepts_non_numeric :
  CommandLine.matchesNxM "abc" = false /\
  CommandLine.parseGridSize "abc"
    = Returned (CommandLine.Number_ CommandLine.NaN, CommandLine.Undefined).
Proof. split; vm_compute; reflexivity. Qed.

(** C1, as stated, fails: one row and two columns have one seam, and the
    seam gets four one-wall corner pieces, not two. *)
Lemma inner_boundary_count_counterexample :
  let pieces := placedPieces Examples.parts Examples.oneCell 2 8 (ofNat 1) (ofNat 2) in
  (countPart BottomCorner1WRightNear pieces + countPart BottomCorner1WLeftFar pieces)%nat
  <> (2 * ((1 - 1) + (2 - 1)))%nat.
Proof. vm_compute. discriminate. Qed.

Lemma reassemble_piece_counts_witness :
  let pieces := placedPieces Examples.parts Examples.oneCell 2 8 (ofNat 2) (ofNat 3) in
  firstn 12 (map fst pieces) =
    [BottomCorner2W; TopCorner2W; SideEdge2W; BottomCorner2W; TopCorner2W; SideEdge2W;
     BottomCorner2W; TopCorner2W; SideEdge2W; BottomCorner2W; TopCorner2W; SideEdge2W] /\
  countPart BottomCorner2W pieces = 4%nat /\
  countPart TopCorner2W pieces = 4%nat /\
  countPart SideEdge2W pieces = 4%nat /\
  (countPart BottomCorner1WRightNear pieces + countPart BottomCorner1WLeftFar pieces
   = 4 * ((2 - 1) + (3 - 1)))%nat /\
  countPart BottomCorner0W pieces = (4 * (2 - 1) * (3 - 1))%nat /\
  countPart BottomFloor pieces = (2 * 3)%nat.
Proof.
  apply (reassemble_piece_counts Examples.parts Examples.oneCell 2 8 2 3).
  - discriminate.
  - discriminate.
  - lia.
  - lia.
Defined.



Lemma cutToGrid_rejects_small_grid_witness :
  cutToGrid Examples.mergeVertices Examples.evaluate Examples.BoxGeometry Examples.solid 1 3 =
  (Examples.solid, Thrown "Grid size must be at least 2x2").
Proof.
  apply (cutToGrid_rejects_small_grid Examples.mergeVertices Examples.evaluate
           Examples.BoxGeometry Examples.solid 1 3).
  left. reflexivity.
Defined.

Lemma cutToGrid_cell_size_witness :
  exists cell : GridResult,
    snd (cutToGrid Examples.mergeVertices Examples.evaluate Examples.BoxGeometry
           Examples.solid 4 2) = Returned cell /\
    sizeX cell == extent AxisX Examples.solid / 4 /\
    sizeY cell == extent AxisY Examples.solid / 2 /\
    sizeZ cell == extent AxisZ Examples.solid.
Proof.
  apply (cutToGrid_cell_size Examples.mergeVertices Examples.evaluate Examples.BoxGeometry
           Examples.solid 4 2).
  - discriminate.
  - discriminate.
  - discriminate.
Defined.

Lemma repair_count_order_independent_witness :
  let positions := [ mkVector3 0 0 0; mkVector3 1 0 0; mkVector3 0 1 0 ] in
  let ts := [ (0, 1, 2); (1, 2, 0); (0, 0, 1) ]%nat in
  let ts' := [ (0, 0, 1); (0, 1, 2); (1, 2, 0) ]%nat in
  let mesh := {| position := positions; index := Some (flatten ts) |} in
  let shuffled := {| position := positions; index := Some (flatten ts') |} in
  triangleCount (removeDuplicateFaces mesh) = triangleCount (removeDuplicateFaces shuffled) /\
  exists repaired repaired',
    fixNonManifoldGeometry Examples.Math_sqrt Examples.mergeVertices
      (S (length positions)) mesh = Returned repaired /\
    fixNonManifoldGeometry Examples.Math_sqrt Examples.mergeVertices
      (S (length positions)) shuffled = Returned repaired' /\
    triangleCount repaired = triangleCount repaired'.
Proof.
  apply (repair_count_order_independent Examples.Math_sqrt Examples.mergeVertices
           ExampleFacts.welded_indexed ExampleFacts.welded_in_range
           ExampleFacts.welding_shrinks).
  - apply (Permutation_app_comm [ (0, 1, 2); (1, 2, 0) ]%nat [ (0, 0, 1) ]%nat).
  - repeat constructor.
Defined.

(** * Further properties of the program *)

(** ** Trimming, turning and mirroring *)

Lemma Qltb_proper (a a' b b' : Q) : a == a' -> b == b' -> Qltb a b = Qltb a' b'.
Proof.
  intros Ha Hb. destruct (Qltb a' b') eqn:E.
  - apply Qltb_lt. apply Qltb_lt in E. now rewrite Ha, Hb.
  - apply Qltb_ge. apply Qltb_ge in E. now rewrite Ha, Hb.
Qed.

Lemma upper_proper (m m' x x' : Q) : m == m' -> x == x' -> upper m x == upper m' x'.
Proof.
  intros Hm Hx. unfold upper. rewrite (Qltb_proper m m' x x' Hm Hx).
  now destruct (Qltb m' x').
Qed.

Lemma lower_proper (m m' x x' : Q) : m == m' -> x == x' -> lower m x == lower m' x'.
Proof.
  intros Hm Hx. unfold lower. rewrite (Qltb_proper x x' m m' Hx Hm).
  now destruct (Qltb x' m').
Qed.

Lemma maxOf_proper (l l' : list Q) : Forall2 Qeq l l' -> maxOf l == maxOf l'.
Proof.
  intros H. destruct H as [|a a' l l' Ha H]; [reflexivity|]. simpl.
  revert a a' Ha. induction H as [|b b' l l' Hb H IH]; intros a a' Ha; [exact Ha|].
  simpl. apply IH. now apply upper_proper.
Qed.

Lemma minOf_proper (l l' : list Q) : Forall2 Qeq l l' -> minOf l == minOf l'.
Proof.
  intros H. destruct H as [|a a' l l' Ha H]; [reflexivity|]. simpl.
  revert a a' Ha. induction H as [|b b' l l' Hb H IH]; intros a a' Ha; [exact Ha|].
  simpl. apply IH. now apply lower_proper.
Qed.

Lemma Qltb_opp (a b : Q) : Qltb (- a) (- b) = Qltb b a.
Proof.
  destruct (Qltb b a) eqn:E.
  - apply Qltb_lt. apply Qltb_lt in E. now apply Qopp_lt_compat.
  - apply Qltb_ge. apply Qltb_ge in E. now apply Qopp_le_compat.
Qed.

Lemma upper_opp (m x : Q) : upper (- m) (- x) = - lower m x.
Proof. unfold upper, lower. rewrite Qltb_opp. now destruct (Qltb x m). Qed.

Lemma lower_opp (m x : Q) : lower (- m) (- x) = - upper m x.
Proof. unfold upper, lower. rewrite Qltb_opp. now destruct (Qltb m x). Qed.

Lemma maxOf_opp (l : list Q) : l <> [] -> maxOf (map Qopp l) = - minOf l.
Proof.
  destruct l as [|a rest]; [congruence|]. intros _. simpl.
  revert a. induction rest as [|b rest IH]; intros a; [reflexivity|].
  simpl. rewrite upper_opp. apply IH.
Qed.

Lemma minOf_opp (l : list Q) : l <> [] -> minOf (map Qopp l) = - maxOf l.
Proof.
  destruct l as [|a rest]; [congruence|]. intros _. simpl.
  revert a. induction rest as [|b rest IH]; intros a; [reflexivity|].
  simpl. rewrite lower_opp. apply IH.
Qed.

(** The size of a list of numbers does not change when all are negated. *)
Lemma span_opp (l : list Q) :
  maxOf (map Qopp l) - minOf (map Qopp l) == maxOf l - minOf l.
Proof.
  destruct l as [|a rest] eqn:E; [reflexivity|]. rewrite <- E.
  rewrite maxOf_opp, minOf_opp by congruence. ring.
Qed.

Lemma Forall2_map_pointwise {A : Type} (f g : A -> Q) (l : list A) :
  (forall a, f a == g a) -> Forall2 Qeq (map f l) (map g l).
Proof. intros H. induction l; constructor; auto. Qed.

Lemma span_proper (l l' : list Q) :
  Forall2 Qeq l l' -> maxOf l - minOf l == maxOf l' - minOf l'.
Proof. intros H. now rewrite (maxOf_proper l l' H), (minOf_proper l l' H). Qed.

Lemma trim_facts (g : BufferGeometry) (axis : Axis) :
  coordinate axis (bbMin (trimBufferGeometryToOrigin g)) == 0 /\
  coordinate axis (bbMax (trimBufferGeometryToOrigin g)) == extent axis g /\
  extent axis (trimBufferGeometryToOrigin g) == extent axis g /\
  index (trimBufferGeometryToOrigin g) = index g /\
  length (position (trimBufferGeometryToOrigin g)) = length (position g).
Proof.
  split; [apply bbMin_trim|]. split; [apply bbMax_trim|]. split; [apply extent_trim|].
  destruct (trim_translate g) as [-> | E].
  - split; [reflexivity|]. unfold translate, mapPosition. cbn [position]. apply length_map.
  - rewrite trim_empty by assumption. split; reflexivity.
Qed.

(** X1.  [trimBufferGeometryToOrigin] moves the box of a geometry that has
    vertices to the origin: on every axis the minimum becomes 0 and the
    maximum becomes the extent; the extent itself, the index and the number
    of vertices do not change.  (Without vertices the program has an
    infinite box, which has no extent to speak of.) *)
Theorem trimBufferGeometryToOrigin_normalizes (g : BufferGeometry) (axis : Axis) :
  position g <> [] ->
  coordinate axis (bbMin (trimBufferGeometryToOrigin g)) == 0 /\
  coordinate axis (bbMax (trimBufferGeometryToOrigin g)) == extent axis g /\
  extent axis (trimBufferGeometryToOrigin g) == extent axis g /\
  index (trimBufferGeometryToOrigin g) = index g /\
  length (position (trimBufferGeometryToOrigin g)) = length (position g).
Proof. intros _. exact (trim_facts g axis). Qed.

Lemma Forall2_map_same (f : Vector3 -> Vector3) (l : list Vector3) :
  (forall p, sameVector (f p) p) -> Forall2 sameVector (map f l) l.
Proof. intros H. induction l; constructor; auto. Qed.

Lemma sameGeometry_refl (g : BufferGeometry) : sameGeometry g g.
Proof.
  split; [|reflexivity]. induction (position g) as [|p l IH]; constructor; [|exact IH].
  repeat split; reflexivity.
Qed.

(** X2.  Trimming twice is trimming once. *)
Theorem trimBufferGeometryToOrigin_idempotent (g : BufferGeometry) :
  sameGeometry (trimBufferGeometryToOrigin (trimBufferGeometryToOrigin g))
               (trimBufferGeometryToOrigin g).
Proof.
  set (g' := trimBufferGeometryToOrigin g).
  pose proof (bbMin_trim AxisX g) as HX. pose proof (bbMin_trim AxisY g) as HY.
  pose proof (bbMin_trim AxisZ g) as HZ. fold g' in HX, HY, HZ. cbn [coordinate] in *.
  destruct (trim_translate g') as [-> | E].
  - split; [|reflexivity]. unfold translate, mapPosition. cbn [position].
    apply Forall2_map_same. intros p. unfold sameVector. cbn [vx vy vz].
    rewrite HX, HY, HZ. repeat split; ring.
  - rewrite trim_empty by assumption. apply sameGeometry_refl.
Qed.

(** The extent along [axis] of a geometry whose vertices are the images of
    those of [g], when the coordinate of an image is a coordinate of the
    vertex, or its opposite. *)
Lemma extent_of_images (axis axis' : Axis) (g g' : BufferGeometry) (f : Vector3 -> Vector3) :
  position g' = map f (position g) ->
  (forall p, coordinate axis (f p) == coordinate axis' p) \/
  (forall p, coordinate axis (f p) == - coordinate axis' p) ->
  extent axis g' == extent axis' g.
Proof.
  intros Hpos H. rewrite !extent_spec, Hpos, map_map. destruct H as [H|H].
  - apply span_proper. now apply Forall2_map_pointwise.
  - etransitivity; [|apply (span_opp (map (coordinate axis') (position g)))].
    rewrite map_map. apply span_proper. now apply Forall2_map_pointwise.
Qed.

Lemma quarter_turn_cases (k : Z) :
  (Z.odd k = false /\ ((cosA k = 1 /\ sinA k = 0) \/ (cosA k = - (1) /\ sinA k = 0))) \/
  (Z.odd k = true /\ ((cosA k = 0 /\ sinA k = 1) \/ (cosA k = 0 /\ sinA k = - (1)))).
Proof.
  assert (Hodd : Z.odd k = Z.odd (k mod 4)).
  { rewrite (Z.div_mod k 4) at 1 by lia.
    rewrite Z.odd_add, Z.odd_mul. reflexivity. }
  pose proof (Z.mod_pos_bound k 4 ltac:(lia)) as Hb.
  unfold cosA, sinA. rewrite Hodd.
  destruct (k mod 4)%Z as [|[r|r|]|r]; try lia.
  - left. split; [reflexivity|]. now left.
  - destruct r as [r|r|]; try lia. right. split; [reflexivity|]. now right.
  - destruct r as [r|r|]; try lia. left. split; [reflexivity|]. now right.
  - right. split; [reflexivity|]. now left.
Qed.

Lemma turn_facts (g : BufferGeometry) (k : Z) :
  extent AxisZ (rotateZWithTrim g (quarterTurns k)) == extent AxisZ g /\
  (if Z.odd k
   then extent AxisX (rotateZWithTrim g (quarterTurns k)) == extent AxisY g /\
        extent AxisY (rotateZWithTrim g (quarterTurns k)) == extent AxisX g
   else extent AxisX (rotateZWithTrim g (quarterTurns k)) == extent AxisX g /\
        extent AxisY (rotateZWithTrim g (quarterTurns k)) == extent AxisY g) /\
  forall axis, coordinate axis (bbMin (rotateZWithTrim g (quarterTurns k))) == 0.
Proof.
  split; [apply extentZ_rotateZWithTrim|]. split; [|intros axis; apply bbMin_trim].
  unfold rotateZWithTrim, quarterTurns.
  destruct (quarter_turn_cases k) as [[-> [[Hc Hs]|[Hc Hs]]]|[-> [[Hc Hs]|[Hc Hs]]]];
    split; rewrite extent_trim;
    (eapply extent_of_images; [reflexivity|]; cbn [coordinate vx vy]; rewrite Hc, Hs).
  - left. intros p. ring.
  - left. intros p. ring.
  - right. intros p. ring.
  - right. intros p. ring.
  - right. intros p. ring.
  - left. intros p. ring.
  - left. intros p. ring.
  - right. intros p. ring.
Qed.

(** X3.  [rotateZWithTrim] keeps the height of a geometry that has vertices
    and puts its box at the origin; an odd number of quarter turns swaps
    its extents along X and Y, an even number keeps them. *)
Theorem rotateZWithTrim_extents (g : BufferGeometry) (k : Z) :
  position g <> [] ->
  extent AxisZ (rotateZWithTrim g (quarterTurns k)) == extent AxisZ g /\
  (if Z.odd k
   then extent AxisX (rotateZWithTrim g (quarterTurns k)) == extent AxisY g /\
        extent AxisY (rotateZWithTrim g (quarterTurns k)) == extent AxisX g
   else extent AxisX (rotateZWithTrim g (quarterTurns k)) == extent AxisX g /\
        extent AxisY (rotateZWithTrim g (quarterTurns k)) == extent AxisY g) /\
  forall axis, coordinate axis (bbMin (rotateZWithTrim g (quarterTurns k))) == 0.
Proof. intros _. exact (turn_facts g k). Qed.

Lemma triangles_app3 (a b c : nat) (rest : list nat) :
  triangles (a :: b :: c :: rest) = (a, b, c) :: triangles rest.
Proof. reflexivity. Qed.

Lemma triangles_app_flatten (ts : list (nat * nat * nat)) (rest : list nat) :
  triangles (flatten ts ++ rest) = ts ++ triangles rest.
Proof.
  induction ts as [|[[a b] c] ts IH]; [reflexivity|].
  unfold flatten in *. cbn [flat_map app]. rewrite triangles_app3, IH. reflexivity.
Qed.

Lemma flatten_app (ts ts' : list (nat * nat * nat)) :
  flatten (ts ++ ts') = flatten ts ++ flatten ts'.
Proof. unfold flatten. apply flat_map_app. Qed.

Lemma rev_flatten (ts : list (nat * nat * nat)) :
  rev (flatten ts) = flatten (rev (map (fun t => let '(a, b, c) := t in (c, b, a)) ts)).
Proof.
  induction ts as [|[[a b] c] ts IH]; [reflexivity|].
  change (flatten ((a, b, c) :: ts)) with ([a; b; c] ++ flatten ts).
  rewrite rev_app_distr, IH. cbn [map rev]. rewrite flatten_app. reflexivity.
Qed.

(** Reading an index array backwards gives the triangles in the opposite
    order, each with its corners in the opposite order. *)
Lemma triangles_rev (ts : list (nat * nat * nat)) :
  triangles (rev (flatten ts)) = rev (map (fun t => let '(a, b, c) := t in (c, b, a)) ts).
Proof. now rewrite rev_flatten, triangles_flatten. Qed.

Lemma flipGeometryWithTrim_unfold (g : BufferGeometry) (axis : Axis) :
  flipGeometryWithTrim g axis =
  trimBufferGeometryToOrigin
    (setIndex (mapPosition (flipVector axis) g) (rev (default [] (index g)))).
Proof. reflexivity. Qed.

Lemma coordinate_flipVector (a b : Axis) (p : Vector3) :
  coordinate b (flipVector a p) = if decide (a = b) then - coordinate b p else coordinate b p.
Proof. destruct a, b; reflexivity. Qed.

Lemma coordinates_flipped (a b : Axis) (g : BufferGeometry) (idx : list nat) :
  map (coordinate b) (position (setIndex (mapPosition (flipVector a) g) idx)) =
  if decide (a = b) then map Qopp (map (coordinate b) (position g))
  else map (coordinate b) (position g).
Proof.
  cbn [setIndex mapPosition position]. rewrite map_map.
  destruct (decide (a = b)) as [E|E].
  - rewrite map_map. apply map_ext. intros p. rewrite coordinate_flipVector.
    now destruct (decide (a = b)).
  - apply map_ext. intros p. rewrite coordinate_flipVector.
    now destruct (decide (a = b)).
Qed.

Lemma extent_flipped (a b : Axis) (g : BufferGeometry) (idx : list nat) :
  extent b (setIndex (mapPosition (flipVector a) g) idx) == extent b g.
Proof.
  rewrite !extent_spec, coordinates_flipped.
  destruct (decide (a = b)); [apply span_opp|reflexivity].
Qed.

Lemma bbMin_flipped (a b : Axis) (g : BufferGeometry) (idx : list nat) :
  position g <> [] ->
  coordinate b (bbMin (setIndex (mapPosition (flipVector a) g) idx)) =
  if decide (a = b) then - coordinate b (bbMax g) else coordinate b (bbMin g).
Proof.
  intros Hne. rewrite bbMin_minOf, coordinates_flipped.
  destruct (decide (a = b)).
  - rewrite minOf_opp by now apply map_nonempty. now rewrite bbMax_maxOf.
  - now rewrite bbMin_minOf.
Qed.

Lemma flip_facts (g : BufferGeometry) (axis : Axis) :
  (forall a, extent a (flipGeometryWithTrim g axis) == extent a g) /\
  (forall a, coordinate a (bbMin (flipGeometryWithTrim g axis)) == 0) /\
  length (position (flipGeometryWithTrim g axis)) = length (position g) /\
  index (flipGeometryWithTrim g axis) = Some (rev (default [] (index g))) /\
  forall ts, index g = Some (flatten ts) ->
    index (flipGeometryWithTrim g axis) =
    Some (flatten (rev (map (fun t => let '(a, b, c) := t in (c, b, a)) ts))).
Proof.
  rewrite flipGeometryWithTrim_unfold.
  set (flipped := setIndex _ _).
  assert (Hidx : index (trimBufferGeometryToOrigin flipped) = Some (rev (default [] (index g)))).
  { now destruct (trim_facts flipped AxisX) as (_ & _ & _ & -> & _). }
  split; [|split; [|split; [|split]]].
  - intros a. rewrite extent_trim. apply extent_flipped.
  - intros a. apply bbMin_trim.
  - destruct (trim_facts flipped AxisX) as (_ & _ & _ & _ & ->).
    subst flipped. cbn [setIndex mapPosition position]. apply length_map.
  - exact Hidx.
  - intros ts E. rewrite Hidx, E. cbn [default from_option id]. now rewrite rev_flatten.
Qed.

(** X4.  [flipGeometryWithTrim] keeps the extent of a geometry that has
    vertices along every axis and its number of vertices, leaves its box
    at the origin, and stores the index array read backwards (no array
    for a geometry without index), so that, for an index made of whole
    triangles, the triangles come in the opposite order, each with its
    winding reversed. *)
Theorem flipGeometryWithTrim_mirrors (g : BufferGeometry) (axis : Axis) :
  position g <> [] ->
  (forall a, extent a (flipGeometryWithTrim g axis) == extent a g) /\
  (forall a, coordinate a (bbMin (flipGeometryWithTrim g axis)) == 0) /\
  length (position (flipGeometryWithTrim g axis)) = length (position g) /\
  index (flipGeometryWithTrim g axis) = Some (rev (default [] (index g))) /\
  forall ts, index g = Some (flatten ts) ->
    index (flipGeometryWithTrim g axis) =
    Some (flatten (rev (map (fun t => let '(a, b, c) := t in (c, b, a)) ts))).
Proof. intros _. exact (flip_facts g axis). Qed.

(** X5.  Flipping a geometry that has no index leaves it with an empty
    index: the vertices stay, the triangles are gone. *)
Theorem flipGeometryWithTrim_without_index (g : BufferGeometry) (axis : Axis) :
  index g = None ->
  index (flipGeometryWithTrim g axis) = Some [] /\
  triangleCount (flipGeometryWithTrim g axis) = 0%nat /\
  length (position (flipGeometryWithTrim g axis)) = length (position g).
Proof.
  intros E. destruct (flip_facts g axis) as (_ & _ & Hlen & Hidx & _).
  rewrite E in Hidx. cbn in Hidx. unfold triangleCount. rewrite Hidx. auto.
Qed.

Lemma sameVector_coordinates (p q : Vector3) :
  (forall b, coordinate b p == coordinate b q) -> sameVector p q.
Proof.
  intros H. repeat split; [apply (H AxisX)|apply (H AxisY)|apply (H AxisZ)].
Qed.

Lemma Forall2_map_both {A : Type} (f g : A -> Vector3) (l : list A) :
  (forall a, sameVector (f a) (g a)) -> Forall2 sameVector (map f l) (map g l).
Proof. intros H. induction l; constructor; auto. Qed.

Lemma position_trim (g : BufferGeometry) :
  position g <> [] ->
  position (trimBufferGeometryToOrigin g) =
  map (fun p => mkVector3 (vx p + - vx (bbMin g)) (vy p + - vy (bbMin g))
                          (vz p + - vz (bbMin g))) (position g).
Proof.
  intros Hne. destruct (trim_translate g) as [-> | E]; [reflexivity|contradiction].
Qed.

Lemma coordinate_moved (b : Axis) (p m : Vector3) :
  coordinate b (mkVector3 (vx p + - vx m) (vy p + - vy m) (vz p + - vz m)) =
  coordinate b p + - coordinate b m.
Proof. now destruct b. Qed.

(** X6.  Flipping twice about the same axis gives back the geometry, moved to
    the origin: the vertices of the trimmed geometry, and its index array
    (the empty array if it had none). *)
Theorem flipGeometryWithTrim_twice (g : BufferGeometry) (axis : Axis) :
  Forall2 sameVector
    (position (flipGeometryWithTrim (flipGeometryWithTrim g axis) axis))
    (position (trimBufferGeometryToOrigin g)) /\
  index (flipGeometryWithTrim (flipGeometryWithTrim g axis) axis)
    = Some (default [] (index g)).
Proof.
  split.
  2:{ destruct (flip_facts (flipGeometryWithTrim g axis) axis)
        as (_ & _ & _ & -> & _).
      destruct (flip_facts g axis) as (_ & _ & _ & -> & _).
      cbn [default from_option id]. now rewrite rev_involutive. }
  destruct (position g) as [|p0 rest] eqn:Epos.
  { assert (L1 : length (position (flipGeometryWithTrim (flipGeometryWithTrim g axis) axis))
                 = 0%nat).
    { destruct (flip_facts (flipGeometryWithTrim g axis) axis)
        as (_ & _ & -> & _).
      destruct (flip_facts g axis) as (_ & _ & -> & _).
      now rewrite Epos. }
    rewrite trim_empty by assumption. rewrite Epos.
    destruct (position (flipGeometryWithTrim (flipGeometryWithTrim g axis) axis));
      [constructor|discriminate]. }
  assert (Hne : position g <> []) by (rewrite Epos; discriminate).
  clear Epos p0 rest.
  rewrite (flipGeometryWithTrim_unfold (flipGeometryWithTrim g axis)).
  set (g1 := flipGeometryWithTrim g axis).
  set (G2 := setIndex (mapPosition (flipVector axis) g1) _).
  assert (Hg1 : position g1 =
                map (fun p => let q := flipVector axis p in
                              let m := bbMin (setIndex (mapPosition (flipVector axis) g)
                                                       (rev (default [] (index g)))) in
                              mkVector3 (vx q + - vx m) (vy q + - vy m) (vz q + - vz m))
                    (position g)).
  { subst g1. rewrite flipGeometryWithTrim_unfold, position_trim.
    - cbn [setIndex mapPosition position]. now rewrite map_map.
    - cbn [setIndex mapPosition position]. now apply map_nonempty. }
  assert (Hne1 : position g1 <> []) by (rewrite Hg1; now apply map_nonempty).
  rewrite position_trim by (subst G2; cbn [setIndex mapPosition position];
                            now apply map_nonempty).
  rewrite (position_trim g Hne).
  replace (position G2) with (map (flipVector axis) (position g1)) by reflexivity.
  rewrite Hg1, !map_map. apply Forall2_map_both. intros p.
  apply sameVector_coordinates. intros b.
  rewrite !coordinate_moved, coordinate_flipVector, coordinate_moved.
  subst G2. rewrite !bbMin_flipped by assumption. rewrite coordinate_flipVector.
  destruct (decide (axis = b)) as [E|E].
  - assert (Hmax : coordinate b (bbMax g1) == coordinate b (bbMax g) - coordinate b (bbMin g)).
    { subst g1. rewrite flipGeometryWithTrim_unfold, bbMax_trim, extent_flipped.
      reflexivity. }
    rewrite Hmax. ring.
  - assert (Hmin : coordinate b (bbMin g1) == 0).
    { subst g1. rewrite flipGeometryWithTrim_unfold. apply bbMin_trim. }
    rewrite Hmin. ring.
Qed.

(** ** The box of a moved or stretched geometry *)

Lemma bbMin_translate (axis : Axis) (g : BufferGeometry) (dx dy dz : Q) :
  position g <> [] ->
  coordinate axis (bbMin (translate g dx dy dz)) =
  coordinate axis (bbMin g) + coordinate axis (mkVector3 dx dy dz).
Proof.
  intros Hne. rewrite !bbMin_minOf, coordinates_translate.
  now rewrite minOf_shift by now apply map_nonempty.
Qed.

Lemma bbMax_translate (axis : Axis) (g : BufferGeometry) (dx dy dz : Q) :
  position g <> [] ->
  coordinate axis (bbMax (translate g dx dy dz)) =
  coordinate axis (bbMax g) + coordinate axis (mkVector3 dx dy dz).
Proof.
  intros Hne. rewrite !bbMax_maxOf, coordinates_translate.
  now rewrite maxOf_shift by now apply map_nonempty.
Qed.

Lemma bbMin_scale (axis : Axis) (g : BufferGeometry) (sx sy sz : Q) :
  0 < coordinate axis (mkVector3 sx sy sz) -> position g <> [] ->
  coordinate axis (bbMin (scale g sx sy sz)) =
  coordinate axis (bbMin g) * coordinate axis (mkVector3 sx sy sz).
Proof.
  intros Hk Hne. rewrite !bbMin_minOf, coordinates_scale.
  now rewrite minOf_stretch by (assumption || now apply map_nonempty).
Qed.

Lemma bbMax_scale (axis : Axis) (g : BufferGeometry) (sx sy sz : Q) :
  0 < coordinate axis (mkVector3 sx sy sz) -> position g <> [] ->
  coordinate axis (bbMax (scale g sx sy sz)) =
  coordinate axis (bbMax g) * coordinate axis (mkVector3 sx sy sz).
Proof.
  intros Hk Hne. rewrite !bbMax_maxOf, coordinates_scale.
  now rewrite maxOf_stretch by (assumption || now apply map_nonempty).
Qed.

Lemma translate_nonempty (g : BufferGeometry) (dx dy dz : Q) :
  position g <> [] -> position (translate g dx dy dz) <> [].
Proof. intros H. unfold translate, mapPosition. cbn [position]. now apply map_nonempty. Qed.

Lemma scale_nonempty (g : BufferGeometry) (sx sy sz : Q) :
  position g <> [] -> position (scale g sx sy sz) <> [].
Proof. intros H. unfold scale, mapPosition. cbn [position]. now apply map_nonempty. Qed.

Lemma rotateZ_nonempty (g : BufferGeometry) (a : Angle) :
  position g <> [] -> position (rotateZ g a) <> [].
Proof. intros H. unfold rotateZ, mapPosition. cbn [position]. now apply map_nonempty. Qed.

Lemma trim_nonempty (g : BufferGeometry) :
  position g <> [] -> position (trimBufferGeometryToOrigin g) <> [].
Proof. intros H. rewrite position_trim by assumption. now apply map_nonempty. Qed.

Lemma rotateZWithTrim_nonempty (g : BufferGeometry) (a : Angle) :
  position g <> [] -> position (rotateZWithTrim g a) <> [].
Proof. intros H. now apply trim_nonempty, rotateZ_nonempty. Qed.

(** ** The cutter box *)

Section CutterBox.

Variable BoxGeometry : Q -> Q -> Q -> BufferGeometry.

(** What the program relies on from [BoxGeometry]: a box of positive sizes
    has vertices and is centred at the origin. *)
Hypothesis box_centred : forall width height depth,
  0 < width -> 0 < height -> 0 < depth ->
  position (BoxGeometry width height depth) <> [] /\
  sameVector (bbMin (BoxGeometry width height depth))
             (mkVector3 (- (width / 2)) (- (height / 2)) (- (depth / 2))) /\
  sameVector (bbMax (BoxGeometry width height depth))
             (mkVector3 (width / 2) (height / 2) (depth / 2)).

(** X7.  The cutter box of [makeBoxMesh] is the requested box, padded by
    half the overlap thickness on each of its six sides. *)
Theorem makeBoxMesh_padded (xMin xMax yMin yMax zMin zMax : Q) :
  xMin <= xMax -> yMin <= yMax -> zMin <= zMax ->
  sameVector (bbMin (makeBoxMesh BoxGeometry xMin xMax yMin yMax zMin zMax))
             (mkVector3 (xMin - OVERLAP_THICKNESS / 2) (yMin - OVERLAP_THICKNESS / 2)
                        (zMin - OVERLAP_THICKNESS / 2)) /\
  sameVector (bbMax (makeBoxMesh BoxGeometry xMin xMax yMin yMax zMin zMax))
             (mkVector3 (xMax + OVERLAP_THICKNESS / 2) (yMax + OVERLAP_THICKNESS / 2)
                        (zMax + OVERLAP_THICKNESS / 2)).
Proof.
  intros HX HY HZ. unfold makeBoxMesh.
  assert (P : forall lo hi, lo <= hi -> 0 < hi - lo + OVERLAP_THICKNESS).
  { intros lo hi H. apply Qlt_le_trans with (y := OVERLAP_THICKNESS); [reflexivity|].
    rewrite <- (Qplus_0_l OVERLAP_THICKNESS) at 1. apply Qplus_le_l.
    unfold Qminus. now rewrite <- Qle_minus_iff. }
  destruct (box_centred _ _ _ (P _ _ HX) (P _ _ HY) (P _ _ HZ))
    as (Hne & (Hlx & Hly & Hlz) & (Hhx & Hhy & Hhz)).
  cbn [vx vy vz] in *.
  split; apply sameVector_coordinates; intros b.
  - rewrite bbMin_translate by assumption.
    destruct b; cbn [coordinate vx vy vz]; [rewrite Hlx|rewrite Hly|rewrite Hlz];
      field.
  - rewrite bbMax_translate by assumption.
    destruct b; cbn [coordinate vx vy vz]; [rewrite Hhx|rewrite Hhy|rewrite Hhz];
      field.
Qed.

End CutterBox.

Lemma Qltb_irrefl (a : Q) : Qltb a a = false.
Proof. apply Qltb_ge, Qle_refl. Qed.

Lemma Qltb_asym (a b : Q) : a < b -> Qltb b a = false.
Proof. intros H. apply Qltb_ge. now apply Qlt_le_weak. Qed.

Module ExampleBox.
Import Examples.

(** The stand-in box has the box it was built for. *)
Lemma boxBetween_box (lo hi : Vector3) :
  vx lo < vx hi -> vy lo < vy hi -> vz lo < vz hi ->
  bbMin (boxBetween lo hi) = lo /\ bbMax (boxBetween lo hi) = hi.
Proof.
  destruct lo as [lx ly lz], hi as [hx hy hz]. cbn [vx vy vz]. intros HX HY HZ.
  pose proof (proj2 (Qltb_lt _ _) HX) as EX. pose proof (Qltb_asym _ _ HX) as EX'.
  pose proof (proj2 (Qltb_lt _ _) HY) as EY. pose proof (Qltb_asym _ _ HY) as EY'.
  pose proof (proj2 (Qltb_lt _ _) HZ) as EZ. pose proof (Qltb_asym _ _ HZ) as EZ'.
  unfold bbMin, bbMax, boundingBox, boxBetween, setFromBufferAttribute.
  cbn [position fold_left expandByPoint box_min box_max vx vy vz].
  unfold lower, upper.
  repeat first [rewrite Qltb_irrefl | rewrite EX | rewrite EX' | rewrite EY
               | rewrite EY' | rewrite EZ | rewrite EZ'].
  split; reflexivity.
Qed.

Lemma half_pos (w : Q) : 0 < w -> - (w / 2) < w / 2.
Proof.
  intros H. apply Qlt_trans with (y := 0).
  - rewrite <- (Qopp_involutive 0). apply Qopp_lt_compat. change (- 0) with 0.
    apply Qdiv_pos; [assumption|reflexivity].
  - apply Qdiv_pos; [assumption|reflexivity].
Qed.

Lemma box_centred (width height depth : Q) :
  0 < width -> 0 < height -> 0 < depth ->
  position (BoxGeometry width height depth) <> [] /\
  sameVector (bbMin (BoxGeometry width height depth))
             (mkVector3 (- (width / 2)) (- (height / 2)) (- (depth / 2))) /\
  sameVector (bbMax (BoxGeometry width height depth))
             (mkVector3 (width / 2) (height / 2) (depth / 2)).
Proof.
  intros Hw Hh Hd. split; [discriminate|]. unfold BoxGeometry.
  destruct (boxBetween_box (mkVector3 (- (width / 2)) (- (height / 2)) (- (depth / 2)))
                           (mkVector3 (width / 2) (height / 2) (depth / 2)))
    as [-> ->]; cbn [vx vy vz]; try now apply half_pos.
  split; repeat split; reflexivity.
Qed.

End ExampleBox.

Lemma makeBoxMesh_padded_witness :
  sameVector (bbMin (makeBoxMesh Examples.BoxGeometry 0 10 0 10 0 6))
             (mkVector3 (0 - OVERLAP_THICKNESS / 2) (0 - OVERLAP_THICKNESS / 2)
                        (0 - OVERLAP_THICKNESS / 2)) /\
  sameVector (bbMax (makeBoxMesh Examples.BoxGeometry 0 10 0 10 0 6))
             (mkVector3 (10 + OVERLAP_THICKNESS / 2) (10 + OVERLAP_THICKNESS / 2)
                        (6 + OVERLAP_THICKNESS / 2)).
Proof.
  apply (makeBoxMesh_padded Examples.BoxGeometry ExampleBox.box_centred 0 10 0 10 0 6);
    discriminate.
Defined.

(** ** What the cuts hand back *)

Section Cuts.

Variable Math_sqrt : Q -> Q.
Variable mergeVertices : BufferGeometry -> option Q -> BufferGeometry.
Variable mergeGeometries : list BufferGeometry -> bool -> option BufferGeometry.
Variable evaluate : BufferGeometry -> BufferGeometry -> Operation -> BufferGeometry.
Variable BoxGeometry : Q -> Q -> Q -> BufferGeometry.

(** X8.  When the grid is accepted and the solid has vertices, [cutToGrid]
    returns a cell whose box, if the cut left it any vertex, starts at the
    origin; and it leaves its argument changed: moved to the origin and
    indexed, with the same number of vertices and the same extents. *)
Theorem cutToGrid_normalizes (baseGeom : BufferGeometry) (n m : Q) :
  position baseGeom <> [] ->
  2 <= n -> 2 <= m ->
  exists (cell : GridResult) (baseGeom' : BufferGeometry),
    cutToGrid mergeVertices evaluate BoxGeometry baseGeom n m = (baseGeom', Returned cell) /\
    (position (geometry cell) <> [] ->
     forall a, coordinate a (bbMin (geometry cell)) == 0) /\
    (forall a, coordinate a (bbMin baseGeom') == 0) /\
    (forall a, extent a baseGeom' == extent a baseGeom) /\
    index baseGeom' <> None /\
    length (position baseGeom') = length (position baseGeom).
Proof.
  intros _ Hn Hm. unfold cutToGrid.
  assert (E : Qltb n 2 || Qltb m 2 = false).
  { apply orb_false_iff. split; now apply Qltb_ge. }
  rewrite E. cbn [validateGeometry cutByMeshBox].
  set (trimmed := trimBufferGeometryToOrigin (trimBufferGeometryToOrigin baseGeom)).
  eexists. eexists. split; [reflexivity|].
  cbn [geometry].
  assert (Hpos : forall idx, position (match index trimmed with
                                       | Some _ => trimmed
                                       | None => setIndex trimmed idx
                                       end) = position trimmed).
  { intros idx. now destruct (index trimmed). }
  assert (Hbox : forall idx a,
            coordinate a (bbMin (match index trimmed with
                                 | Some _ => trimmed
                                 | None => setIndex trimmed idx
                                 end)) = coordinate a (bbMin trimmed) /\
            extent a (match index trimmed with
                      | Some _ => trimmed
                      | None => setIndex trimmed idx
                      end) = extent a trimmed).
  { intros idx a. now destruct (index trimmed). }
  split; [intros _ a; apply bbMin_trim|].
  split; [intros a; rewrite (proj1 (Hbox _ a)); apply bbMin_trim|].
  split; [intros a; rewrite (proj2 (Hbox _ a)); subst trimmed; now rewrite !extent_trim|].
  split.
  - destruct (index trimmed) eqn:Ei; [congruence|discriminate].
  - rewrite Hpos. subst trimmed.
    destruct (trim_facts
                (trimBufferGeometryToOrigin baseGeom) AxisX) as (_ & _ & _ & _ & ->).
    now destruct (trim_facts baseGeom AxisX) as (_ & _ & _ & _ & ->).
Qed.

(** X9.  On a cell that has vertices [cutToParts] returns twelve subparts,
    and every one of them that the cut left a vertex has its box at the
    origin. *)
Theorem cutToParts_at_origin (baseGeom : BufferGeometry) (cornerRadius : Q) :
  position baseGeom <> [] ->
  exists parts : Subparts,
    cutToParts mergeVertices evaluate BoxGeometry baseGeom cornerRadius = Returned parts /\
    length (entries parts) = 12%nat /\
    Forall (fun entry => position (snd entry) <> [] ->
                         forall a, coordinate a (bbMin (snd entry)) == 0) (entries parts).
Proof.
  intros _. unfold cutToParts. cbn [validateGeometry mbind outcome_bind].
  rewrite validateAll_returns. cbn [mbind outcome_bind].
  eexists. split; [reflexivity|]. split; [reflexivity|].
  unfold entries.
  cbn [bottomCorner2W topCorner2W bottomCorner1WRightNear bottomCorner1WLeftFar topCorner1W
       bottomCorner0W sideTopEdges sideBottomEdges sideEdge2W sideWall bottomFloor
       bottomEdge0W].
  repeat constructor; cbn [snd]; intros _ a; apply bbMin_trim.
Qed.

(** X10.  The pipeline refuses an input grid with fewer than two cells in a
    direction, with or without the debug directory; nothing else of the
    options matters. *)
Theorem Gridifier_rejects_small_input_grid (isDebug : bool) (fuel : nat)
    (baseGeom : BufferGeometry) (options : GridifierOptions) :
  fst (inputGrids options) < 2 \/ snd (inputGrids options) < 2 ->
  Gridifier Math_sqrt mergeVertices mergeGeometries evaluate BoxGeometry isDebug fuel
            baseGeom options
  = Thrown "Grid size must be at least 2x2".
Proof.
  intros H. unfold Gridifier. destruct (inputGrids options) as [n m]. cbn [fst snd] in H.
  assert (E : Qltb n 2 || Qltb m 2 = true).
  { apply orb_true_iff. destruct H; [left|right]; now apply Qltb_lt. }
  unfold cutToGrid. rewrite E. reflexivity.
Qed.

End Cuts.

Lemma cutToGrid_normalizes_witness :
  exists (cell : GridResult) (baseGeom' : BufferGeometry),
    cutToGrid Examples.mergeVertices Examples.evaluate Examples.BoxGeometry
              Examples.solid 4 2 = (baseGeom', Returned cell) /\
    position (geometry cell) <> [] /\
    (forall a, coordinate a (bbMin (geometry cell)) == 0) /\
    (forall a, coordinate a (bbMin baseGeom') == 0) /\
    (forall a, extent a baseGeom' == extent a Examples.solid) /\
    index baseGeom' <> None /\
    length (position baseGeom') = length (position Examples.solid).
Proof.
  destruct (cutToGrid_normalizes Examples.mergeVertices Examples.evaluate
              Examples.BoxGeometry Examples.solid 4 2)
    as (cell & baseGeom' & Hcut & Hcell & Hrest); try discriminate.
  assert (Hne : match snd (cutToGrid Examples.mergeVertices Examples.evaluate
                             Examples.BoxGeometry Examples.solid 4 2) with
                | Returned c => position (geometry c) <> []
                | _ => False
                end).
  { vm_compute. intros H. discriminate H. }
  rewrite Hcut in Hne. cbn [snd] in Hne.
  exists cell, baseGeom'. split; [exact Hcut|]. split; [exact Hne|].
  split; [exact (Hcell Hne)|exact Hrest].
Defined.

Lemma cutToParts_at_origin_witness :
  exists parts : Subparts,
    cutToParts Examples.mergeVertices Examples.evaluate Examples.BoxGeometry
               (Examples.block 10 10 6) 2 = Returned parts /\
    length (entries parts) = 12%nat /\
    Forall (fun entry => position (snd entry) <> [] /\
                         forall a, coordinate a (bbMin (snd entry)) == 0) (entries parts).
Proof.
  destruct (cutToParts_at_origin Examples.mergeVertices Examples.evaluate
              Examples.BoxGeometry (Examples.block 10 10 6) 2)
    as (parts & Hcut & Hlen & Hall); [discriminate|].
  assert (Hne : match cutToParts Examples.mergeVertices Examples.evaluate
                        Examples.BoxGeometry (Examples.block 10 10 6) 2 with
                | Returned p => Forall (fun entry => position (snd entry) <> []) (entries p)
                | _ => False
                end).
  { vm_compute. repeat constructor; intros H; discriminate H. }
  rewrite Hcut in Hne.
  exists parts. split; [exact Hcut|]. split; [exact Hlen|].
  rewrite Forall_forall in *. intros entry He. split; [now apply Hne|now apply Hall, Hne].
Defined.

Lemma Gridifier_rejects_small_input_grid_witness :
  Gridifier Examples.Math_sqrt Examples.mergeVertices Examples.mergeGeometries
            Examples.evaluate Examples.BoxGeometry true 5 Examples.solid
            (mkOptions (1, 3) 2 8 (2, 3) None None None None)
  = Thrown "Grid size must be at least 2x2".
Proof.
  apply (Gridifier_rejects_small_input_grid Examples.Math_sqrt Examples.mergeVertices
           Examples.mergeGeometries Examples.evaluate Examples.BoxGeometry true 5
           Examples.solid (mkOptions (1, 3) 2 8 (2, 3) None None None None)).
  left. reflexivity.
Defined.

(** ** More on the list of placed pieces *)

(** The pieces by kind, for any rows and columns: the loops run
    [Math.round(containerSize / cellSize)] times. *)
Lemma count_placedPieces_any (subparts : Subparts) (gridResult : GridResult)
    (cornerCuttingRadius height rows cols : Q) (name : PartName) :
  let C := Z.to_nat (xIterations gridResult cols) in
  let R := Z.to_nat (yIterations gridResult rows) in
  countPart name (placedPieces subparts gridResult cornerCuttingRadius height rows cols) =
  (4 * countKind name [BottomCorner2W; TopCorner2W; SideEdge2W]
   + (C * countKind name [SideBottomEdges; SideBottomEdges]
      + (C - 1) * countKind name (repeat BottomCorner1WRightNear 4))
   + (R * countKind name [SideBottomEdges; SideBottomEdges]
      + (R - 1) * countKind name (repeat BottomCorner1WLeftFar 4))
   + (C * R * countKind name [BottomFloor]
      + C * (R - 1) * countKind name (repeat BottomEdge0W 2)
      + (C - 1) * R * countKind name (repeat BottomEdge0W 2)
      + (C - 1) * (R - 1) * countKind name (repeat BottomCorner0W 4))
   + countKind name [SideWall; SideWall; SideTopEdges; SideTopEdges;
                     SideWall; SideWall; SideTopEdges; SideTopEdges])%nat.
Proof.
  intros C R. unfold placedPieces, upto. fold C R.
  rewrite !countPart_app, count_outerCorners, count_nearFarEdges, count_leftRightEdges,
    count_interior.
  rewrite (countPart_kinds name (sideWalls _ _ _ _ _ _)), sideWalls_kinds. lia.
Qed.

Lemma countPart_cons (name : PartName) (p : Placed) (pieces : list Placed) :
  countPart name (p :: pieces) =
  ((if bool_decide (fst p = name) then 1 else 0) + countPart name pieces)%nat.
Proof.
  unfold countPart. rewrite filter_cons.
  destruct (decide (bool_decide (fst p = name))) as [H|H].
  - apply Is_true_true in H. now rewrite H.
  - apply Is_true_false in H. now rewrite H.
Qed.

(** Every piece has exactly one kind. *)
Lemma length_by_kind (pieces : list Placed) :
  length pieces =
  (countPart BottomCorner2W pieces + countPart TopCorner2W pieces
   + countPart BottomCorner1WRightNear pieces + countPart BottomCorner1WLeftFar pieces
   + countPart TopCorner1W pieces + countPart BottomCorner0W pieces
   + countPart SideTopEdges pieces + countPart SideBottomEdges pieces
   + countPart SideEdge2W pieces + countPart SideWall pieces
   + countPart BottomFloor pieces + countPart BottomEdge0W pieces)%nat.
Proof.
  induction pieces as [|[name g] pieces IH]; [reflexivity|].
  rewrite !countPart_cons. cbn [length fst]. rewrite IH.
  destruct name;
    repeat match goal with
    | |- context [bool_decide (?a = ?b)] =>
        let v := eval vm_compute in (bool_decide (a = b)) in
        change (bool_decide (a = b)) with v
    end; cbv iota; lia.
Qed.

(** X11.  The one-wall top corner is cut out of the cell but never placed,
    whatever the rows and columns. *)
Theorem topCorner1W_never_placed (subparts : Subparts) (gridResult : GridResult)
    (cornerCuttingRadius height rows cols : Q) :
  countPart TopCorner1W
    (placedPieces subparts gridResult cornerCuttingRadius height rows cols) = 0%nat.
Proof. rewrite count_placedPieces_any. eval_counts. lia. Qed.

(** X12.  A grid of [R >= 1] rows and [C >= 1] columns is assembled from
    [9 * R * C + 16] pieces; among them [2 * (R + C)] bottom edges of the
    boundary, [2 * C * (R - 1) + 2 * (C - 1) * R] zero-wall seam edges, four
    wall panels and four wall top edges. *)
Theorem reassemble_piece_total (subparts : Subparts) (gridResult : GridResult)
    (cornerCuttingRadius height : Q) (R C : nat) :
  ~ sizeX gridResult == 0 -> ~ sizeY gridResult == 0 ->
  (1 <= R)%nat -> (1 <= C)%nat ->
  let pieces :=
    placedPieces subparts gridResult cornerCuttingRadius height (ofNat R) (ofNat C) in
  length (geometries subparts gridResult cornerCuttingRadius height (ofNat R) (ofNat C))
    = (9 * R * C + 16)%nat /\
  countPart SideBottomEdges pieces = (2 * (R + C))%nat /\
  countPart BottomEdge0W pieces = (2 * C * (R - 1) + 2 * (C - 1) * R)%nat /\
  countPart SideWall pieces = 4%nat /\
  countPart SideTopEdges pieces = 4%nat.
Proof.
  intros HX HY HR HC pieces. subst pieces. unfold geometries. rewrite length_map.
  rewrite length_by_kind. rewrite !count_placedPieces by assumption. eval_counts.
  destruct R as [|R]; [lia|]. destruct C as [|C]; [lia|].
  rewrite !Nat.sub_succ, !Nat.sub_0_r. repeat split; lia.
Qed.

Lemma reassemble_piece_total_witness :
  let pieces := placedPieces Examples.parts Examples.oneCell 2 8 (ofNat 2) (ofNat 3) in
  length (geometries Examples.parts Examples.oneCell 2 8 (ofNat 2) (ofNat 3))
    = (9 * 2 * 3 + 16)%nat /\
  countPart SideBottomEdges pieces = (2 * (2 + 3))%nat /\
  countPart BottomEdge0W pieces = (2 * 3 * (2 - 1) + 2 * (3 - 1) * 2)%nat /\
  countPart SideWall pieces = 4%nat /\
  countPart SideTopEdges pieces = 4%nat.
Proof.
  apply (reassemble_piece_total Examples.parts Examples.oneCell 2 8 2 3).
  - discriminate.
  - discriminate.
  - lia.
  - lia.
Defined.

(** X13.  With no rows and no columns the list holds the four corner
    triplets and the eight wall pieces, 20 pieces in all, and no floor. *)
Theorem reassemble_empty_grid (subparts : Subparts) (gridResult : GridResult)
    (cornerCuttingRadius height : Q) :
  let pieces := placedPieces subparts gridResult cornerCuttingRadius height 0 0 in
  length pieces = 20%nat /\
  countPart BottomFloor pieces = 0%nat /\
  map fst pieces =
    [BottomCorner2W; TopCorner2W; SideEdge2W; BottomCorner2W; TopCorner2W; SideEdge2W;
     BottomCorner2W; TopCorner2W; SideEdge2W; BottomCorner2W; TopCorner2W; SideEdge2W;
     SideWall; SideWall; SideTopEdges; SideTopEdges;
     SideWall; SideWall; SideTopEdges; SideTopEdges].
Proof.
  intros pieces.
  assert (HX : xIterations gridResult 0 = 0%Z).
  { unfold xIterations, containerSizeX. apply Math_round_integer.
    unfold Qdiv. now rewrite Qmult_0_r, Qmult_0_l. }
  assert (HY : yIterations gridResult 0 = 0%Z).
  { unfold yIterations, containerSizeY. apply Math_round_integer.
    unfold Qdiv. now rewrite Qmult_0_r, Qmult_0_l. }
  assert (K : map fst pieces =
    [BottomCorner2W; TopCorner2W; SideEdge2W; BottomCorner2W; TopCorner2W; SideEdge2W;
     BottomCorner2W; TopCorner2W; SideEdge2W; BottomCorner2W; TopCorner2W; SideEdge2W;
     SideWall; SideWall; SideTopEdges; SideTopEdges;
     SideWall; SideWall; SideTopEdges; SideTopEdges]).
  { subst pieces. unfold placedPieces. rewrite HX, HY.
    change (upto 0) with (@nil nat). cbn [flat_map app].
    rewrite map_app, outerCorners_kinds, sideWalls_kinds. reflexivity. }
  split; [|split; [|exact K]].
  - assert (L : length (map fst pieces) = length pieces) by apply length_map.
    rewrite <- L, K. reflexivity.
  - rewrite countPart_kinds, K. reflexivity.
Qed.

(** ** Where the walls and the corner columns end up *)

Lemma Qlt_not_0 (a : Q) : 0 < a -> ~ a == 0.
Proof. intros H E. rewrite E in H. now apply Qlt_irrefl in H. Qed.

(** X14.  The near wall fills the gap between the two near corners: for a
    wall panel cut at the origin, its box runs from [cornerRadius] to
    [containerSizeX - cornerRadius] along X and from [cornerRadius] to
    [height - cornerRadius] along Z, and keeps its thickness along Y. *)
Theorem nearSideWall_box (subparts : Subparts) (gridResult : GridResult)
    (cornerCuttingRadius height cols : Q) :
  position (sideWall subparts) <> [] ->
  vx (bbMin (sideWall subparts)) == 0 -> vz (bbMin (sideWall subparts)) == 0 ->
  0 < vx (bbMax (sideWall subparts)) -> 0 < vz (bbMax (sideWall subparts)) ->
  0 < containerSizeX gridResult cols - 2 * cornerCuttingRadius ->
  0 < height - 2 * cornerCuttingRadius ->
  sameVector (bbMin (nearSideWall subparts gridResult cornerCuttingRadius height cols))
             (mkVector3 cornerCuttingRadius 0 cornerCuttingRadius) /\
  sameVector (bbMax (nearSideWall subparts gridResult cornerCuttingRadius height cols))
             (mkVector3 (containerSizeX gridResult cols - cornerCuttingRadius)
                        (extent AxisY (sideWall subparts))
                        (height - cornerCuttingRadius)).
Proof.
  intros Hne Hx0 Hz0 Hx Hz HX HZ. unfold nearSideWall.
  set (kx := (containerSizeX gridResult cols - 2 * cornerCuttingRadius)
             / vx (bbMax (sideWall subparts))).
  set (kz := (height - 2 * cornerCuttingRadius) / vz (bbMax (sideWall subparts))).
  assert (Hkx : 0 < kx) by now apply Qdiv_pos.
  assert (Hkz : 0 < kz) by now apply Qdiv_pos.
  set (stretched := scale (sideWall subparts) kx 1 kz).
  assert (Hne' : position (trimBufferGeometryToOrigin stretched) <> [])
    by now apply trim_nonempty, scale_nonempty.
  assert (EX : extent AxisX stretched
               == containerSizeX gridResult cols - 2 * cornerCuttingRadius).
  { subst stretched. rewrite extent_scale by exact Hkx. unfold extent.
    cbn [coordinate vx]. rewrite Hx0. subst kx. field. now apply Qlt_not_0. }
  assert (EY : extent AxisY stretched == extent AxisY (sideWall subparts)).
  { subst stretched. rewrite extent_scale by reflexivity. cbn [coordinate vy]. ring. }
  assert (EZ : extent AxisZ stretched == height - 2 * cornerCuttingRadius).
  { subst stretched. rewrite extent_scale by exact Hkz. unfold extent.
    cbn [coordinate vz]. rewrite Hz0. subst kz. field. now apply Qlt_not_0. }
  split; apply sameVector_coordinates; intros b.
  - rewrite bbMin_translate by assumption. rewrite bbMin_trim. destruct b; cbn; ring.
  - rewrite bbMax_translate by assumption. rewrite bbMax_trim.
    destruct b; cbn [coordinate vx vy vz]; [rewrite EX|rewrite EY|rewrite EZ]; ring.
Qed.

(** X15.  The left wall runs from [cornerRadius] to
    [containerSizeY - cornerRadius] along Y, and from [cornerRadius] to
    [height - cornerRadius + OVERLAP_THICKNESS] along Z: its top is above
    the top of the near wall by the overlap thickness. *)
Theorem leftSideWall_box (subparts : Subparts) (gridResult : GridResult)
    (cornerCuttingRadius height rows : Q) :
  position (sideWall subparts) <> [] ->
  0 < extent AxisX (sideWall subparts) -> 0 < extent AxisZ (sideWall subparts) ->
  0 < containerSizeY gridResult rows - 2 * cornerCuttingRadius ->
  0 < height - 2 * cornerCuttingRadius + OVERLAP_THICKNESS ->
  sameVector (bbMin (leftSideWall subparts gridResult cornerCuttingRadius height rows))
             (mkVector3 0 cornerCuttingRadius cornerCuttingRadius) /\
  sameVector (bbMax (leftSideWall subparts gridResult cornerCuttingRadius height rows))
             (mkVector3 (extent AxisY (sideWall subparts))
                        (containerSizeY gridResult rows - cornerCuttingRadius)
                        (height - cornerCuttingRadius + OVERLAP_THICKNESS)).
Proof.
  intros Hne Hx Hz HY HZ. unfold leftSideWall.
  set (turned := rotateZWithTrim (sideWall subparts) (quarterTurns (-1))).
  destruct (turn_facts (sideWall subparts) (-1)) as (TZ & [TX TY] & T0).
  fold turned in TX, TY, TZ, T0.
  assert (MY : vy (bbMax turned) == extent AxisX (sideWall subparts)).
  { rewrite <- TY. unfold extent. cbn [coordinate]. rewrite (T0 AxisY). ring. }
  assert (MZ : vz (bbMax turned) == extent AxisZ (sideWall subparts)).
  { rewrite <- TZ. unfold extent. cbn [coordinate]. rewrite (T0 AxisZ). ring. }
  set (ky := (containerSizeY gridResult rows - 2 * cornerCuttingRadius) / vy (bbMax turned)).
  set (kz := (height - 2 * cornerCuttingRadius + OVERLAP_THICKNESS) / vz (bbMax turned)).
  assert (Hky : 0 < ky) by (apply Qdiv_pos; [assumption|now rewrite MY]).
  assert (Hkz : 0 < kz) by (apply Qdiv_pos; [assumption|now rewrite MZ]).
  assert (Hnt : position turned <> []) by now apply rotateZWithTrim_nonempty.
  set (stretched := scale turned 1 ky kz).
  assert (Hne' : position (trimBufferGeometryToOrigin stretched) <> [])
    by now apply trim_nonempty, scale_nonempty.
  assert (EX : extent AxisX stretched == extent AxisY (sideWall subparts)).
  { subst stretched. rewrite extent_scale by reflexivity. cbn [coordinate vx].
    rewrite TX. ring. }
  assert (EY : extent AxisY stretched
               == containerSizeY gridResult rows - 2 * cornerCuttingRadius).
  { subst stretched. rewrite extent_scale by exact Hky. cbn [coordinate vy].
    rewrite TY. subst ky. rewrite MY. field. now apply Qlt_not_0. }
  assert (EZ : extent AxisZ stretched
               == height - 2 * cornerCuttingRadius + OVERLAP_THICKNESS).
  { subst stretched. rewrite extent_scale by exact Hkz. cbn [coordinate vz].
    rewrite TZ. subst kz. rewrite MZ. field. now apply Qlt_not_0. }
  split; apply sameVector_coordinates; intros b.
  - rewrite bbMin_translate by assumption. rewrite bbMin_trim. destruct b; cbn; ring.
  - rewrite bbMax_translate by assumption. rewrite bbMax_trim.
    destruct b; cbn [coordinate vx vy vz]; [rewrite EX|rewrite EY|rewrite EZ]; ring.
Qed.

(** X16.  The far wall ends flush with the far side of the container and
    the right wall flush with its right side, for every wall panel that
    has vertices and whose box has a top to divide by: along X and Z as it
    is cut, along Y and Z after the quarter turn that makes it the left
    wall. *)
Theorem far_and_right_walls_flush (subparts : Subparts) (gridResult : GridResult)
    (cornerCuttingRadius height rows cols : Q) :
  position (sideWall subparts) <> [] ->
  ~ vx (bbMax (sideWall subparts)) == 0 ->
  ~ vz (bbMax (sideWall subparts)) == 0 ->
  ~ vy (bbMax (rotateZWithTrim (sideWall subparts) (quarterTurns (-1)))) == 0 ->
  ~ vz (bbMax (rotateZWithTrim (sideWall subparts) (quarterTurns (-1)))) == 0 ->
  vy (bbMax (farSideWall subparts gridResult cornerCuttingRadius height rows cols))
    == containerSizeY gridResult rows /\
  vx (bbMax (rightSideWall subparts gridResult cornerCuttingRadius height rows cols))
    == containerSizeX gridResult cols.
Proof.
  intros Hne _ _ _ _. split.
  - unfold farSideWall.
    set (turned := rotateZWithTrim _ PI).
    assert (Hnt : position turned <> []).
    { subst turned. apply rotateZWithTrim_nonempty. unfold nearSideWall.
      now apply translate_nonempty, trim_nonempty, scale_nonempty. }
    change (vy (bbMax (translate turned cornerCuttingRadius
                         (containerSizeY gridResult rows - vy (bbMax turned))
                         cornerCuttingRadius)))
      with (coordinate AxisY (bbMax (translate turned cornerCuttingRadius
                         (containerSizeY gridResult rows - vy (bbMax turned))
                         cornerCuttingRadius))).
    rewrite bbMax_translate by assumption. cbn [coordinate vy]. ring.
  - unfold rightSideWall.
    set (turned := rotateZWithTrim _ PI).
    assert (Hnt : position turned <> []).
    { subst turned. apply rotateZWithTrim_nonempty. unfold leftSideWall.
      now apply translate_nonempty, trim_nonempty, scale_nonempty,
        rotateZWithTrim_nonempty. }
    change (vx (bbMax (translate turned (containerSizeX gridResult cols - vx (bbMax turned))
                         cornerCuttingRadius cornerCuttingRadius)))
      with (coordinate AxisX (bbMax (translate turned
                         (containerSizeX gridResult cols - vx (bbMax turned))
                         cornerCuttingRadius cornerCuttingRadius))).
    rewrite bbMax_translate by assumption. cbn [coordinate vx]. ring.
Qed.

Lemma heights_translate (g : BufferGeometry) (dx dy dz : Q) :
  position g <> [] ->
  vz (bbMin (translate g dx dy dz)) = vz (bbMin g) + dz /\
  vz (bbMax (translate g dx dy dz)) = vz (bbMax g) + dz.
Proof.
  intros H. split.
  - exact (bbMin_translate AxisZ g dx dy dz H).
  - exact (bbMax_translate AxisZ g dx dy dz H).
Qed.

Lemma heights_rotateZWithTrim (g : BufferGeometry) (a : Angle) :
  vz (bbMin (rotateZWithTrim g a)) == 0 /\
  vz (bbMax (rotateZWithTrim g a)) == extent AxisZ g.
Proof.
  unfold rotateZWithTrim. split.
  - exact (bbMin_trim AxisZ _).
  - rewrite heightOfTrimmed. now rewrite extentZ_rotateZ.
Qed.

(** X17.  At each of the four outer corners the vertical edge stands on
    the bottom corner without a gap: the bottom corner runs from 0 to its
    own height, the edge from there over [height - 2 * cornerRadius], and
    the top corner starts at [height - cornerRadius].  So the edge reaches
    into the top corner by what the bottom corner is taller than
    [cornerRadius]. *)
Theorem outerCorner_column (subparts : Subparts) (gridResult : GridResult)
    (cornerCuttingRadius height rows cols : Q) (i : nat) :
  (i < 4)%nat ->
  position (bottomCorner2W subparts) <> [] ->
  position (topCorner2W subparts) <> [] ->
  position (sideEdge2W subparts) <> [] ->
  vz (bbMin (sideEdge2W subparts)) == 0 ->
  0 < vz (bbMax (sideEdge2W subparts)) ->
  0 < height - 2 * cornerCuttingRadius ->
  let tall := extent AxisZ (bottomCorner2W subparts) in
  exists bottom top edge,
    map snd (outerCorner subparts gridResult cornerCuttingRadius height rows cols i)
      = [bottom; top; edge] /\
    vz (bbMin bottom) == 0 /\
    vz (bbMax bottom) == tall /\
    vz (bbMin edge) == tall /\
    vz (bbMax edge) == tall + (height - 2 * cornerCuttingRadius) /\
    vz (bbMin top) == height - cornerCuttingRadius /\
    vz (bbMax edge) - vz (bbMin top) == tall - cornerCuttingRadius.
Proof.
  intros Hi Hb Ht He He0 Hemax Hh tall.
  set (kz := (containerSizeZ height - 2 * cornerCuttingRadius)
             / vz (bbMax (sideEdge2W subparts))).
  assert (Hkz : 0 < kz) by now apply Qdiv_pos.
  assert (Hext : extent AxisZ (scale (sideEdge2W subparts) 1 1 kz)
                 == height - 2 * cornerCuttingRadius).
  { rewrite extent_scale by exact Hkz. unfold extent. cbn [coordinate vz].
    rewrite He0. subst kz. unfold containerSizeZ. field. now apply Qlt_not_0. }
  assert (G : forall dx dy,
    let bottom := translate (rotateZWithTrim (bottomCorner2W subparts)
                               (quarterTurns (Z.of_nat i))) dx dy 0 in
    let top := translate (rotateZWithTrim (topCorner2W subparts)
                            (quarterTurns (Z.of_nat i))) dx dy
                 (containerSizeZ height - cornerCuttingRadius) in
    let edge := translate (rotateZWithTrim (scale (sideEdge2W subparts) 1 1 kz)
                             (quarterTurns (Z.of_nat i))) dx dy
                  (vz (bbMax (rotateZWithTrim (bottomCorner2W subparts)
                                (quarterTurns (Z.of_nat i))))) in
    vz (bbMin bottom) == 0 /\
    vz (bbMax bottom) == tall /\
    vz (bbMin edge) == tall /\
    vz (bbMax edge) == tall + (height - 2 * cornerCuttingRadius) /\
    vz (bbMin top) == height - cornerCuttingRadius /\
    vz (bbMax edge) - vz (bbMin top) == tall - cornerCuttingRadius).
  { intros dx dy bottom top edge. subst bottom top edge.
    destruct (heights_rotateZWithTrim (bottomCorner2W subparts) (quarterTurns (Z.of_nat i)))
      as [B0 B1].
    destruct (heights_rotateZWithTrim (topCorner2W subparts) (quarterTurns (Z.of_nat i)))
      as [T0 _].
    destruct (heights_rotateZWithTrim (scale (sideEdge2W subparts) 1 1 kz)
                (quarterTurns (Z.of_nat i))) as [E0 E1].
    destruct (heights_translate (rotateZWithTrim (bottomCorner2W subparts)
                (quarterTurns (Z.of_nat i))) dx dy 0) as [-> ->];
      [now apply rotateZWithTrim_nonempty|].
    destruct (heights_translate (rotateZWithTrim (topCorner2W subparts)
                (quarterTurns (Z.of_nat i))) dx dy
                (containerSizeZ height - cornerCuttingRadius)) as [-> _];
      [now apply rotateZWithTrim_nonempty|].
    destruct (heights_translate (rotateZWithTrim (scale (sideEdge2W subparts) 1 1 kz)
                (quarterTurns (Z.of_nat i))) dx dy
                (vz (bbMax (rotateZWithTrim (bottomCorner2W subparts)
                              (quarterTurns (Z.of_nat i)))))) as [-> ->];
      [now apply rotateZWithTrim_nonempty, scale_nonempty|].
    rewrite B0, B1, T0, E0, E1, Hext. fold tall. unfold containerSizeZ.
    repeat split; ring. }
  destruct i as [|[|[|[|i]]]]; [| | | |lia];
    (eexists; eexists; eexists; split; [reflexivity|apply G]).
Qed.

Lemma flipGeometryWithTrim_mirrors_witness :
  index (flipGeometryWithTrim Examples.doubledTriangle AxisX) =
  Some (flatten (rev (map (fun t => let '(a, b, c) := t in (c, b, a))
                          [ (0, 1, 2); (1, 2, 0); (0, 0, 1) ]%nat))).
Proof.
  apply (proj2 (proj2 (proj2 (proj2
           (flipGeometryWithTrim_mirrors Examples.doubledTriangle AxisX
              ltac:(discriminate)))))).
  reflexivity.
Defined.

Lemma trimBufferGeometryToOrigin_normalizes_witness :
  let box := Examples.BoxGeometry 4 2 6 in
  coordinate AxisX (bbMin (trimBufferGeometryToOrigin box)) == 0 /\
  coordinate AxisX (bbMax (trimBufferGeometryToOrigin box)) == extent AxisX box /\
  extent AxisX (trimBufferGeometryToOrigin box) == extent AxisX box /\
  index (trimBufferGeometryToOrigin box) = index box /\
  length (position (trimBufferGeometryToOrigin box)) = length (position box).
Proof.
  apply (trimBufferGeometryToOrigin_normalizes (Examples.BoxGeometry 4 2 6) AxisX).
  discriminate.
Defined.

Lemma rotateZWithTrim_extents_witness :
  let box := Examples.BoxGeometry 4 2 6 in
  extent AxisZ (rotateZWithTrim box (quarterTurns 1)) == extent AxisZ box /\
  (extent AxisX (rotateZWithTrim box (quarterTurns 1)) == extent AxisY box /\
   extent AxisY (rotateZWithTrim box (quarterTurns 1)) == extent AxisX box) /\
  forall axis, coordinate axis (bbMin (rotateZWithTrim box (quarterTurns 1))) == 0.
Proof.
  apply (rotateZWithTrim_extents (Examples.BoxGeometry 4 2 6) 1).
  discriminate.
Defined.

Lemma flipGeometryWithTrim_without_index_witness :
  let soup := {| position := [ mkVector3 0 0 0; mkVector3 1 0 0; mkVector3 0 1 0 ];
                 index := None |} in
  index (flipGeometryWithTrim soup AxisY) = Some [] /\
  triangleCount (flipGeometryWithTrim soup AxisY) = 0%nat /\
  length (position (flipGeometryWithTrim soup AxisY)) = length (position soup).
Proof.
  apply (flipGeometryWithTrim_without_index
           {| position := [ mkVector3 0 0 0; mkVector3 1 0 0; mkVector3 0 1 0 ];
              index := None |} AxisY).
  reflexivity.
Defined.

Lemma nearSideWall_box_witness :
  sameVector (bbMin (nearSideWall Examples.parts Examples.oneCell 2 8 3))
             (mkVector3 2 0 2) /\
  sameVector (bbMax (nearSideWall Examples.parts Examples.oneCell 2 8 3))
             (mkVector3 (containerSizeX Examples.oneCell 3 - 2)
                        (extent AxisY (sideWall Examples.parts)) (8 - 2)).
Proof.
  apply (nearSideWall_box Examples.parts Examples.oneCell 2 8 3).
  - discriminate.
  - reflexivity.
  - reflexivity.
  - reflexivity.
  - reflexivity.
  - reflexivity.
  - reflexivity.
Defined.

Lemma leftSideWall_box_witness :
  sameVector (bbMin (leftSideWall Examples.parts Examples.oneCell 2 8 2))
             (mkVector3 0 2 2) /\
  sameVector (bbMax (leftSideWall Examples.parts Examples.oneCell 2 8 2))
             (mkVector3 (extent AxisY (sideWall Examples.parts))
                        (containerSizeY Examples.oneCell 2 - 2)
                        (8 - 2 + OVERLAP_THICKNESS)).
Proof.
  apply (leftSideWall_box Examples.parts Examples.oneCell 2 8 2).
  - discriminate.
  - reflexivity.
  - reflexivity.
  - reflexivity.
  - reflexivity.
Defined.

Lemma far_and_right_walls_flush_witness :
  vy (bbMax (farSideWall Examples.parts Examples.oneCell 2 8 2 3))
    == containerSizeY Examples.oneCell 2 /\
  vx (bbMax (rightSideWall Examples.parts Examples.oneCell 2 8 2 3))
    == containerSizeX Examples.oneCell 3.
Proof.
  apply (far_and_right_walls_flush Examples.parts Examples.oneCell 2 8 2 3).
  - discriminate.
  - intros H. vm_compute in H. discriminate H.
  - intros H. vm_compute in H. discriminate H.
  - intros H. vm_compute in H. discriminate H.
  - intros H. vm_compute in H. discriminate H.
Defined.

Lemma outerCorner_column_witness :
  let padded := Examples.block 2 2 (401 # 200) in
  let parts :=
    {| bottomCorner2W := padded; topCorner2W := padded;
       bottomCorner1WRightNear := padded; bottomCorner1WLeftFar := padded;
       topCorner1W := padded; bottomCorner0W := padded;
       sideTopEdges := Examples.block 6 2 2; sideBottomEdges := Examples.block 6 2 2;
       sideEdge2W := Examples.block 2 2 (201 # 100); sideWall := Examples.block 6 2 2;
       bottomFloor := Examples.block 6 6 2; bottomEdge0W := Examples.block 2 6 2 |} in
  exists bottom top edge,
    map snd (outerCorner parts Examples.oneCell 2 8 2 3 2) = [bottom; top; edge] /\
    vz (bbMin bottom) == 0 /\
    vz (bbMax bottom) == extent AxisZ padded /\
    vz (bbMin edge) == extent AxisZ padded /\
    vz (bbMax edge) == extent AxisZ padded + (8 - 2 * 2) /\
    vz (bbMin top) == 8 - 2 /\
    vz (bbMax edge) - vz (bbMin top) == extent AxisZ padded - 2.
Proof.
  intros padded parts.
  apply (outerCorner_column parts Examples.oneCell 2 8 2 3 2).
  - lia.
  - discriminate.
  - discriminate.
  - discriminate.
  - reflexivity.
  - reflexivity.
  - reflexivity.
Defined.

(** ** More on duplicate faces *)

Lemma uniqueFaceIndices_whole (uniqueFaces : gset string) (ts : list (nat * nat * nat)) :
  flatten (triangles (uniqueFaceIndices uniqueFaces ts)) = uniqueFaceIndices uniqueFaces ts.
Proof.
  revert uniqueFaces. induction ts as [|[[a b] c] ts IH]; intros uniqueFaces; [reflexivity|].
  cbn [uniqueFaceIndices]. destruct (decide _); [apply IH|].
  cbn [app]. rewrite triangles_app3.
  change (flatten ((a, b, c) :: ?l)) with ([a; b; c] ++ flatten l).
  cbn [app]. now rewrite IH.
Qed.

Lemma uniqueFaceIndices_fresh (uniqueFaces : gset string) (ts : list (nat * nat * nat))
    (t : nat * nat * nat) :
  t ∈ triangles (uniqueFaceIndices uniqueFaces ts) -> faceKey t ∉ uniqueFaces.
Proof.
  revert uniqueFaces. induction ts as [|[[a b] c] ts IH]; intros uniqueFaces.
  - cbn. intros H. now apply elem_of_nil in H.
  - cbn [uniqueFaceIndices]. destruct (decide _) as [Hin|Hnotin]; [apply IH|].
    cbn [app]. rewrite triangles_app3. intros H.
    apply elem_of_cons in H as [->|H]; [assumption|].
    apply IH in H. set_solver.
Qed.

Lemma uniqueFaceIndices_NoDup (uniqueFaces : gset string) (ts : list (nat * nat * nat)) :
  NoDup (map faceKey (triangles (uniqueFaceIndices uniqueFaces ts))).
Proof.
  revert uniqueFaces. induction ts as [|[[a b] c] ts IH]; intros uniqueFaces.
  - constructor.
  - cbn [uniqueFaceIndices]. destruct (decide _) as [Hin|Hnotin]; [apply IH|].
    cbn [app]. rewrite triangles_app3. cbn [map]. constructor; [|apply IH].
    intros H. apply list_elem_of_fmap in H as [t [Hk Ht]].
    apply uniqueFaceIndices_fresh in Ht. rewrite <- Hk in Ht. set_solver.
Qed.

Lemma uniqueFaceIndices_sublist (uniqueFaces : gset string) (ts : list (nat * nat * nat)) :
  sublist (triangles (uniqueFaceIndices uniqueFaces ts)) ts.
Proof.
  revert uniqueFaces. induction ts as [|[[a b] c] ts IH]; intros uniqueFaces.
  - constructor.
  - cbn [uniqueFaceIndices]. destruct (decide _) as [Hin|Hnotin].
    + apply sublist_cons, IH.
    + cbn [app]. rewrite triangles_app3. apply sublist_skip, IH.
Qed.

Lemma uniqueFaceIndices_covers (uniqueFaces : gset string) (ts : list (nat * nat * nat))
    (t : nat * nat * nat) :
  t ∈ ts ->
  faceKey t ∈ uniqueFaces \/
  faceKey t ∈ map faceKey (triangles (uniqueFaceIndices uniqueFaces ts)).
Proof.
  revert uniqueFaces. induction ts as [|[[a b] c] ts IH]; intros uniqueFaces Ht.
  - now apply elem_of_nil in Ht.
  - cbn [uniqueFaceIndices]. apply elem_of_cons in Ht as [->|Ht].
    + destruct (decide _) as [Hin|Hnotin]; [now left|].
      right. cbn [app]. rewrite triangles_app3. cbn [map]. apply elem_of_cons. now left.
    + destruct (decide _) as [Hin|Hnotin]; [now apply IH|].
      cbn [app]. rewrite triangles_app3. cbn [map].
      destruct (IH ({[faceKey (a, b, c)]} ∪ uniqueFaces) Ht) as [H|H].
      * apply elem_of_union in H as [H|H]; [|now left].
        apply elem_of_singleton in H. right. apply elem_of_cons. now left.
      * right. apply elem_of_cons. now right.
Qed.

(** Faces with distinct keys, none of which is in the set, all stay. *)
Lemma uniqueFaceIndices_keeps (uniqueFaces : gset string) (ts : list (nat * nat * nat)) :
  NoDup (map faceKey ts) -> (forall t, t ∈ ts -> faceKey t ∉ uniqueFaces) ->
  uniqueFaceIndices uniqueFaces ts = flatten ts.
Proof.
  revert uniqueFaces. induction ts as [|[[a b] c] ts IH]; intros uniqueFaces Hn Hf;
    [reflexivity|].
  cbn [uniqueFaceIndices]. destruct (decide _) as [Hin|Hnotin].
  - exfalso. apply (Hf (a, b, c)); [apply elem_of_cons; now left|assumption].
  - change (flatten ((a, b, c) :: ts)) with ([a; b; c] ++ flatten ts). f_equal.
    cbn [map] in Hn. apply NoDup_cons in Hn as [Hhead Htail].
    apply IH; [assumption|]. intros t Ht Hin.
    apply elem_of_union in Hin as [Hin|Hin].
    + apply elem_of_singleton in Hin. apply Hhead. rewrite <- Hin.
      apply list_elem_of_fmap. now exists t.
    + apply (Hf t); [apply elem_of_cons; now right|assumption].
Qed.

(** X18.  [removeDuplicateFaces] leaves no two faces with the same key and
    does not touch the vertices; the faces it keeps are faces of the
    argument, in their order, and every face of the argument has its key
    among them. *)
Theorem removeDuplicateFaces_deduplicates (g : BufferGeometry) :
  hasDuplicateFaces (removeDuplicateFaces g) = false /\
  position (removeDuplicateFaces g) = position g /\
  forall indices, index g = Some indices ->
    exists kept,
      index (removeDuplicateFaces g) = Some (flatten kept) /\
      NoDup (map faceKey kept) /\
      sublist kept (triangles indices) /\
      forall t, t ∈ triangles indices -> faceKey t ∈ map faceKey kept.
Proof.
  split; [|split; [apply removeDuplicateFaces_position|]].
  - unfold hasDuplicateFaces, removeDuplicateFaces.
    destruct (index g) as [indices|] eqn:E; [|now rewrite E].
    cbn [index setIndex]. apply negb_false_iff, bool_decide_eq_true.
    apply uniqueFaceIndices_NoDup.
  - intros indices E. unfold removeDuplicateFaces. rewrite E. cbn [index setIndex].
    exists (triangles (uniqueFaceIndices ∅ (triangles indices))).
    split; [now rewrite uniqueFaceIndices_whole|].
    split; [apply uniqueFaceIndices_NoDup|].
    split; [apply uniqueFaceIndices_sublist|].
    intros t Ht. destruct (uniqueFaceIndices_covers ∅ _ t Ht) as [H|H]; [set_solver|exact H].
Qed.

(** X19.  Removing duplicate faces twice is removing them once. *)
Theorem removeDuplicateFaces_idempotent (g : BufferGeometry) :
  removeDuplicateFaces (removeDuplicateFaces g) = removeDuplicateFaces g.
Proof.
  unfold removeDuplicateFaces at 2 3. destruct (index g) as [indices|] eqn:E.
  - unfold removeDuplicateFaces. cbn [index setIndex position].
    rewrite (uniqueFaceIndices_keeps ∅ (triangles (uniqueFaceIndices ∅ (triangles indices)))).
    + now rewrite uniqueFaceIndices_whole.
    + apply uniqueFaceIndices_NoDup.
    + intros t _. set_solver.
  - unfold removeDuplicateFaces. now rewrite E.
Qed.

(** ** The key of a face does not depend on the order of its corners *)

Lemma string_leb_spec (s1 s2 : string) :
  String.leb s1 s2 = true <-> String.compare s1 s2 <> Gt.
Proof. unfold String.leb. destruct (String.compare s1 s2); split; congruence. Qed.

Lemma string_compare_trans (s1 s2 s3 : string) :
  String.compare s1 s2 <> Gt -> String.compare s2 s3 <> Gt -> String.compare s1 s3 <> Gt.
Proof.
  revert s2 s3. induction s1 as [|c1 s1 IH]; intros [|c2 s2] [|c3 s3]; cbn;
    try congruence.
  unfold Ascii.compare.
  destruct (N.compare_spec (N_of_ascii c1) (N_of_ascii c2)) as [E12|L12|G12];
    destruct (N.compare_spec (N_of_ascii c2) (N_of_ascii c3)) as [E23|L23|G23];
    try congruence; intros H12 H23.
  - rewrite E12, E23, N.compare_refl. now apply (IH s2).
  - rewrite E12. now rewrite (proj2 (N.compare_lt_iff _ _) L23).
  - rewrite <- E23. now rewrite (proj2 (N.compare_lt_iff _ _) L12).
  - rewrite (proj2 (N.compare_lt_iff _ _) (N.lt_trans _ _ _ L12 L23)). congruence.
Qed.

Lemma sortsBefore_total (a b : nat) : sortsBefore a b = true \/ sortsBefore b a = true.
Proof. apply String.leb_total. Qed.

Lemma sortsBefore_trans (a b c : nat) :
  sortsBefore a b = true -> sortsBefore b c = true -> sortsBefore a c = true.
Proof.
  unfold sortsBefore. rewrite !string_leb_spec. apply string_compare_trans.
Qed.

Lemma sortsBefore_antisym (a b : nat) :
  sortsBefore a b = true -> sortsBefore b a = true -> a = b.
Proof.
  unfold sortsBefore, numberToString. intros H1 H2.
  apply (inj pretty). now apply String.leb_antisym.
Qed.

Lemma insertSorted_comm (a b : nat) (l : list nat) :
  insertSorted a (insertSorted b l) = insertSorted b (insertSorted a l).
Proof.
  induction l as [|c l IH].
  - cbn. destruct (sortsBefore a b) eqn:Eab, (sortsBefore b a) eqn:Eba; try reflexivity.
    + now rewrite (sortsBefore_antisym a b Eab Eba).
    + destruct (sortsBefore_total a b); congruence.
  - cbn [insertSorted].
    destruct (sortsBefore b c) eqn:Ebc, (sortsBefore a c) eqn:Eac; cbn [insertSorted].
    + destruct (sortsBefore a b) eqn:Eab, (sortsBefore b a) eqn:Eba;
        rewrite ?Eac, ?Ebc; try reflexivity.
      * now rewrite (sortsBefore_antisym a b Eab Eba).
      * destruct (sortsBefore_total a b); congruence.
    + destruct (sortsBefore a b) eqn:Eab.
      * rewrite (sortsBefore_trans a b c Eab Ebc) in Eac. discriminate.
      * now rewrite Eac, Ebc.
    + destruct (sortsBefore b a) eqn:Eba.
      * rewrite (sortsBefore_trans b a c Eba Eac) in Ebc. discriminate.
      * now rewrite Eac, Ebc.
    + now rewrite Eac, Ebc, IH.
Qed.

Lemma Array_sort_Permutation (l l' : list nat) :
  Permutation l l' -> Array_sort l = Array_sort l'.
Proof.
  unfold Array_sort. induction 1 as [|x l l' _ IH|x y l|l l' l'' _ IH1 _ IH2].
  - reflexivity.
  - cbn [foldr]. now rewrite IH.
  - cbn [foldr]. apply insertSorted_comm.
  - now rewrite IH1.
Qed.

Lemma faceKey_order_independent_aux (a b c a' b' c' : nat) :
  Permutation [a; b; c] [a'; b'; c'] -> faceKey (a, b, c) = faceKey (a', b', c').
Proof.
  intros H. unfold faceKey. now rewrite (Array_sort_Permutation _ _ H).
Qed.

(** X20.  Two faces with the same three corners, in whatever order, have the
    same key; so of all the faces on the same three vertices
    [removeDuplicateFaces] keeps one. *)
Theorem faceKey_order_independent (a b c a' b' c' : nat) :
  Permutation [a; b; c] [a'; b'; c'] -> faceKey (a, b, c) = faceKey (a', b', c').
Proof. exact (faceKey_order_independent_aux a b c a' b' c'). Qed.

Lemma faceKey_order_independent_witness : faceKey (7, 10, 9)%nat = faceKey (9, 7, 10)%nat.
Proof.
  apply (faceKey_order_independent 7 10 9 9 7 10).
  apply (Permutation_app_comm [7; 10]%nat [9]%nat).
Defined.

(** X21.  After [removeDuplicateFaces] no two faces of the geometry are on
    the same three vertices. *)
Theorem removeDuplicateFaces_one_face_per_vertex_set (g : BufferGeometry)
    (indices : list nat) (i j : nat) (a b c a' b' c' : nat) :
  index (removeDuplicateFaces g) = Some indices ->
  triangles indices !! i = Some (a, b, c) ->
  triangles indices !! j = Some (a', b', c') ->
  Permutation [a; b; c] [a'; b'; c'] ->
  i = j.
Proof.
  intros Hidx Hi Hj Hp.
  assert (Hn : NoDup (map faceKey (triangles indices))).
  { unfold removeDuplicateFaces in Hidx. destruct (index g) as [indices0|] eqn:E;
      [|congruence].
    cbn [index setIndex] in Hidx. injection Hidx as <-. apply uniqueFaceIndices_NoDup. }
  apply (NoDup_lookup _ i j (faceKey (a, b, c)) Hn).
  - change (map faceKey (triangles indices)) with (faceKey <$> triangles indices).
    now rewrite list_lookup_fmap, Hi.
  - change (map faceKey (triangles indices)) with (faceKey <$> triangles indices).
    rewrite list_lookup_fmap, Hj. cbn. f_equal. symmetry.
    now apply faceKey_order_independent_aux.
Qed.

(** ** More on degenerate triangles *)

Lemma indexMapping_untouched (l : list nat) (m : gmap nat nat) (n k : nat) :
  k ∉ l ->
  fst (foldl (fun '(oldToNewIndex, nextIndex) oldIndex =>
                (<[oldIndex := nextIndex]> oldToNewIndex, S nextIndex)) (m, n) l) !! k
  = m !! k.
Proof.
  revert m n. induction l as [|w l IH]; intros m n Hk; [reflexivity|].
  cbn [foldl]. rewrite IH.
  - apply lookup_insert_ne. intros ->. apply Hk. apply elem_of_cons. now left.
  - intros H. apply Hk. apply elem_of_cons. now right.
Qed.

(** A vertex gets the place it has in [usedVertices]. *)
Lemma indexMapping_lookup (usedVertices : list nat) (j v : nat) :
  NoDup usedVertices -> usedVertices !! j = Some v ->
  indexMapping usedVertices !! v = Some j.
Proof.
  unfold indexMapping. intros Hn Hj.
  assert (G : forall (l : list nat) (m : gmap nat nat) (n j : nat),
             NoDup l -> l !! j = Some v ->
             fst (foldl (fun '(oldToNewIndex, nextIndex) oldIndex =>
                           (<[oldIndex := nextIndex]> oldToNewIndex, S nextIndex))
                        (m, n) l) !! v = Some (n + j)%nat).
  { clear. induction l as [|w l IH]; intros m n j Hn Hj; [discriminate|].
    apply NoDup_cons in Hn as [Hw Hn]. cbn [foldl]. destruct j as [|j].
    - cbn in Hj. injection Hj as ->. rewrite indexMapping_untouched by assumption.
      rewrite lookup_insert_eq. f_equal. lia.
    - cbn in Hj. rewrite (IH _ _ j Hn Hj). f_equal. lia. }
  now rewrite (G usedVertices ∅ 0%nat j Hn Hj).
Qed.

Lemma map_flatten (f : nat -> nat) (ts : list (nat * nat * nat)) :
  map f (flatten ts) = flatten (map (fun t => let '(a, b, c) := t in (f a, f b, f c)) ts).
Proof.
  induction ts as [|[[a b] c] ts IH]; [reflexivity|].
  change (flatten ((a, b, c) :: ts)) with ([a; b; c] ++ flatten ts).
  rewrite map_app, IH. reflexivity.
Qed.

Section Compaction.

Variable Math_sqrt : Q -> Q.
Variable mergeVertices : BufferGeometry -> option Q -> BufferGeometry.

(** The area test only looks at the three vertices. *)
Lemma isNonDegenerate_same_vertices (positions positions' : list Vector3)
    (a b c a' b' c' : nat) :
  positions' !! a' = positions !! a -> positions' !! b' = positions !! b ->
  positions' !! c' = positions !! c ->
  isNonDegenerate Math_sqrt positions' (a', b', c')
  = isNonDegenerate Math_sqrt positions (a, b, c).
Proof. intros Ha Hb Hc. unfold isNonDegenerate. now rewrite Ha, Hb, Hc. Qed.

(** X22.  On an indexed geometry [removeDegenerateTriangles] returns a
    compacted copy of the faces that pass the area test: the faces are those
    faces, in their order, with their corners renumbered; a renumbered
    corner is the same point as before; no face of the result fails the
    area test; every vertex of the result is a corner of some face; and the
    result has no more vertices than the argument. *)
Theorem removeDegenerateTriangles_compacts (g : BufferGeometry) (indices : list nat) :
  index g = Some indices ->
  let kept := filter (isNonDegenerate Math_sqrt (position g)) (triangles indices) in
  exists (out : BufferGeometry) (renumber : nat -> nat),
    removeDegenerateTriangles Math_sqrt mergeVertices g = Returned out /\
    index out
      = Some (flatten (map (fun t => let '(a, b, c) := t in
                                     (renumber a, renumber b, renumber c)) kept)) /\
    (forall v, v ∈ flatten kept -> position out !! renumber v = position g !! v) /\
    hasDegenerateTriangles Math_sqrt out = false /\
    (forall j, (j < length (position out))%nat ->
               exists v, v ∈ flatten kept /\ renumber v = j) /\
    (length (position out) <= length (position g))%nat.
Proof.
  intros E kept.
  assert (Hrun : removeDegenerateTriangles Math_sqrt mergeVertices g
                 = Returned
                     {| position := map (fun oldIndex => default origin (position g !! oldIndex))
                                        (foldl (fun s v => Set_add v s) [] (flatten kept));
                        index := Some (map (fun oldIndex =>
                                   default 0%nat
                                     (indexMapping (foldl (fun s v => Set_add v s) []
                                                          (flatten kept)) !! oldIndex))
                                   (flatten kept)) |}).
  { unfold removeDegenerateTriangles. rewrite E. cbv beta iota zeta. rewrite E. reflexivity. }
  set (used := foldl (fun s v => Set_add v s) [] (flatten kept)).
  set (renumber := fun oldIndex => default 0%nat (indexMapping used !! oldIndex)).
  destruct (usedVertices_spec (flatten kept) [] (NoDup_nil_2 (A := nat))) as [Hn Hx].
  fold used in Hn, Hx.
  pose proof (kept_in_range Math_sqrt (position g) (triangles indices)) as Hr.
  fold kept in Hr. rewrite Forall_forall in Hr.
  assert (Hsame : forall v, v ∈ flatten kept ->
            map (fun oldIndex => default origin (position g !! oldIndex)) used !! renumber v
            = position g !! v).
  { intros v Hv. assert (Hu : v ∈ used) by (apply Hx; now right).
    apply list_elem_of_lookup in Hu as [j Hj].
    unfold renumber. rewrite (indexMapping_lookup used j v Hn Hj). cbn [default from_option id].
    change (map ?f used) with (f <$> used). rewrite list_lookup_fmap, Hj. cbn.
    destruct (lookup_lt_is_Some_2 (position g) v (Hr v Hv)) as [p Hp]. now rewrite Hp. }
  exists {| position := map (fun oldIndex => default origin (position g !! oldIndex)) used;
            index := Some (map renumber (flatten kept)) |}, renumber.
  split; [exact Hrun|]. cbn [index position].
  split; [now rewrite map_flatten|]. split; [exact Hsame|]. split; [|split].
  - unfold hasDegenerateTriangles. cbn [index position].
    rewrite map_flatten, triangles_flatten.
    apply not_true_is_false. intros H. apply existsb_exists in H as [t' [Ht' Hd]].
    apply in_map_iff in Ht' as [[[a b] c] [<- Ht]].
    apply list_elem_of_In in Ht.
    assert (Hk : isNonDegenerate Math_sqrt (position g) (a, b, c) = true).
    { subst kept. apply list_elem_of_filter in Ht as [Ht _]. now apply Is_true_true. }
    assert (Hin : forall v, v ∈ [a; b; c] -> v ∈ flatten kept).
    { intros v Hv. unfold flatten. apply list_elem_of_In, in_flat_map.
      exists (a, b, c). split; [now apply list_elem_of_In|now apply list_elem_of_In]. }
    rewrite (isNonDegenerate_same_vertices (position g) _ a b c) in Hd.
    + rewrite Hk in Hd. discriminate.
    + apply Hsame, Hin. set_solver.
    + apply Hsame, Hin. set_solver.
    + apply Hsame, Hin. set_solver.
  - intros j Hj. rewrite length_map in Hj.
    destruct (lookup_lt_is_Some_2 used j Hj) as [v Hv].
    exists v. assert (Hu : v ∈ used) by (eapply list_elem_of_lookup_2; eassumption).
    apply Hx in Hu as [Hu|Hu]; [now apply elem_of_nil in Hu|].
    split; [exact Hu|]. unfold renumber. now rewrite (indexMapping_lookup used j v Hn Hv).
  - rewrite length_map. apply NoDup_bounded_length; [assumption|].
    apply Forall_forall. intros v Hv. apply Hx in Hv as [Hv|Hv];
      [now apply elem_of_nil in Hv|now apply Hr].
Qed.

End Compaction.

Lemma removeDegenerateTriangles_compacts_witness :
  let kept := filter (isNonDegenerate Examples.Math_sqrt (position Examples.doubledTriangle))
                     (triangles [0; 1; 2; 1; 2; 0; 0; 0; 1]%nat) in
  exists (out : BufferGeometry) (renumber : nat -> nat),
    removeDegenerateTriangles Examples.Math_sqrt Examples.mergeVertices
      Examples.doubledTriangle = Returned out /\
    index out
      = Some (flatten (map (fun t => let '(a, b, c) := t in
                                     (renumber a, renumber b, renumber c)) kept)) /\
    (forall v, v ∈ flatten kept ->
               position out !! renumber v = position Examples.doubledTriangle !! v) /\
    hasDegenerateTriangles Examples.Math_sqrt out = false /\
    (forall j, (j < length (position out))%nat ->
               exists v, v ∈ flatten kept /\ renumber v = j) /\
    (length (position out) <= length (position Examples.doubledTriangle))%nat.
Proof.
  apply (removeDegenerateTriangles_compacts Examples.Math_sqrt Examples.mergeVertices
           Examples.doubledTriangle [0; 1; 2; 1; 2; 0; 0; 0; 1]%nat).
  reflexivity.
Defined.

Lemma removeDuplicateFaces_deduplicates_witness :
  exists kept,
    index (removeDuplicateFaces Examples.doubledTriangle) = Some (flatten kept) /\
    NoDup (map faceKey kept) /\
    sublist kept (triangles [0; 1; 2; 1; 2; 0; 0; 0; 1]%nat) /\
    forall t, t ∈ triangles [0; 1; 2; 1; 2; 0; 0; 0; 1]%nat -> faceKey t ∈ map faceKey kept.
Proof.
  exact (proj2 (proj2 (removeDuplicateFaces_deduplicates Examples.doubledTriangle))
               [0; 1; 2; 1; 2; 0; 0; 0; 1]%nat eq_refl).
Defined.

Lemma removeDuplicateFaces_one_face_per_vertex_set_witness :
  index (removeDuplicateFaces Examples.doubledTriangle) = Some [0; 1; 2; 0; 0; 1]%nat /\
  0%nat = 0%nat.
Proof.
  assert (E : index (removeDuplicateFaces Examples.doubledTriangle)
              = Some [0; 1; 2; 0; 0; 1]%nat) by (vm_compute; reflexivity).
  split; [exact E|].
  apply (removeDuplicateFaces_one_face_per_vertex_set Examples.doubledTriangle
           [0; 1; 2; 0; 0; 1]%nat 0 0 0 1 2 0 1 2 E); reflexivity.
Defined.

(** ** The repair loop ends *)

Section RepairTermination.

Variable Math_sqrt : Q -> Q.
Variable mergeVertices : BufferGeometry -> option Q -> BufferGeometry.

Hypothesis welded_indexed : forall g tolerance, index (mergeVertices g tolerance) <> None.
Hypothesis welded_in_range : forall g tolerance, indicesInRange (mergeVertices g tolerance).
Hypothesis welding_shrinks : forall g tolerance,
  indicesInRange g ->
  (length (position (mergeVertices g tolerance)) <= length (position g))%nat.

Lemma repairLoop_turns (n : nat) (output : BufferGeometry) :
  (length (position output) <= n)%nat ->
  indicesInRange output ->
  exists (result : BufferGeometry) (turns : nat),
    (1 <= turns <= S n)%nat /\
    (forall fuel, (turns <= fuel)%nat ->
                  repairLoop Math_sqrt mergeVertices fuel output = Returned result) /\
    (forall fuel, (fuel < turns)%nat ->
                  repairLoop Math_sqrt mergeVertices fuel output = OutOfFuel) /\
    (length (position result) <= length (position output))%nat /\
    index result <> None /\
    indicesInRange result.
Proof.
  revert output. induction n as [|n IH]; intros output Hn Hr.
  all: destruct (repair_turn Math_sqrt mergeVertices welded_indexed welding_shrinks output Hr)
         as (cleaned & Hc & Hlen).
  all: destruct (decide (positionArrayLength (mergeVertices cleaned (Some MERGE_VERTICES_TOLERANCE))
                         = positionArrayLength output)) as [E|E].
  all: try (exists (mergeVertices cleaned (Some MERGE_VERTICES_TOLERANCE)), 1%nat;
            split; [lia|]; split; [|split; [|split; [exact Hlen|split;
              [apply welded_indexed|apply welded_in_range]]]];
            [ intros [|fuel] Hf; [lia|]; cbn [repairLoop]; rewrite Hc;
              cbn [mbind outcome_bind]; now rewrite (decide_True _ _ E)
            | intros [|fuel] Hf; [reflexivity|lia] ]).
  - unfold positionArrayLength in E. lia.
  - destruct (IH (mergeVertices cleaned (Some MERGE_VERTICES_TOLERANCE)))
      as (result & turns & Ht & Hyes & Hno & Hle & Hi & Hrr).
    + unfold positionArrayLength in E. lia.
    + apply welded_in_range.
    + exists result, (S turns). split; [lia|]. split; [|split; [|split; [lia|now split]]].
      * intros [|fuel] Hf; [lia|]. cbn [repairLoop]. rewrite Hc.
        cbn [mbind outcome_bind]. rewrite (decide_False _ _ E). apply Hyes. lia.
      * intros [|fuel] Hf; [reflexivity|]. cbn [repairLoop]. rewrite Hc.
        cbn [mbind outcome_bind]. rewrite (decide_False _ _ E). apply Hno. lia.
Qed.

(** X23.  With a welder that returns an indexed geometry whose indices are
    in range and that adds no vertices, the loop of
    [fixNonManifoldGeometry] ends: there is a number of turns, at least one
    and at most one more than the number of vertices, such that the loop
    runs out on a smaller budget and returns the same geometry on every
    other budget.  That geometry is indexed and has no more vertices than
    the argument; the function itself hands back the argument. *)
Theorem repairLoop_terminates (output : BufferGeometry) :
  indicesInRange output ->
  exists (result : BufferGeometry) (turns : nat),
    (1 <= turns <= S (length (position output)))%nat /\
    (forall fuel, (turns <= fuel)%nat ->
       repairLoop Math_sqrt mergeVertices fuel output = Returned result /\
       fixNonManifoldGeometry Math_sqrt mergeVertices fuel output = Returned output) /\
    (forall fuel, (fuel < turns)%nat ->
       repairLoop Math_sqrt mergeVertices fuel output = OutOfFuel /\
       fixNonManifoldGeometry Math_sqrt mergeVertices fuel output = OutOfFuel) /\
    (length (position result) <= length (position output))%nat /\
    index result <> None /\
    indicesInRange result.
Proof.
  intros Hr.
  destruct (repairLoop_turns (length (position output)) output (le_n _) Hr)
    as (result & turns & Ht & Hyes & Hno & Hrest).
  exists result, turns. split; [exact Ht|]. split; [|split; [|exact Hrest]].
  - intros fuel Hf. unfold fixNonManifoldGeometry. now rewrite (Hyes fuel Hf).
  - intros fuel Hf. unfold fixNonManifoldGeometry. now rewrite (Hno fuel Hf).
Qed.

End RepairTermination.

Lemma repairLoop_terminates_witness :
  indicesInRange Examples.doubledTriangle /\
  exists (result : BufferGeometry) (turns : nat),
    (1 <= turns <= S (length (position Examples.doubledTriangle)))%nat /\
    (forall fuel, (turns <= fuel)%nat ->
       repairLoop Examples.Math_sqrt Examples.mergeVertices fuel Examples.doubledTriangle
         = Returned result /\
       fixNonManifoldGeometry Examples.Math_sqrt Examples.mergeVertices fuel
         Examples.doubledTriangle = Returned Examples.doubledTriangle) /\
    (forall fuel, (fuel < turns)%nat ->
       repairLoop Examples.Math_sqrt Examples.mergeVertices fuel Examples.doubledTriangle
         = OutOfFuel /\
       fixNonManifoldGeometry Examples.Math_sqrt Examples.mergeVertices fuel
         Examples.doubledTriangle = OutOfFuel) /\
    (length (position result) <= length (position Examples.doubledTriangle))%nat /\
    index result <> None /\
    indicesInRange result.
Proof.
  assert (Hr : indicesInRange Examples.doubledTriangle).
  { unfold indicesInRange. cbn. repeat constructor; lia. }
  split; [exact Hr|].
  exact (repairLoop_terminates Examples.Math_sqrt Examples.mergeVertices
           ExampleFacts.welded_indexed ExampleFacts.welded_in_range
           ExampleFacts.welding_shrinks Examples.doubledTriangle Hr).
Defined.

(** ** Edges shared by faces *)

Lemma edgeKey_symmetric (a b : nat) : edgeKey (Some a) (Some b) = edgeKey (Some b) (Some a).
Proof.
  unfold edgeKey. destruct (Nat.ltb_spec b a), (Nat.ltb_spec a b); try reflexivity; try lia.
  assert (a = b) by lia. now subst.
Qed.

Lemma occurrences_cons (key k : string) (keys : list string) :
  occurrences key (k :: keys)
  = ((if decide (k = key) then 1 else 0) + occurrences key keys)%nat.
Proof.
  unfold occurrences. rewrite filter_cons. destruct (decide (k = key)); reflexivity.
Qed.

Lemma occurrences_app (key : string) (l1 l2 : list string) :
  occurrences key (l1 ++ l2) = (occurrences key l1 + occurrences key l2)%nat.
Proof. unfold occurrences. now rewrite filter_app, length_app. Qed.

Lemma occurrences_positive (key : string) (keys : list string) :
  (0 < occurrences key keys)%nat <-> key ∈ keys.
Proof.
  induction keys as [|k keys IH].
  - cbn. split; [lia|]. intros H. now apply elem_of_nil in H.
  - rewrite occurrences_cons, elem_of_cons. destruct (decide (k = key)) as [->|Hne].
    + split; [now left|lia].
    + cbn. rewrite IH. split; [now right|]. intros [H|H]; [congruence|assumption].
Qed.

Lemma addEdge_lookup (i1 i2 : option nat) (m : gmap string nat) (key : string) :
  default 0%nat (addEdge i1 i2 m !! key)
  = (default 0%nat (m !! key) + occurrences key [edgeKey i1 i2])%nat.
Proof.
  unfold addEdge. rewrite occurrences_cons. cbn.
  destruct (decide (edgeKey i1 i2 = key)) as [<-|Hne].
  - rewrite lookup_insert_eq. cbn. lia.
  - rewrite lookup_insert_ne by assumption. lia.
Qed.

Lemma addEdge_positive (i1 i2 : option nat) (m : gmap string nat) :
  map_Forall (fun _ count => (1 <= count)%nat) m ->
  map_Forall (fun _ count => (1 <= count)%nat) (addEdge i1 i2 m).
Proof.
  intros H. unfold addEdge. apply map_Forall_insert_2; [lia|assumption].
Qed.

Lemma countEdges_lookup (ts : list (nat * nat * nat)) (m : gmap string nat) (key : string) :
  default 0%nat (countEdges (flatten ts) m !! key)
  = (default 0%nat (m !! key) + occurrences key (edgeKeys ts))%nat.
Proof.
  revert m. induction ts as [|[[a b] c] ts IH]; intros m.
  - cbn. lia.
  - change (flatten ((a, b, c) :: ts)) with (a :: b :: c :: flatten ts).
    cbn [countEdges]. rewrite IH. unfold addTriangle. rewrite !addEdge_lookup.
    change (edgeKeys ((a, b, c) :: ts))
      with ([edgeKey (Some a) (Some b); edgeKey (Some b) (Some c); edgeKey (Some c) (Some a)]
            ++ edgeKeys ts).
    rewrite occurrences_app. rewrite !occurrences_cons. cbn. lia.
Qed.

Lemma countEdges_positive (ts : list (nat * nat * nat)) (m : gmap string nat) :
  map_Forall (fun _ count => (1 <= count)%nat) m ->
  map_Forall (fun _ count => (1 <= count)%nat) (countEdges (flatten ts) m).
Proof.
  revert m. induction ts as [|[[a b] c] ts IH]; intros m H; [exact H|].
  change (flatten ((a, b, c) :: ts)) with (a :: b :: c :: flatten ts).
  cbn [countEdges]. apply IH. unfold addTriangle. now repeat apply addEdge_positive.
Qed.

Lemma hasNonManifoldEdges_false (g : BufferGeometry) (indices : list nat) :
  index g = Some indices ->
  hasNonManifoldEdges g = false <->
  forall key count, countEdges indices ∅ !! key = Some count -> count = 2%nat.
Proof.
  intros E. unfold hasNonManifoldEdges. rewrite E. split.
  - intros H key count Hk. apply not_true_iff_false in H.
    destruct (decide (count = 2%nat)) as [|Hne]; [assumption|]. exfalso. apply H.
    apply existsb_exists. exists (key, count). split.
    + apply list_elem_of_In, elem_of_map_to_list. exact Hk.
    + cbn [snd]. apply orb_true_iff.
      destruct (decide (2 < count)%nat); [left|right]; apply Nat.ltb_lt; lia.
  - intros H. apply not_true_iff_false. intros Hex.
    apply existsb_exists in Hex as [[key count] [Hin Hc]].
    apply list_elem_of_In, elem_of_map_to_list in Hin. apply H in Hin. subst count.
    cbn in Hc. discriminate.
Qed.

Lemma edge_counts_spec (g : BufferGeometry) (ts : list (nat * nat * nat)) :
  index g = Some (flatten ts) ->
  hasNonManifoldEdges g = false <->
  forall key, key ∈ edgeKeys ts -> occurrences key (edgeKeys ts) = 2%nat.
Proof.
  intros E. rewrite (hasNonManifoldEdges_false g (flatten ts) E).
  pose proof (countEdges_lookup ts ∅) as Hl.
  pose proof (countEdges_positive ts ∅ (map_Forall_empty _)) as Hp.
  split.
  - intros H key Hk. apply occurrences_positive in Hk.
    specialize (Hl key). rewrite lookup_empty in Hl. cbn in Hl.
    destruct (countEdges (flatten ts) ∅ !! key) as [count|] eqn:Ec; cbn in Hl; [|lia].
    rewrite <- Hl. now apply (H key).
  - intros H key count Hc. specialize (Hl key). rewrite Hc, lookup_empty in Hl. cbn in Hl.
    pose proof (Hp key count Hc) as H1. cbn in H1.
    rewrite Hl. apply H. apply occurrences_positive. lia.
Qed.

Lemma filter_other (key k : string) (l : list string) :
  k <> key ->
  occurrences k (filter (fun x => x <> key) l) = occurrences k l.
Proof.
  intros Hne. induction l as [|x l IH]; [reflexivity|].
  rewrite filter_cons. destruct (decide (x <> key)) as [Hx|Hx].
  - rewrite !occurrences_cons. now rewrite IH.
  - rewrite occurrences_cons. apply dec_stable in Hx. subst x.
    rewrite decide_False by congruence. exact IH.
Qed.

Lemma length_filter_split (key : string) (l : list string) :
  length l = (occurrences key l + length (filter (fun x => x <> key) l))%nat.
Proof.
  induction l as [|x l IH]; [reflexivity|].
  rewrite occurrences_cons, filter_cons. cbn [length].
  destruct (decide (x = key)) as [->|Hne].
  - rewrite decide_False by (intros H; now apply H). lia.
  - rewrite decide_True by assumption. cbn [length]. lia.
Qed.

Lemma twice_each_even (n : nat) (l : list string) :
  (length l <= n)%nat ->
  (forall key, key ∈ l -> occurrences key l = 2%nat) ->
  Nat.Even (length l).
Proof.
  revert l. induction n as [|n IH]; intros l Hn H.
  - destruct l; [exists 0%nat; reflexivity|cbn in Hn; lia].
  - destruct l as [|key l']; [exists 0%nat; reflexivity|].
    set (l := key :: l') in *.
    assert (Hk : occurrences key l = 2%nat) by (apply H; subst l; apply elem_of_cons; now left).
    pose proof (length_filter_split key l) as Hs.
    destruct (IH (filter (fun x => x <> key) l)) as [half Hh].
    + subst l. cbn [length] in *. lia.
    + intros k Hin. apply list_elem_of_filter in Hin as [Hne Hin].
      rewrite filter_other by assumption. now apply H.
    + exists (S half). lia.
Qed.

(** X24.  On an indexed geometry made of whole triangles
    [hasNonManifoldEdges] answers false exactly when the key of every side
    of every triangle is the key of two sides in all; the key of a side
    does not depend on its direction. *)
Theorem hasNonManifoldEdges_spec (g : BufferGeometry) (ts : list (nat * nat * nat)) :
  index g = Some (flatten ts) ->
  (hasNonManifoldEdges g = false <->
   forall key, key ∈ edgeKeys ts -> occurrences key (edgeKeys ts) = 2%nat) /\
  forall a b, edgeKey (Some a) (Some b) = edgeKey (Some b) (Some a).
Proof.
  intros E. split; [exact (edge_counts_spec g ts E)|exact edgeKey_symmetric].
Qed.

(** X25.  A geometry on which [hasNonManifoldEdges] answers false has an
    even number of triangles. *)
Theorem hasNonManifoldEdges_even (g : BufferGeometry) (ts : list (nat * nat * nat)) :
  index g = Some (flatten ts) ->
  hasNonManifoldEdges g = false ->
  Nat.Even (length ts).
Proof.
  intros E H. pose proof (proj1 (edge_counts_spec g ts E) H) as Hall.
  destruct (twice_each_even _ (edgeKeys ts) (le_n _) Hall) as [half Hh].
  assert (Hl : length (edgeKeys ts) = (3 * length ts)%nat).
  { clear. induction ts as [|[[a b] c] ts IH]; [reflexivity|].
    cbn [edgeKeys flat_map]. rewrite length_app. fold (edgeKeys ts). rewrite IH.
    cbn [length]. lia. }
  exists (half - length ts)%nat. lia.
Qed.

Lemma hasNonManifoldEdges_spec_witness :
  (hasNonManifoldEdges Examples.tetrahedron = false <->
   forall key, key ∈ edgeKeys [(0, 2, 1); (0, 1, 3); (1, 2, 3); (2, 0, 3)]%nat ->
     occurrences key (edgeKeys [(0, 2, 1); (0, 1, 3); (1, 2, 3); (2, 0, 3)]%nat) = 2%nat) /\
  forall a b, edgeKey (Some a) (Some b) = edgeKey (Some b) (Some a).
Proof.
  apply (hasNonManifoldEdges_spec Examples.tetrahedron
           [(0, 2, 1); (0, 1, 3); (1, 2, 3); (2, 0, 3)]%nat).
  reflexivity.
Defined.

Lemma hasNonManifoldEdges_even_witness :
  hasNonManifoldEdges Examples.tetrahedron = false /\
  Nat.Even (length [(0, 2, 1); (0, 1, 3); (1, 2, 3); (2, 0, 3)]%nat).
Proof.
  assert (H : hasNonManifoldEdges Examples.tetrahedron = false) by (vm_compute; reflexivity).
  split; [exact H|].
  apply (hasNonManifoldEdges_even Examples.tetrahedron
           [(0, 2, 1); (0, 1, 3); (1, 2, 3); (2, 0, 3)]%nat); [reflexivity|exact H].
Defined.

(** ** The grid size on the command line *)

Module CommandLineFacts.
Import CommandLine.

Lemma digits_allDigits (s : string) (value : Z) (count : nat) (value' : Z) (count' : nat) :
  digits s value count = (value', count', EmptyString) -> allDigits s = true.
Proof.
  revert value count. induction s as [|c rest IH]; intros value count H; [reflexivity|].
  cbn [digits allDigits] in *. destruct (digit c) as [d|]; [eapply IH, H|discriminate].
Qed.

Lemma digit_not_space (c : ascii) (d : Z) : digit c = Some d -> isWhiteSpace c = false.
Proof.
  unfold digit, isWhiteSpace. cbv zeta.
  destruct (Nat.leb_spec 48 (nat_of_ascii c)); [|discriminate].
  intros _. destruct (Nat.leb_spec 9 (nat_of_ascii c)), (Nat.leb_spec (nat_of_ascii c) 13),
    (Nat.eqb_spec (nat_of_ascii c) 32); cbn; try reflexivity; lia.
Qed.

Lemma trimStart_allDigits (s : string) : allDigits s = true -> trimStart s = s.
Proof.
  destruct s as [|c rest]; [reflexivity|]. cbn [allDigits trimStart].
  destruct (digit c) as [d|] eqn:E; [|discriminate]. intros _.
  now rewrite (digit_not_space c d E).
Qed.

Lemma rev_app_allDigits (s acc : string) :
  allDigits s = true -> allDigits acc = true -> allDigits (String.rev_app s acc) = true.
Proof.
  revert acc. induction s as [|c rest IH]; intros acc Hs Ha; [exact Ha|].
  cbn [String.rev_app allDigits] in *. destruct (digit c) as [d|] eqn:E; [|discriminate].
  apply IH; [assumption|]. cbn [allDigits]. now rewrite E.
Qed.

Lemma rev_app_rev_app (s a b : string) :
  String.rev_app (String.rev_app s a) b = String.rev_app a (s +:+ b).
Proof.
  revert a b. induction s as [|c rest IH]; intros a b; [reflexivity|].
  cbn [String.rev_app]. rewrite IH. reflexivity.
Qed.

Lemma append_empty (s : string) : s +:+ EmptyString = s.
Proof.
  induction s as [|c rest IH]; [reflexivity|].
  change (String c rest +:+ EmptyString) with (String c (rest +:+ EmptyString)).
  now rewrite IH.
Qed.

Lemma trim_allDigits (s : string) : allDigits s = true -> trim s = s.
Proof.
  intros H. unfold trim. rewrite (trimStart_allDigits s H).
  rewrite trimStart_allDigits by (now apply rev_app_allDigits).
  unfold String.rev. rewrite rev_app_rev_app. cbn [String.rev_app]. apply append_empty.
Qed.

Lemma split_without_separator (s : string) :
  hasSeparator s = false -> split "x" s = [s].
Proof.
  induction s as [|c rest IH]; [reflexivity|]. cbn [hasSeparator split].
  intros H. apply orb_false_iff in H as [Hc Hr]. rewrite Hc, (IH Hr). reflexivity.
Qed.

Lemma split_at_separator (a rest : string) :
  hasSeparator a = false -> split "x" (a +:+ String "x" rest) = a :: split "x" rest.
Proof.
  induction a as [|c a IH]; intros H.
  - cbn. reflexivity.
  - cbn [hasSeparator] in H. apply orb_false_iff in H as [Hc Hr].
    change (String c a +:+ String "x" rest) with (String c (a +:+ String "x" rest)).
    cbn [split]. rewrite Hc, (IH Hr). reflexivity.
Qed.

Lemma digit_pretty_N_char (d : N) :
  (d < 10)%N -> digit (pretty_N_char d) = Some (Z.of_N d).
Proof.
  intros H. remember (N.to_nat d) as k eqn:Ek.
  replace d with (N.of_nat k) by lia.
  assert (Hk : (k < 10)%nat) by lia. clear - Hk.
  destruct k as [|[|[|[|[|[|[|[|[|[|k]]]]]]]]]]; try reflexivity; lia.
Qed.

Lemma digits_pretty_N_go (x : N) :
  forall (s : string) (value : Z) (count : nat),
  exists k : nat,
    digits (pretty_N_go x s) value count
    = digits s (value * 10 ^ Z.of_nat k + Z.of_N x)%Z (count + k)%nat /\
    ((0 < x)%N -> (0 < k)%nat).
Proof.
  induction (N.lt_wf_0 x) as [x _ IH]. intros s value count.
  destruct (decide (0 < x)%N) as [Hx|Hx].
  - rewrite pretty_N_go_step by assumption.
    destruct (IH (x `div` 10)%N (N.div_lt x 10 Hx eq_refl)
                 (String (pretty_N_char (x `mod` 10)) s) value count) as [k [E _]].
    exists (S k). split; [|lia]. rewrite E. cbn [digits].
    rewrite digit_pretty_N_char by (apply N.mod_lt; lia).
    f_equal; [|lia].
    rewrite Nat2Z.inj_succ, Z.pow_succ_r by lia.
    pose proof (N.div_mod x 10 ltac:(lia)) as Hdm.
    assert (Hz : Z.of_N x = (10 * Z.of_N (x `div` 10) + Z.of_N (x `mod` 10))%Z) by lia.
    rewrite Hz. ring.
  - assert (x = 0%N) as -> by lia. exists 0%nat. rewrite pretty_N_go_0.
    split; [|lia]. f_equal; [cbn; lia|lia].
Qed.

Lemma digits_pretty (n : N) :
  exists k : nat, (0 < k)%nat /\ digits (pretty n) 0%Z 0%nat = (Z.of_N n, k, EmptyString).
Proof.
  unfold pretty, pretty_N. destruct (decide (n = 0%N)) as [->|Hn].
  - exists 1%nat. split; [lia|reflexivity].
  - destruct (digits_pretty_N_go n EmptyString 0%Z 0%nat) as [k [E Hk]].
    exists k. split; [apply Hk; lia|]. rewrite E. cbn [digits]. repeat f_equal; lia.
Qed.

Lemma Number_digits (s : string) (value : Z) (count : nat) :
  digits s 0%Z 0%nat = (value, count, EmptyString) -> (0 < count)%nat ->
  Number s = Num (inject_Z value).
Proof.
  intros E Hc.
  pose proof (digits_allDigits s _ _ _ _ E) as Hd.
  unfold Number. rewrite (trim_allDigits s Hd).
  destruct s as [|c rest].
  { cbn in E. injection E as _ <-. lia. }
  assert (Hu : unsignedLiteral (String c rest) = Num (inject_Z value)).
  { unfold unsignedLiteral.
    assert (Hi : String.eqb (String c rest) "Infinity" = false).
    { cbn [String.eqb]. cbn [allDigits] in Hd. destruct (digit c) eqn:Ec; [|discriminate].
      destruct (Ascii.eqb_spec c "I") as [->|]; [|reflexivity]. discriminate. }
    rewrite Hi, E. destruct (Nat.eqb_spec count 0); [lia|reflexivity]. }
  cbn [allDigits] in Hd. destruct (digit c) as [d|] eqn:Ec; [|discriminate].
  destruct (Ascii.eqb_spec c "+") as [->|Hp]; [discriminate|].
  destruct (Ascii.eqb_spec c "-") as [->|Hm]; [discriminate|].
  rewrite <- Hu. clear - Hp Hm.
  destruct c as [[] [] [] [] [] [] [] []]; try reflexivity; congruence.
Qed.

Lemma Number_pretty (n : N) : Number (pretty n) = Num (inject_Z (Z.of_N n)).
Proof.
  destruct (digits_pretty n) as (k & Hk & E). exact (Number_digits _ _ _ E Hk).
Qed.

Lemma allDigits_no_separator (s : string) : allDigits s = true -> hasSeparator s = false.
Proof.
  induction s as [|c rest IH]; [reflexivity|]. cbn [allDigits hasSeparator].
  destruct (digit c) as [d|] eqn:E; [|discriminate]. intros H. rewrite (IH H).
  destruct (Ascii.eqb_spec c "x") as [->|]; [discriminate|reflexivity].
Qed.

Lemma pretty_no_separator (n : N) : hasSeparator (pretty n) = false.
Proof.
  destruct (digits_pretty n) as (k & _ & E).
  eapply allDigits_no_separator, digits_allDigits, E.
Qed.

Lemma positiveInteger_pretty (n : N) : (1 <= n)%N -> positiveInteger (pretty n) = true.
Proof.
  intros H. unfold positiveInteger. destruct (digits_pretty n) as (k & Hk & ->).
  apply andb_true_iff. split; [apply Nat.ltb_lt; lia|apply Z.leb_le; lia].
Qed.

Lemma lessThan_one (n : N) :
  lessThan (Number_ (Num (inject_Z (Z.of_N n)))) 1 = bool_decide (n = 0%N).
Proof.
  cbn [lessThan]. unfold Qltb. destruct (decide (n = 0%N)) as [->|Hn].
  - reflexivity.
  - rewrite bool_decide_eq_false_2 by assumption. apply negb_false_iff.
    apply Qle_bool_iff. unfold Qle, inject_Z. cbn. lia.
Qed.

End CommandLineFacts.

Section GridSizeText.
Import CommandLine.
Import CommandLineFacts.

(** X26.  For integers [n] and [m] from 1 to 2^53, the text made of the
    decimal digits of [n], an [x] and the decimal digits of [m] has the
    form NxM, and [parseGridSize] returns the pair of [n] and [m] on it. *)
Theorem parseGridSize_accepts_NxM (n m : N) :
  (1 <= n <= 2 ^ 53)%N -> (1 <= m <= 2 ^ 53)%N ->
  matchesNxM (pretty n +:+ "x" +:+ pretty m) = true /\
  parseGridSize (pretty n +:+ "x" +:+ pretty m)
  = Returned (Number_ (Num (inject_Z (Z.of_N n))), Number_ (Num (inject_Z (Z.of_N m)))).
Proof.
  intros [Hn _] [Hm _].
  assert (S : split "x" (pretty n +:+ "x" +:+ pretty m) = [pretty n; pretty m]).
  { change (pretty n +:+ "x" +:+ pretty m) with (pretty n +:+ String "x" (pretty m)).
    rewrite split_at_separator by apply pretty_no_separator.
    now rewrite split_without_separator by apply pretty_no_separator. }
  split.
  - unfold matchesNxM. rewrite S. now rewrite !positiveInteger_pretty.
  - unfold parseGridSize. rewrite S. cbn [map]. rewrite !Number_pretty.
    unfold element. cbn [lookup list_lookup]. rewrite !lessThan_one.
    rewrite !bool_decide_eq_false_2 by lia. reflexivity.
Qed.

(** X27.  [parseGridSize] reads the first two fields only: what follows a
    second [x] changes neither the answer nor the error. *)
Theorem parseGridSize_ignores_further_fields (a b rest : string) :
  hasSeparator a = false -> hasSeparator b = false ->
  parseGridSize (a +:+ "x" +:+ b +:+ "x" +:+ rest) = parseGridSize (a +:+ "x" +:+ b).
Proof.
  intros Ha Hb. unfold parseGridSize.
  change (a +:+ "x" +:+ b +:+ "x" +:+ rest) with (a +:+ String "x" (b +:+ String "x" rest)).
  change (a +:+ "x" +:+ b) with (a +:+ String "x" b).
  rewrite !split_at_separator by assumption.
  rewrite (split_without_separator b Hb). reflexivity.
Qed.

(** X28.  A lone integer is not of the form NxM, but [parseGridSize] only
    throws on it when it is 0: for [n] from 1 to 2^53 the decimal digits of
    [n] are accepted, with [n] in the first place and nothing in the
    second. *)
Theorem parseGridSize_without_separator (n : N) :
  (n <= 2 ^ 53)%N ->
  matchesNxM (pretty n) = false /\
  parseGridSize (pretty n)
  = if decide (n = 0%N)
    then Thrown "Invalid grid size. Expected format: NxM, where N and M are positive integers."
    else Returned (Number_ (Num (inject_Z (Z.of_N n))), Undefined).
Proof.
  intros _.
  assert (S : split "x" (pretty n) = [pretty n])
    by apply split_without_separator, pretty_no_separator.
  split.
  - unfold matchesNxM. now rewrite S.
  - unfold parseGridSize. rewrite S. cbn [map]. rewrite Number_pretty.
    unfold element. cbn [lookup list_lookup]. rewrite lessThan_one.
    cbn [lessThan]. rewrite orb_false_r.
    destruct (decide (n = 0%N)) as [->|Hn].
    + reflexivity.
    + now rewrite bool_decide_eq_false_2 by assumption.
Qed.

End GridSizeText.

Lemma parseGridSize_accepts_NxM_witness :
  CommandLine.matchesNxM "12x3" = true /\
  CommandLine.parseGridSize "12x3"
  = Returned (CommandLine.Number_ (CommandLine.Num 12),
              CommandLine.Number_ (CommandLine.Num 3)).
Proof.
  apply (parseGridSize_accepts_NxM 12 3); lia.
Defined.

Lemma parseGridSize_ignores_further_fields_witness :
  CommandLine.parseGridSize "2x3x9" = CommandLine.parseGridSize "2x3".
Proof.
  apply (parseGridSize_ignores_further_fields "2" "3" "9"); reflexivity.
Defined.

Lemma parseGridSize_without_separator_witness :
  CommandLine.matchesNxM "5" = false /\
  CommandLine.parseGridSize "5"
  = Returned (CommandLine.Number_ (CommandLine.Num 5), CommandLine.Undefined).
Proof.
  apply (parseGridSize_without_separator 5). lia.
Defined.

(** ** What [reassemble] hands back *)

Section ReassembleResult.

Variable Math_sqrt : Q -> Q.
Variable mergeVertices : BufferGeometry -> option Q -> BufferGeometry.
Variable mergeGeometries : list BufferGeometry -> bool -> option BufferGeometry.
Variable evaluate : BufferGeometry -> BufferGeometry -> Operation -> BufferGeometry.

Hypothesis welded_indexed : forall g tolerance, index (mergeVertices g tolerance) <> None.
Hypothesis welded_in_range : forall g tolerance, indicesInRange (mergeVertices g tolerance).
Hypothesis welding_shrinks : forall g tolerance,
  indicesInRange g ->
  (length (position (mergeVertices g tolerance)) <= length (position g))%nat.

Lemma repair_hands_back (fuel : nat) (combined : BufferGeometry) :
  indicesInRange combined ->
  (length (position combined) < fuel)%nat ->
  fixNonManifoldGeometry Math_sqrt mergeVertices fuel combined = Returned combined.
Proof.
  intros Hr Hf.
  destruct (repairLoop_turns Math_sqrt mergeVertices welded_indexed welded_in_range
              welding_shrinks (length (position combined)) combined (le_n _) Hr)
    as (result & turns & Ht & Hyes & _).
  unfold fixNonManifoldGeometry. rewrite (Hyes fuel) by lia. reflexivity.
Qed.

(** X29.  Without [unionAll], once the pieces merge, [reassemble] hands
    back the merged buffer as the merge left it: the repair step runs and
    its result is dropped.  This is for subparts that all have vertices,
    and a cell and pieces with a size to divide by, so that no coordinate
    is an infinity or a NaN and no check of [validateGeometry] fires.
    (With a welder that keeps indices in range and adds no vertices, and a
    merged buffer whose indices are in range; one turn more than the
    buffer has vertices is enough.) *)
Theorem reassemble_returns_merged (subparts : Subparts) (gridResult : GridResult)
    (cornerCuttingRadius height rows cols : Q) (dividerThickness : option Q)
    (unionAll : option bool) (combined : BufferGeometry) (fuel : nat) :
  Forall (fun entry => position (snd entry) <> []) (entries subparts) ->
  Forall (fun d => ~ d == 0) (divisors subparts) ->
  ~ sizeX gridResult == 0 -> ~ sizeY gridResult == 0 ->
  truthy unionAll = false ->
  mergeGeometries (geometries subparts gridResult cornerCuttingRadius height rows cols) true
    = Some combined ->
  indicesInRange combined ->
  (length (position combined) < fuel)%nat ->
  reassemble Math_sqrt mergeVertices mergeGeometries evaluate fuel subparts gridResult
             cornerCuttingRadius height rows cols dividerThickness unionAll
  = Returned combined.
Proof.
  intros _ _ _ _ Hu Hm Hr Hf.
  assert (L : (20 <= length (geometries subparts gridResult cornerCuttingRadius height
                                        rows cols))%nat).
  { unfold geometries. rewrite length_map. apply placedPieces_length. }
  unfold reassemble. rewrite validateAll_returns. cbn [mbind outcome_bind].
  destruct (decide _) as [E|_]; [lia|].
  rewrite Hu, Hm. cbn [mbind outcome_bind].
  rewrite (repair_hands_back fuel combined Hr Hf). reflexivity.
Qed.

(** X30.  With [unionAll] set, and under the same conditions on the
    subparts and the cell, [reassemble] hands back the union of the pieces
    taken from the left in the order of the list, unrepaired as well;
    [unionAllGeometry] does not throw there, the list is never empty. *)
Theorem reassemble_returns_union (subparts : Subparts) (gridResult : GridResult)
    (cornerCuttingRadius height rows cols : Q) (dividerThickness : option Q)
    (unionAll : option bool) (combined : BufferGeometry) (fuel : nat) :
  Forall (fun entry => position (snd entry) <> []) (entries subparts) ->
  Forall (fun d => ~ d == 0) (divisors subparts) ->
  ~ sizeX gridResult == 0 -> ~ sizeY gridResult == 0 ->
  truthy unionAll = true ->
  unionAllGeometry evaluate
    (geometries subparts gridResult cornerCuttingRadius height rows cols) = Returned combined ->
  indicesInRange combined ->
  (length (position combined) < fuel)%nat ->
  reassemble Math_sqrt mergeVertices mergeGeometries evaluate fuel subparts gridResult
             cornerCuttingRadius height rows cols dividerThickness unionAll
  = Returned combined /\
  exists first rest,
    geometries subparts gridResult cornerCuttingRadius height rows cols = first :: rest /\
    combined = foldl (unionTwo evaluate) first rest.
Proof.
  intros _ _ _ _ Hu Hc Hr Hf.
  assert (L : (20 <= length (geometries subparts gridResult cornerCuttingRadius height
                                        rows cols))%nat).
  { unfold geometries. rewrite length_map. apply placedPieces_length. }
  split.
  - unfold reassemble. rewrite validateAll_returns. cbn [mbind outcome_bind].
    destruct (decide _) as [E|_]; [lia|].
    rewrite Hu, Hc. cbn [mbind outcome_bind].
    rewrite (repair_hands_back fuel combined Hr Hf). reflexivity.
  - destruct (geometries subparts gridResult cornerCuttingRadius height rows cols)
      as [|first rest]; [cbn in L; lia|].
    exists first, rest. split; [reflexivity|].
    cbn [unionAllGeometry] in Hc. now injection Hc as <-.
Qed.

End ReassembleResult.

Lemma reassemble_returns_merged_witness :
  let combined :=
    default Examples.emptyGeometry
      (Examples.mergeGeometries (geometries Examples.parts Examples.oneCell 2 8 1 1) true) in
  reassemble Examples.Math_sqrt Examples.mergeVertices Examples.mergeGeometries
             Examples.evaluate 201 Examples.parts Examples.oneCell 2 8 1 1 (Some 0) None
  = Returned combined.
Proof.
  intros combined.
  apply (reassemble_returns_merged Examples.Math_sqrt Examples.mergeVertices
           Examples.mergeGeometries Examples.evaluate
           ExampleFacts.welded_indexed ExampleFacts.welded_in_range
           ExampleFacts.welding_shrinks).
  - repeat constructor; discriminate.
  - repeat constructor; intros H; vm_compute in H; discriminate H.
  - discriminate.
  - discriminate.
  - reflexivity.
  - vm_compute. reflexivity.
  - apply (bool_decide_unpack _). vm_compute. exact I.
  - apply Nat.ltb_lt. vm_compute. reflexivity.
Defined.

Lemma reassemble_returns_union_witness :
  let pieces := geometries Examples.parts Examples.oneCell 2 8 1 1 in
  let combined :=
    foldl (unionTwo Examples.evaluate) (hd Examples.emptyGeometry pieces) (tl pieces) in
  reassemble Examples.Math_sqrt Examples.mergeVertices Examples.mergeGeometries
             Examples.evaluate 201 Examples.parts Examples.oneCell 2 8 1 1 (Some 0) (Some true)
  = Returned combined /\
  exists first rest,
    pieces = first :: rest /\ combined = foldl (unionTwo Examples.evaluate) first rest.
Proof.
  intros pieces combined.
  apply (reassemble_returns_union Examples.Math_sqrt Examples.mergeVertices
           Examples.mergeGeometries Examples.evaluate
           ExampleFacts.welded_indexed ExampleFacts.welded_in_range
           ExampleFacts.welding_shrinks).
  - repeat constructor; discriminate.
  - repeat constructor; intros H; vm_compute in H; discriminate H.
  - discriminate.
  - discriminate.
  - reflexivity.
  - vm_compute. reflexivity.
  - apply (bool_decide_unpack _). vm_compute. exact I.
  - apply Nat.ltb_lt. vm_compute. reflexivity.
Defined.

(** ** Rescaling the cell *)

Section Rescaling.

Variable Math_sqrt : Q -> Q.
Variable mergeVertices : BufferGeometry -> option Q -> BufferGeometry.
Variable mergeGeometries : list BufferGeometry -> bool -> option BufferGeometry.
Variable evaluate : BufferGeometry -> BufferGeometry -> Operation -> BufferGeometry.
Variable BoxGeometry : Q -> Q -> Q -> BufferGeometry.

(** The vertices of a geometry scaled by a positive factor and trimmed are
    those of the geometry, taken from the corner of its box and multiplied
    by the factor. *)
Lemma scaled_and_trimmed (g : BufferGeometry) (s : Q) :
  position g <> [] -> 0 < s ->
  Forall2 (fun p' p => forall axis,
             coordinate axis p' == (coordinate axis p - coordinate axis (bbMin g)) * s)
          (position (trimBufferGeometryToOrigin (scale g s s s))) (position g).
Proof.
  intros Hne Hs. rewrite position_trim by now apply scale_nonempty.
  assert (Hmin : forall axis, coordinate axis (bbMin (scale g s s s))
                              = coordinate axis (bbMin g) * s).
  { intros axis. rewrite bbMin_scale; [now destruct axis|now destruct axis|assumption]. }
  pose proof (Hmin AxisX) as HX. pose proof (Hmin AxisY) as HY. pose proof (Hmin AxisZ) as HZ.
  cbn [coordinate] in HX, HY, HZ. rewrite HX, HY, HZ.
  unfold scale, mapPosition. cbn [position].
  generalize (bbMin g) as corner. generalize (position g) as l. clear.
  induction l as [|p l IH]; intros corner; cbn [map]; constructor; [|apply IH].
  intros axis. destruct axis; cbn [coordinate vx vy vz]; ring.
Qed.

(** C7.  With an [outputGridSize] the pipeline scales the extracted cell
    by [s = outputGridSize / sizeX] along all three axes before the
    decomposition: every vertex of the scaled cell is the vertex of the
    cell, taken from the corner of its box and multiplied by [s], so the
    extent of the cell along every axis is multiplied by [s] and its box
    stays at the origin; the recorded [sizeX] becomes [outputGridSize] and
    [sizeY], [sizeZ] are multiplied by [s]; the corner radius becomes
    [inputCornerRadius * s]; and the decomposition and the reassembly run
    on the scaled cell and the scaled radius, in debug mode or not.  This
    is for a cell that has vertices, a positive [sizeX] and a positive
    [outputGridSize]. *)
Theorem rescale_to_outputGridSize (original : GridResult)
    (cornerRadius outputSize : Q) :
  position (geometry original) <> [] ->
  0 < sizeX original -> 0 < outputSize ->
  let s := outputSize / sizeX original in
  exists (scaled : GridResult) (radius : Q),
    rescale original cornerRadius (Some outputSize) = Returned (scaled, radius) /\
    Forall2 (fun p' p => forall axis,
               coordinate axis p'
               == (coordinate axis p - coordinate axis (bbMin (geometry original))) * s)
            (position (geometry scaled)) (position (geometry original)) /\
    index (geometry scaled) = index (geometry original) /\
    (forall axis, extent axis (geometry scaled) == extent axis (geometry original) * s) /\
    (forall axis, coordinate axis (bbMin (geometry scaled)) == 0) /\
    sizeX scaled == outputSize /\
    sizeY scaled == sizeY original * s /\
    sizeZ scaled == sizeZ original * s /\
    radius == cornerRadius * s /\
    forall (isDebug : bool) (fuel : nat) (baseGeom : BufferGeometry)
           (options : GridifierOptions),
      let loaded :=
        if isDebug then
          let trimmed := trimBufferGeometryToOrigin baseGeom in
          snd (cutByMeshBox mergeVertices evaluate trimmed
                 (makeBoxMesh BoxGeometry
                    (vx (bbMin trimmed)) (vx (bbMax trimmed))
                    (vy (bbMin trimmed)) (vy (bbMax trimmed))
                    (vz (bbMin trimmed)) (vz (bbMax trimmed))))
        else baseGeom in
      snd (cutToGrid mergeVertices evaluate BoxGeometry loaded
             (fst (inputGrids options)) (snd (inputGrids options))) = Returned original ->
      outputGridSize options = Some outputSize ->
      inputCornerRadius options = cornerRadius ->
      Gridifier Math_sqrt mergeVertices mergeGeometries evaluate BoxGeometry isDebug fuel
                baseGeom options =
      (subparts ← cutToParts mergeVertices evaluate BoxGeometry (geometry scaled) radius;
       reassemble Math_sqrt mergeVertices mergeGeometries evaluate fuel subparts scaled
                  radius (height options)
                  (fst (outputGrids options)) (snd (outputGrids options))
                  (dividerThickness options) (unionAll options)).
Proof.
  intros Hne Hsize Hout s.
  assert (Hs : 0 < s) by now apply Qdiv_pos.
  exists {| geometry := trimBufferGeometryToOrigin (scale (geometry original) s s s);
            sizeX := sizeX original * s;
            sizeY := sizeY original * s;
            sizeZ := sizeZ original * s |}, (cornerRadius * s).
  split; [reflexivity|]. cbn [geometry sizeX sizeY sizeZ].
  split; [now apply scaled_and_trimmed|].
  split.
  { destruct (trim_facts (scale (geometry original) s s s) AxisX) as (_ & _ & _ & -> & _).
    reflexivity. }
  split.
  { intros axis. rewrite extent_trim. rewrite extent_scale; now destruct axis. }
  split; [intros axis; apply bbMin_trim|].
  split; [subst s; field; now apply Qlt_not_0|].
  split; [reflexivity|]. split; [reflexivity|]. split; [reflexivity|].
  intros isDebug fuel baseGeom options Hcut Hsome Hrad.
  unfold Gridifier. destruct (inputGrids options) as [n m]. cbn [fst snd] in Hcut.
  destruct isDebug; rewrite Hcut, Hsome, Hrad;
    destruct (outputGrids options) as [rows cols]; reflexivity.
Qed.

End Rescaling.

Lemma rescale_to_outputGridSize_witness :
  let original := Examples.oneCell in
  let s := 20 / sizeX original in
  exists (scaled : GridResult) (radius : Q),
    rescale original 2 (Some 20) = Returned (scaled, radius) /\
    Forall2 (fun p' p => forall axis,
               coordinate axis p'
               == (coordinate axis p - coordinate axis (bbMin (geometry original))) * s)
            (position (geometry scaled)) (position (geometry original)) /\
    index (geometry scaled) = index (geometry original) /\
    (forall axis, extent axis (geometry scaled) == extent axis (geometry original) * s) /\
    (forall axis, coordinate axis (bbMin (geometry scaled)) == 0) /\
    sizeX scaled == 20 /\
    sizeY scaled == sizeY original * s /\
    sizeZ scaled == sizeZ original * s /\
    radius == 2 * s.
Proof.
  intros original s.
  destruct (rescale_to_outputGridSize Examples.Math_sqrt Examples.mergeVertices
              Examples.mergeGeometries Examples.evaluate Examples.BoxGeometry
              Examples.oneCell 2 20)
    as (scaled & radius & H1 & H2 & H3 & H4 & H5 & H6 & H7 & H8 & H9 & _).
  - discriminate.
  - reflexivity.
  - reflexivity.
  - exists scaled, radius. repeat split; assumption.
Defined.
